(** * Hyperion: the SPH fluid simulator (engine/physics/sph.py)

    A shallow embedding of [SPHSystem] and of the three kernels it drives
    ([calculate_densities_and_pressures], [calculate_forces],
    [integrate_motion]), followed by the properties of the specification
    that concern them.

    Numeric model.  The program computes on float32 arrays and float64
    scalars.  In the first model every float is a real number: [np.sqrt]
    is [sqrt], [np.pi] is [PI], [max] is [Rmax], and rounding, infinities
    and NaN are outside the model; statements proved on it are statements
    about the exact-arithmetic reading of the code.  The constructor is
    the exception: it returns only for arguments whose stored values are
    in the range of their formats, and fails where the interpreter's [**]
    overflows, or underflows to a zero divisor.  A second model,
    [Float32], has the positions and the velocities as float32 values
    proper, with their infinities and NaN; the two properties of the step
    that an overflow decides are stated on it.

    Arrays.  An array of shape [(particle_count,)] or [(particle_count, 3)]
    is a function from the particle index to its element; the kernels only
    touch indices below [particle_count], and the array length itself lives
    in the field [particle_count].

    Partiality.  A scalar division whose divisor can be zero on some input,
    and the read [gravity[1]] of an array that may be shorter than two
    elements, have no result assigned by the kernels' source (the compiled
    kernels do not check array bounds); the model answers [Unspecified]
    there.  Python-level exceptions of the constructor are [Raised]. *)

From Stdlib Require Import Reals Lra Lia List ZArith Bool Arith.
From Stdlib Require String.
Import ListNotations.
Import String.StringSyntax.
Delimit Scope string_scope with string.
Open Scope R_scope.

(** ** Comparisons of floats as booleans *)

Definition Rltb (a b : R) : bool := if Rlt_dec a b then true else false.
Definition Rleb (a b : R) : bool := if Rle_dec a b then true else false.
Definition Rgtb (a b : R) : bool := Rltb b a.
Definition Reqb (a b : R) : bool := if Req_dec_T a b then true else false.

Notation "a <? b" := (Rltb a b) (at level 70, no associativity) : R_scope.
Notation "a <=? b" := (Rleb a b) (at level 70, no associativity) : R_scope.
Notation "a >? b" := (Rgtb a b) (at level 70, no associativity) : R_scope.
Notation "a =? b" := (Reqb a b) (at level 70, no associativity) : R_scope.

(** ** Outcomes of calls *)

Inductive exn : Set := ValueError | ZeroDivisionError | OverflowError.

Inductive outcome (A : Type) : Type :=
| Returned (a : A)
| Raised (e : exn)
| Unspecified.

Arguments Returned {A} a.
Arguments Raised {A} e.
Arguments Unspecified {A}.

Definition bind {A B : Type} (c : outcome A) (k : A -> outcome B) : outcome B :=
  match c with
  | Returned a => k a
  | Raised e => Raised e
  | Unspecified => Unspecified
  end.

Notation "x <- c ;; k" := (bind c (fun x => k))
  (at level 61, c at next level, right associativity).
Notation "' pat <- c ;; k" := (bind c (fun x => match x with pat => k end))
  (at level 61, pat pattern, c at next level, right associativity).

(** Division in the interpreter: a zero divisor raises. *)
Definition pydiv (a b : R) : outcome R :=
  if b =? 0 then Raised ZeroDivisionError else Returned (a / b).

(** The largest finite float64 (the interpreter's [float]) and the largest
    finite float32 (the element type of the particle arrays). *)
Definition float64_max : R := (2 - / 2 ^ 52) * 2 ^ 1023.
Definition float32_max : R := (2 - / 2 ^ 23) * 2 ^ 127.

(** A real number stands for the float it rounds to as long as its
    magnitude is within the format. *)
Definition fits (fmax x : R) : bool := Rabs x <=? fmax.

(** [x ** n] on interpreter floats, for an integer [n].  The interpreter
    raises [OverflowError] when the power overflows, and answers [0.0]
    when it underflows to zero.  Both answers are given here with a margin
    of one binade (from [2^1025] on, and up to [2^-1076], half of half the
    smallest positive float64); a power in the normal range is itself;
    next to the two ends of the range, where the answer depends on the
    rounding of the power, no result is modelled. *)
Definition float_pow (x : R) (n : nat) : outcome R :=
  let y := x ^ n in
  if y =? 0 then Returned 0
  else if 2 ^ 1025 <=? Rabs y then Raised OverflowError
  else if Rabs y <=? / 2 ^ 1076 then Returned 0
  else if (/ 2 ^ 1022 <=? Rabs y) && (Rabs y <=? float64_max) then Returned y
  else Unspecified.

(** Scalar division inside a compiled kernel: no result on a zero divisor. *)
Definition ndiv (a b : R) : outcome R :=
  if b =? 0 then Unspecified else Returned (a / b).

(** Unchecked read [a[k]] of a one-dimensional array inside a kernel. *)
Definition read (a : list R) (k : nat) : outcome R :=
  match nth_error a k with
  | Some v => Returned v
  | None => Unspecified
  end.

(** ** Three-component vectors and arrays *)

Record vec3 : Type := V3 { vx : R; vy : R; vz : R }.

(** The column indices 0, 1, 2 of an [(n, 3)] array. *)
Inductive axis : Set := A0 | A1 | A2.

Definition get (v : vec3) (a : axis) : R :=
  match a with A0 => vx v | A1 => vy v | A2 => vz v end.

Definition set (v : vec3) (a : axis) (r : R) : vec3 :=
  match a with
  | A0 => V3 r (vy v) (vz v)
  | A1 => V3 (vx v) r (vz v)
  | A2 => V3 (vx v) (vy v) r
  end.

Definition vzero : vec3 := V3 0 0 0.
Definition vadd (u v : vec3) : vec3 := V3 (vx u + vx v) (vy u + vy v) (vz u + vz v).
Definition vsub (u v : vec3) : vec3 := V3 (vx u - vx v) (vy u - vy v) (vz u - vz v).
Definition vmul (u v : vec3) : vec3 := V3 (vx u * vx v) (vy u * vy v) (vz u * vz v).
Definition vscale (u : vec3) (k : R) : vec3 := V3 (vx u * k) (vy u * k) (vz u * k).
Definition smul (k : R) (u : vec3) : vec3 := V3 (k * vx u) (k * vy u) (k * vz u).
Definition vdiv (u : vec3) (k : R) : vec3 := V3 (vx u / k) (vy u / k) (vz u / k).

Definition array (T : Type) : Type := nat -> T.

Definition upd {T : Type} (a : array T) (i : nat) (v : T) : array T :=
  fun k => if Nat.eqb k i then v else a k.

(** ** Loops *)

(** [for i in range(n): s = body(i, s)] *)
Definition for_range {S : Type} (n : nat) (body : nat -> S -> S) (s : S) : S :=
  fold_left (fun acc i => body i acc) (seq 0 n) s.

Fixpoint foldM {S : Type} (body : nat -> S -> outcome S) (l : list nat) (s : S)
  : outcome S :=
  match l with
  | [] => Returned s
  | i :: l' => s' <- body i s ;; foldM body l' s'
  end.

(** The same loop with a body that may have no result. *)
Definition for_rangeM {S : Type} (n : nat) (body : nat -> S -> outcome S) (s : S)
  : outcome S :=
  foldM body (seq 0 n) s.

(** [for j in range(3)] over the columns. *)
Definition for_axes {S : Type} (body : axis -> S -> S) (s : S) : S :=
  fold_left (fun acc a => body a acc) [A0; A1; A2] s.

(** ** The system object *)

Record SPHSystem : Type := mkSPH {
  particle_count : nat;
  smoothing_radius : R;
  rest_density : R;
  viscosity : R;
  pressure_stiffness : R;
  gravity : list R;
  positions : array vec3;
  velocities : array vec3;
  densities : array R;
  pressures : array R;
  forces : array vec3;
  boundary_min : vec3;
  boundary_max : vec3;
  boundary_damping : R;
  kernel_constant : R;
  pressure_constant : R
}.

(** *** Construction *)

(** The values a caller can pass for [gravity]: [None], a Python list of
    floats, or a one-dimensional numpy array. *)
Inductive gravity_arg : Type :=
| GNone
| GList (l : list R)
| GArray (a : list R).

(** [bool(gravity)], as evaluated by [gravity or [...]].  [None] and the
    empty list are false, a non-empty list is true.  An array of one
    element has the truth value of that element; an array of two or more
    elements raises [ValueError] (its truth value is ambiguous); for the
    empty array the answer depends on the numpy release and is left
    unspecified. *)
Definition truth_value (g : gravity_arg) : outcome bool :=
  match g with
  | GNone => Returned false
  | GList [] => Returned false
  | GList (_ :: _) => Returned true
  | GArray [] => Unspecified
  | GArray [x] => Returned (negb (x =? 0))
  | GArray (_ :: _ :: _) => Raised ValueError
  end.

Definition default_gravity : list R := [0; -9.81; 0].

(** [np.array(gravity or [0.0, -9.81, 0.0], dtype=np.float32)] *)
Definition gravity_or_default (g : gravity_arg) : outcome (list R) :=
  b <- truth_value g ;;
  Returned (if b then
              match g with
              | GNone => default_gravity
              | GList l => l
              | GArray a => a
              end
            else default_gravity).

(** [SPHSystem.__init__] (sph.py, lines 13-42).  Two arguments stand for
    the environment: [sample] is the draw
    [np.random.uniform(-1.0, 1.0, (particle_count, 3))], and [capacity] is
    the largest particle count for which the machine can allocate the five
    arrays.  The allocation of an array with a negative dimension raises
    [ValueError]; what a count above [capacity] does ([MemoryError], or
    another error for a size that does not fit) depends on the machine and
    is left unspecified.  In line 41 only the power can raise
    [OverflowError], and the division raises on a zero divisor.

    The casts to float32 (lines 26 and 31) and the two products (lines 41
    and 42) do not raise: beyond the range of the format they leave an
    infinity in the object.  The record of the system holds real numbers
    only, so no result is modelled in that case.  When the power is in the
    normal range and [np.pi] times the power is in range, so is the
    quotient [kernel_constant]. *)
Definition __init__ (particle_count : Z)
    (smoothing_radius rest_density viscosity pressure_stiffness : R)
    (gravity : gravity_arg) (sample : array vec3) (capacity : Z)
  : outcome SPHSystem :=
  g <- gravity_or_default gravity ;;
  if (particle_count <? 0)%Z then Raised ValueError else
  if (capacity <? particle_count)%Z then Unspecified else
  p <- float_pow smoothing_radius 4 ;;
  kc <- pydiv 8 (PI * p) ;;
  if forallb (fits float32_max) g && fits float32_max rest_density
     && fits float64_max (PI * p)
     && fits float64_max (pressure_stiffness * rest_density)
  then
    Returned {|
      particle_count := Z.to_nat particle_count;
      smoothing_radius := smoothing_radius;
      rest_density := rest_density;
      viscosity := viscosity;
      pressure_stiffness := pressure_stiffness;
      gravity := g;
      positions := sample;
      velocities := fun _ => vzero;
      densities := fun _ => rest_density;
      pressures := fun _ => 0;
      forces := fun _ => vzero;
      boundary_min := V3 (-3) (-1) (-3);
      boundary_max := V3 3 5 3;
      boundary_damping := -0.5;
      kernel_constant := kc;
      pressure_constant := pressure_stiffness * rest_density
    |}
  else Unspecified.

(** ** The density and pressure pass (sph.py, lines 87-119) *)

(** Squared distance of two particles. *)
Definition dist_sq (p_i p_j : vec3) : R :=
  let dx := vx p_i - vx p_j in
  let dy := vy p_i - vy p_j in
  let dz := vz p_i - vz p_j in
  dx * dx + dy * dy + dz * dz.

(** The two branches of the cubic spline, as functions of [q = r / h]. *)
Definition spline_inner (h q : R) : R :=
  8 / (PI * h ^ 4) * (1 - 6 * q * q + 6 * q * q * q).

Definition spline_outer (h q : R) : R :=
  8 / (PI * h ^ 4) * 2 * (1 - q) ^ 3.

(** One iteration of the inner loop of the density pass: what neighbour
    [j] does to the running sum [density] of particle [i].  The division
    [r / h] is only reached under [dist_sq < h * h], where [h] is not
    zero. *)
Definition density_body (positions : array vec3) (h : R) (i j : nat)
    (density : R) : R :=
  if Nat.eqb i j then density else
  let d := dist_sq (positions i) (positions j) in
  if d <? h * h then
    let r := sqrt d in
    let q := r / h in
    if q <=? 1 then
      if q <=? 0.5 then density + spline_inner h q
      else density + spline_outer h q
    else density
  else density.

(** The amount a neighbour at squared distance [d] adds to the density
    sum: the cutoff test followed by the spline. *)
Definition density_term (h d : R) : R :=
  if d <? h * h then
    let r := sqrt d in
    let q := r / h in
    if q <=? 1 then
      if q <=? 0.5 then spline_inner h q else spline_outer h q
    else 0
  else 0.

(** The kernel [W(r, h)] of the density pass, as a function of the
    distance [r] of the pair: the source computes it inline from
    [dist_sq = r * r]. *)
Definition W (r h : R) : R := density_term h (r * r).

(** The sum of the kernel over the neighbours of particle [i], in the
    words of the specification: [W] at the distance of each pair. *)
Definition kernel_sum (positions : array vec3) (h : R) (particle_count i : nat)
  : R :=
  fold_left
    (fun acc j =>
       if Nat.eqb i j then acc
       else acc + W (sqrt (dist_sq (positions i) (positions j))) h)
    (seq 0 particle_count) 0.

(** The sum accumulated by the inner loop for particle [i], before the
    floor is applied. *)
Definition density_sum (positions : array vec3) (h : R) (particle_count i : nat)
  : R :=
  for_range particle_count (density_body positions h i) 0.

Definition calculate_densities_and_pressures (positions : array vec3)
    (densities pressures : array R)
    (smoothing_radius rest_density pressure_constant : R)
    (particle_count : nat) : outcome (array R * array R) :=
  let h := smoothing_radius in
  for_rangeM particle_count
    (fun i '(densities, pressures) =>
       let density := density_sum positions h particle_count i in
       let densities := upd densities i (Rmax density (rest_density * 0.1)) in
       ratio <- ndiv (densities i) rest_density ;;
       Returned (densities,
                 upd pressures i (pressure_constant * (ratio - 1))))
    (densities, pressures).

(** ** The force pass (sph.py, lines 122-182) *)

(** The scalar factor of the kernel gradient, [grad_mag] in
    [compute_kernel_gradient]. *)
Definition grad_mag (h q : R) : R :=
  if q <=? 0.5 then 24 / (PI * h ^ 5) * q * (3 * q - 2)
  else
    let g := 24 / (PI * h ^ 5) * (1 - q) ^ 2 in
    if q >? 1e-8 then - g else 0.

(** [compute_kernel_gradient(dx, dy, dz, r, h)].  It is called under
    [dist_sq < h * h], where [h] is not zero.  The local [h_inv = 1.0 / h]
    of the source is never used and is left out. *)
Definition compute_kernel_gradient (dx dy dz r h : R) : vec3 :=
  let q := r / h in
  let g := grad_mag h q in
  if r >? 1e-8 then V3 (dx / r * g) (dy / r * g) (dz / r * g)
  else V3 0 0 0.

(** One iteration of the inner loop of the force pass: what neighbour [j]
    does to the pair [(pressure_force, viscosity_force)] of particle [i]. *)
Definition force_body (positions velocities : array vec3)
    (densities pressures : array R) (h viscosity : R) (i j : nat)
    (acc : vec3 * vec3) : outcome (vec3 * vec3) :=
  let '(pressure_force, viscosity_force) := acc in
  if Nat.eqb i j then Returned acc else
  let dx := vx (positions i) - vx (positions j) in
  let dy := vy (positions i) - vy (positions j) in
  let dz := vz (positions i) - vz (positions j) in
  let d := dx * dx + dy * dy + dz * dz in
  if d <? h * h then
    let r := sqrt d in
    if r >? 1e-8 then
      let grad_kernel := compute_kernel_gradient dx dy dz r h in
      pressure_term <- ndiv (pressures i + pressures j) (2 * densities j) ;;
      let pressure_force :=
        vsub pressure_force (vscale grad_kernel pressure_term) in
      let vel_diff := vsub (velocities j) (velocities i) in
      let viscosity_force :=
        vadd viscosity_force
             (vmul (smul viscosity vel_diff)
                   (vdiv grad_kernel (densities j))) in
      Returned (pressure_force, viscosity_force)
    else Returned acc
  else Returned acc.

(** The inner loop of the force pass for particle [i]: the accumulated
    [(pressure_force, viscosity_force)]. *)
Definition pair_forces (positions velocities : array vec3)
    (densities pressures : array R) (h viscosity : R)
    (particle_count i : nat) : outcome (vec3 * vec3) :=
  for_rangeM particle_count
    (force_body positions velocities densities pressures h viscosity i)
    (vzero, vzero).

Definition calculate_forces (positions velocities : array vec3)
    (densities pressures : array R) (forces : array vec3)
    (smoothing_radius viscosity kernel_constant : R) (gravity : list R)
    (particle_count : nat) : outcome (array vec3) :=
  let h := smoothing_radius in
  for_rangeM particle_count
    (fun i forces =>
       g1 <- read gravity 1 ;;
       let forces := upd forces i (set (forces i) A1 (vy (forces i) + g1)) in
       ' (pressure_force, viscosity_force) <-
         pair_forces positions velocities densities pressures h viscosity
           particle_count i ;;
       let forces := upd forces i (vadd (forces i) pressure_force) in
       let forces := upd forces i (vadd (forces i) viscosity_force) in
       Returned forces)
    forces.

(** ** Integration and boundary handling (sph.py, lines 185-205) *)

(** The boundary test of one column [j] of particle [i]. *)
Definition boundary_body (boundary_min boundary_max : vec3)
    (boundary_damping : R) (i : nat) (j : axis)
    (st : array vec3 * array vec3) : array vec3 * array vec3 :=
  let '(positions, velocities) := st in
  if get (positions i) j <? get boundary_min j then
    (upd positions i (set (positions i) j (get boundary_min j)),
     upd velocities i
         (set (velocities i) j (get (velocities i) j * boundary_damping)))
  else if get (positions i) j >? get boundary_max j then
    (upd positions i (set (positions i) j (get boundary_max j)),
     upd velocities i
         (set (velocities i) j (get (velocities i) j * boundary_damping)))
  else (positions, velocities).

Definition integrate_motion (positions velocities forces : array vec3)
    (dt : R) (boundary_min boundary_max : vec3) (boundary_damping : R)
    (particle_count : nat) : array vec3 * array vec3 :=
  for_range particle_count
    (fun i '(positions, velocities) =>
       let acceleration := forces i in
       let velocities :=
         upd velocities i (vadd (velocities i) (vscale acceleration dt)) in
       let positions :=
         upd positions i (vadd (positions i) (vscale (velocities i) dt)) in
       for_axes (boundary_body boundary_min boundary_max boundary_damping i)
                (positions, velocities))
    (positions, velocities).

(** ** The step *)

(** [SPHSystem.update(dt)] (sph.py, lines 44-84): the three passes in
    order, then [self.forces.fill(0.0)]. *)
Definition update (s : SPHSystem) (dt : R) : outcome SPHSystem :=
  ' (densities', pressures') <-
    calculate_densities_and_pressures (positions s) (densities s) (pressures s)
      (smoothing_radius s) (rest_density s) (pressure_constant s)
      (particle_count s) ;;
  forces' <-
    calculate_forces (positions s) (velocities s) densities' pressures'
      (forces s) (smoothing_radius s) (viscosity s) (kernel_constant s)
      (gravity s) (particle_count s) ;;
  let '(positions', velocities') :=
    integrate_motion (positions s) (velocities s) forces' dt
      (boundary_min s) (boundary_max s) (boundary_damping s)
      (particle_count s) in
  Returned {|
    particle_count := particle_count s;
    smoothing_radius := smoothing_radius s;
    rest_density := rest_density s;
    viscosity := viscosity s;
    pressure_stiffness := pressure_stiffness s;
    gravity := gravity s;
    positions := positions';
    velocities := velocities';
    densities := densities';
    pressures := pressures';
    forces := fun _ => vzero;
    boundary_min := boundary_min s;
    boundary_max := boundary_max s;
    boundary_damping := boundary_damping s;
    kernel_constant := kernel_constant s;
    pressure_constant := pressure_constant s
  |}.

(** The states of a simulation: a constructed system, then any number of
    steps.  The draw of the initial positions lies in the sampled cube. *)
Definition in_cube (p : vec3) : Prop :=
  forall a, -1 <= get p a <= 1.

Inductive reachable : SPHSystem -> Prop :=
| reach_init n h rho mu k g sample capacity s :
    (forall i, in_cube (sample i)) ->
    __init__ n h rho mu k g sample capacity = Returned s ->
    reachable s
| reach_step s dt s' :
    reachable s ->
    update s dt = Returned s' ->
    reachable s'.

(** ** Invariants of the passes, used in the proofs below *)

(** Slot [i] of the density and pressure arrays holds what the pass
    computes for particle [i]. *)
Definition density_slot (pos : array vec3) (h rest pc : R) (count : nat)
    (d p : array R) (i : nat) : Prop :=
  d i = Rmax (density_sum pos h count i) (rest * 0.1) /\
  p i = pc * (d i / rest - 1) /\ rest <> 0.

(** After [m] iterations of the density pass started on [(d0, p0)]. *)
Definition density_inv (pos : array vec3) (d0 p0 : array R) (h rest pc : R)
    (count m : nat) (st : array R * array R) : Prop :=
  (forall i, (i < m)%nat -> density_slot pos h rest pc count (fst st) (snd st) i) /\
  (forall i, (m <= i)%nat -> fst st i = d0 i /\ snd st i = p0 i).

(** Slot [i] of the force array after the force pass started on [f0]:
    the incoming value with gravity's second component added to its
    second component, then the two accumulated sums. *)
Definition force_slot (pos vel : array vec3) (d p : array R) (f0 : array vec3)
    (h mu : R) (gravity : list R) (count : nat) (f : array vec3) (i : nat)
  : Prop :=
  exists g1 pf vf,
    nth_error gravity 1 = Some g1 /\
    pair_forces pos vel d p h mu count i = Returned (pf, vf) /\
    f i = vadd (vadd (set (f0 i) A1 (vy (f0 i) + g1)) pf) vf.

Definition force_inv (pos vel : array vec3) (d p : array R) (f0 : array vec3)
    (h mu : R) (gravity : list R) (count m : nat) (f : array vec3) : Prop :=
  (forall i, (i < m)%nat -> force_slot pos vel d p f0 h mu gravity count f i) /\
  (forall i, (m <= i)%nat -> f i = f0 i).

(** ** The integration step in the words of the specification *)

(** Boundary handling of one coordinate: a position below [lo] is set to
    [lo] and the velocity multiplied by the damping; symmetrically above
    [hi]; otherwise both are kept. *)
Definition clamp_axis (p v lo hi damping : R) : R * R :=
  if p <? lo then (lo, v * damping)
  else if p >? hi then (hi, v * damping)
  else (p, v).

(** Semi-implicit Euler on one coordinate, then the boundary handling:
    the velocity takes [force * dt], the position takes the new velocity
    times [dt]. *)
Definition euler_axis (p v f dt lo hi damping : R) : R * R :=
  let v1 := v + f * dt in
  let p1 := p + v1 * dt in
  clamp_axis p1 v1 lo hi damping.

(** After [m] iterations of [integrate_motion] started on [(P0, V0)]. *)
Definition integrate_inv (P0 V0 F : array vec3) (dt : R) (lo hi : vec3)
    (damping : R) (m : nat) (st : array vec3 * array vec3) : Prop :=
  (forall i a, (i < m)%nat ->
     (get (fst st i) a, get (snd st i) a)
     = euler_axis (get (P0 i) a) (get (V0 i) a) (get (F i) a) dt
                  (get lo a) (get hi a) damping) /\
  (forall i, (m <= i)%nat -> fst st i = P0 i /\ snd st i = V0 i).

(** ** Auxiliary notions for the statements *)

(** Two systems with the same configuration: everything but the five
    particle arrays. *)
Definition same_config (s s' : SPHSystem) : Prop :=
  particle_count s' = particle_count s /\
  smoothing_radius s' = smoothing_radius s /\
  rest_density s' = rest_density s /\
  viscosity s' = viscosity s /\
  pressure_stiffness s' = pressure_stiffness s /\
  gravity s' = gravity s /\
  boundary_min s' = boundary_min s /\
  boundary_max s' = boundary_max s /\
  boundary_damping s' = boundary_damping s /\
  kernel_constant s' = kernel_constant s /\
  pressure_constant s' = pressure_constant s.

(** A position inside the boundary box of a system. *)
Definition in_box (s : SPHSystem) (p : vec3) : Prop :=
  forall a, get (boundary_min s) a <= get p a <= get (boundary_max s) a.

(** The result of a call that returned. *)
Definition returned_or {A : Type} (o : outcome A) (d : A) : A :=
  match o with
  | Returned a => a
  | _ => d
  end.

(** A one-particle system with the default parameters, its particle at
    the origin: [SPHSystem(particle_count=1)] on the draw [(0, 0, 0)]. *)
Definition origin_sample : array vec3 := fun _ => vzero.

Definition demo : SPHSystem := {|
  particle_count := 1;
  smoothing_radius := 0.1;
  rest_density := 1000;
  viscosity := 0.1;
  pressure_stiffness := 3;
  gravity := default_gravity;
  positions := origin_sample;
  velocities := fun _ => vzero;
  densities := fun _ => 1000;
  pressures := fun _ => 0;
  forces := fun _ => vzero;
  boundary_min := V3 (-3) (-1) (-3);
  boundary_max := V3 3 5 3;
  boundary_damping := -0.5;
  kernel_constant := 8 / (PI * 0.1 ^ 4);
  pressure_constant := 3 * 1000
|}.

(** The system [demo] after one call [update(dt)]. *)
Definition demo_step (dt : R) : SPHSystem := returned_or (update demo dt) demo.

(** ** The viscosity term in the words of the specification *)

(** The velocity difference, scaled by the viscosity and by the scalar
    gradient magnitude divided by the neighbour's density. *)
Definition viscosity_term_spec (mu : R) (v_i v_j : vec3) (gmag dens_j : R)
  : vec3 :=
  vscale (smul mu (vsub v_j v_i)) (gmag / dens_j).

(** ** Small concrete inputs *)

(** Two particles one unit apart on the first axis, the second one moving
    along the second axis. *)
Definition pair_pos : array vec3 :=
  fun k => if Nat.eqb k 0 then V3 1 0 0 else vzero.

Definition pair_vel : array vec3 :=
  fun k => if Nat.eqb k 1 then V3 0 1 0 else vzero.

(** The second particle moving along the first axis, towards the first
    particle of [pair_pos]. *)
Definition closing_vel : array vec3 :=
  fun k => if Nat.eqb k 1 then V3 1 0 0 else vzero.

(** The two particles of [pair_pos] one unit further along the first
    axis, and the velocities of [pair_vel] with one unit more on the third
    axis. *)
Definition moved_pos : array vec3 :=
  fun k => if Nat.eqb k 0 then V3 2 0 0 else V3 1 0 0.

Definition moved_vel : array vec3 :=
  fun k => if Nat.eqb k 1 then V3 0 1 1 else V3 0 0 1.

(** Three particles on the first axis, at [0], [1] and [2]. *)
Definition line_pos : array vec3 :=
  fun k => if Nat.eqb k 1 then V3 1 0 0
           else if Nat.eqb k 2 then V3 2 0 0 else vzero.

(** Two particles at [(0, 0, 0)] and [(0.05, 0, 0)]: half a smoothing
    radius apart for [h = 0.1]. *)
Definition near_pos : array vec3 :=
  fun k => if Nat.eqb k 1 then V3 0.05 0 0 else vzero.

(** The force pass on one particle at the origin with an empty force
    buffer and [gravity = [1, 2, 3]]. *)
Definition slanted_forces : array vec3 :=
  returned_or
    (calculate_forces origin_sample (fun _ => vzero) (fun _ => 1000)
       (fun _ => 0) (fun _ => vzero) 0.1 0.1 (8 / (PI * 0.1 ^ 4)) [1; 2; 3] 1)
    (fun _ => vzero).

(** ** Further notions for the statements about the passes *)

(** Several calls [update(dt)] in a row, one per element of [dts]. *)
Fixpoint steps (s : SPHSystem) (dts : list R) : outcome SPHSystem :=
  match dts with
  | [] => Returned s
  | dt :: dts' => s' <- update s dt ;; steps s' dts'
  end.

(** The number of indices below [m] other than [i]. *)
Definition others (m i : nat) : nat :=
  if (i <? m)%nat then (m - 1)%nat else m.

(** Particle [j] is beyond the cutoff of particle [i], or within the
    near-zero guard of the force pass. *)
Definition no_interaction (pos : array vec3) (h : R) (i j : nat) : Prop :=
  h * h <= dist_sq (pos i) (pos j) \/ sqrt (dist_sq (pos i) (pos j)) <= 1e-8.

Definition dot (u v : vec3) : R := vx u * vx v + vy u * vy v + vz u * vz v.

(** The density pass on the two particles of [near_pos] with the default
    parameters, and its two result arrays. *)
Definition near_pass : outcome (array R * array R) :=
  calculate_densities_and_pressures near_pos (fun _ => 1000) (fun _ => 0)
    0.1 1000 3000 2.

Definition near_densities : array R :=
  fst (returned_or near_pass (fun _ => 0, fun _ => 0)).

Definition near_pressures : array R :=
  snd (returned_or near_pass (fun _ => 0, fun _ => 0)).

(** The inner loop of the force pass for particle [i] of that pair, all
    velocities zero. *)
Definition near_pair_forces (i : nat) : vec3 * vec3 :=
  returned_or
    (pair_forces near_pos (fun _ => vzero) near_densities near_pressures
       0.1 0.1 2 i)
    (vzero, vzero).

(** The system [s] with other contents in its density and pressure
    arrays. *)
Definition with_densities (s : SPHSystem) (d p : array R) : SPHSystem :=
  mkSPH (particle_count s) (smoothing_radius s) (rest_density s) (viscosity s)
    (pressure_stiffness s) (gravity s) (positions s) (velocities s) d p
    (forces s) (boundary_min s) (boundary_max s) (boundary_damping s)
    (kernel_constant s) (pressure_constant s).

(** * The step on float32 arrays

    The definitions above read every float as a real number.  That is
    faithful as long as every result stays in the range of its format,
    but it cannot show an infinity or a NaN in the particle arrays.  This
    module models the same kernels and the same step with [positions] and
    [velocities], the two arrays that [integrate_motion] writes, holding
    floats proper: a finite value, an infinity or NaN.  Rounding inside
    the range stays outside the model: a finite float is the real number
    it stands for.

    The kernels are compiled by numba, which evaluates an expression that
    mixes elements of a float32 array with the float64 scalars [dt] and
    [boundary_damping] in float64, and rounds to float32 when the result
    is stored back.  Accordingly [add], [sub] and [mul] are exact on
    finite operands and follow IEEE 754 on the others, and [store] rounds
    a result to float32, where a magnitude beyond the range becomes an
    infinity.  (In [integrate_motion] a float64 intermediate that
    overflows gives the same infinity once stored.)

    In the two pair loops an infinity or a NaN is followed through the
    distance test only, where it makes the test fail; the arithmetic
    behind the test is exact, a read of a value that is not finite has no
    modelled result there, and neither has a result beyond the range of
    the float32 slot it is stored in. *)

Module Float32.

Inductive float : Type :=
| Fin (x : R)
| Inf (negative : bool)
| NaN.

Definition opp (a : float) : float :=
  match a with
  | Fin x => Fin (- x)
  | Inf s => Inf (negb s)
  | NaN => NaN
  end.

Definition add (a b : float) : float :=
  match a, b with
  | NaN, _ | _, NaN => NaN
  | Inf s, Inf t => if Bool.eqb s t then Inf s else NaN
  | Inf s, Fin _ => Inf s
  | Fin _, Inf t => Inf t
  | Fin x, Fin y => Fin (x + y)
  end.

Definition sub (a b : float) : float := add a (opp b).

Definition mul (a b : float) : float :=
  match a, b with
  | NaN, _ | _, NaN => NaN
  | Inf s, Inf t => Inf (xorb s t)
  | Inf s, Fin x | Fin x, Inf s => if x =? 0 then NaN else Inf (xorb s (x <? 0))
  | Fin x, Fin y => Fin (x * y)
  end.

(** [a < b]: false as soon as one side is NaN. *)
Definition ltb (a b : float) : bool :=
  match a, b with
  | NaN, _ | _, NaN => false
  | Fin x, Fin y => x <? y
  | Fin _, Inf t => negb t
  | Inf s, Fin _ => s
  | Inf s, Inf t => s && negb t
  end.

Definition gtb (a b : float) : bool := ltb b a.

(** The least magnitude that rounds to an infinity in float32: half a unit
    in the last place above the largest finite value. *)
Definition overflow_threshold : R := 2 ^ 128 - 2 ^ 103.

(** Rounding of a result to float32, as done by a store into a float32
    slot. *)
Definition store (a : float) : float :=
  match a with
  | Fin x =>
      if overflow_threshold <=? x then Inf false
      else if x <=? - overflow_threshold then Inf true
      else Fin x
  | _ => a
  end.

(** A read that is followed in exact arithmetic. *)
Definition finite (a : float) : outcome R :=
  match a with
  | Fin x => Returned x
  | _ => Unspecified
  end.

(** A result of exact arithmetic stored in a float32 slot. *)
Definition float32 (x : R) : outcome R :=
  if fits float32_max x then Returned x else Unspecified.

(** Rows of an [(n, 3)] float32 array. *)
Record fvec3 : Type := FV3 { fx : float; fy : float; fz : float }.

Definition fget (v : fvec3) (a : axis) : float :=
  match a with A0 => fx v | A1 => fy v | A2 => fz v end.

Definition fset (v : fvec3) (a : axis) (r : float) : fvec3 :=
  match a with
  | A0 => FV3 r (fy v) (fz v)
  | A1 => FV3 (fx v) r (fz v)
  | A2 => FV3 (fx v) (fy v) r
  end.

Definition fin3 (v : vec3) : fvec3 := FV3 (Fin (vx v)) (Fin (vy v)) (Fin (vz v)).

Definition add3 (u v : fvec3) : fvec3 :=
  FV3 (add (fx u) (fx v)) (add (fy u) (fy v)) (add (fz u) (fz v)).

Definition scale3 (u : fvec3) (k : float) : fvec3 :=
  FV3 (mul (fx u) k) (mul (fy u) k) (mul (fz u) k).

Definition store3 (v : fvec3) : fvec3 :=
  FV3 (store (fx v)) (store (fy v)) (store (fz v)).

Definition finite3 (v : fvec3) : outcome vec3 :=
  x <- finite (fx v) ;;
  y <- finite (fy v) ;;
  z <- finite (fz v) ;;
  Returned (V3 x y z).

Definition float32_3 (v : vec3) : outcome vec3 :=
  x <- float32 (vx v) ;;
  y <- float32 (vy v) ;;
  z <- float32 (vz v) ;;
  Returned (V3 x y z).

(** ** The density and pressure pass *)

(** [dx*dx + dy*dy + dz*dz] on float32 values. *)
Definition dist_sq (p_i p_j : fvec3) : float :=
  let dx := store (sub (fx p_i) (fx p_j)) in
  let dy := store (sub (fy p_i) (fy p_j)) in
  let dz := store (sub (fz p_i) (fz p_j)) in
  store (add (store (add (store (mul dx dx)) (store (mul dy dy))))
             (store (mul dz dz))).

Definition density_body (positions : array fvec3) (h : R) (i j : nat)
    (density : R) : outcome R :=
  if Nat.eqb i j then Returned density else
  let d := dist_sq (positions i) (positions j) in
  if ltb d (Fin (h * h)) then
    dist <- finite d ;;
    let r := sqrt dist in
    let q := r / h in
    if q <=? 1 then
      if q <=? 0.5 then Returned (density + spline_inner h q)
      else Returned (density + spline_outer h q)
    else Returned density
  else Returned density.

Definition calculate_densities_and_pressures (positions : array fvec3)
    (densities pressures : array R)
    (smoothing_radius rest_density pressure_constant : R)
    (particle_count : nat) : outcome (array R * array R) :=
  let h := smoothing_radius in
  for_rangeM particle_count
    (fun i '(densities, pressures) =>
       density <- for_rangeM particle_count (density_body positions h i) 0 ;;
       d_i <- float32 (Rmax density (rest_density * 0.1)) ;;
       let densities := upd densities i d_i in
       ratio <- ndiv (densities i) rest_density ;;
       p_i <- float32 (pressure_constant * (ratio - 1)) ;;
       Returned (densities, upd pressures i p_i))
    (densities, pressures).

(** ** The force pass *)

Definition force_body (positions velocities : array fvec3)
    (densities pressures : array R) (h viscosity : R) (i j : nat)
    (acc : vec3 * vec3) : outcome (vec3 * vec3) :=
  let '(pressure_force, viscosity_force) := acc in
  if Nat.eqb i j then Returned acc else
  let d := dist_sq (positions i) (positions j) in
  if ltb d (Fin (h * h)) then
    dist <- finite d ;;
    let r := sqrt dist in
    if r >? 1e-8 then
      p_i <- finite3 (positions i) ;;
      p_j <- finite3 (positions j) ;;
      let dx := vx p_i - vx p_j in
      let dy := vy p_i - vy p_j in
      let dz := vz p_i - vz p_j in
      grad_kernel <- float32_3 (compute_kernel_gradient dx dy dz r h) ;;
      pressure_sum <- float32 (pressures i + pressures j) ;;
      pressure_term <- ndiv pressure_sum (2 * densities j) ;;
      pressure_force <-
        float32_3 (vsub pressure_force (vscale grad_kernel pressure_term)) ;;
      v_j <- finite3 (velocities j) ;;
      v_i <- finite3 (velocities i) ;;
      vel_diff <- float32_3 (vsub v_j v_i) ;;
      scaled <- float32_3 (vdiv grad_kernel (densities j)) ;;
      viscosity_force <-
        float32_3 (vadd viscosity_force
                        (vmul (smul viscosity vel_diff) scaled)) ;;
      Returned (pressure_force, viscosity_force)
    else Returned acc
  else Returned acc.

Definition pair_forces (positions velocities : array fvec3)
    (densities pressures : array R) (h viscosity : R)
    (particle_count i : nat) : outcome (vec3 * vec3) :=
  for_rangeM particle_count
    (force_body positions velocities densities pressures h viscosity i)
    (vzero, vzero).

Definition calculate_forces (positions velocities : array fvec3)
    (densities pressures : array R) (forces : array vec3)
    (smoothing_radius viscosity kernel_constant : R) (gravity : list R)
    (particle_count : nat) : outcome (array vec3) :=
  let h := smoothing_radius in
  for_rangeM particle_count
    (fun i forces =>
       g1 <- read gravity 1 ;;
       f_y <- float32 (vy (forces i) + g1) ;;
       let forces := upd forces i (set (forces i) A1 f_y) in
       ' (pressure_force, viscosity_force) <-
         pair_forces positions velocities densities pressures h viscosity
           particle_count i ;;
       f <- float32_3 (vadd (forces i) pressure_force) ;;
       let forces := upd forces i f in
       f <- float32_3 (vadd (forces i) viscosity_force) ;;
       let forces := upd forces i f in
       Returned forces)
    forces.

(** ** Integration and boundary handling *)

Definition boundary_body (boundary_min boundary_max : fvec3)
    (boundary_damping : float) (i : nat) (j : axis)
    (st : array fvec3 * array fvec3) : array fvec3 * array fvec3 :=
  let '(positions, velocities) := st in
  if ltb (fget (positions i) j) (fget boundary_min j) then
    (upd positions i (fset (positions i) j (fget boundary_min j)),
     upd velocities i
         (fset (velocities i) j
               (store (mul (fget (velocities i) j) boundary_damping))))
  else if gtb (fget (positions i) j) (fget boundary_max j) then
    (upd positions i (fset (positions i) j (fget boundary_max j)),
     upd velocities i
         (fset (velocities i) j
               (store (mul (fget (velocities i) j) boundary_damping))))
  else (positions, velocities).

Definition integrate_motion (positions velocities forces : array fvec3)
    (dt : float) (boundary_min boundary_max : fvec3) (boundary_damping : float)
    (particle_count : nat) : array fvec3 * array fvec3 :=
  for_range particle_count
    (fun i '(positions, velocities) =>
       let acceleration := forces i in
       let velocities :=
         upd velocities i
             (store3 (add3 (velocities i) (scale3 acceleration dt))) in
       let positions :=
         upd positions i
             (store3 (add3 (positions i) (scale3 (velocities i) dt))) in
       for_axes (boundary_body boundary_min boundary_max boundary_damping i)
                (positions, velocities))
    (positions, velocities).

(** ** The system and the step *)

Record SPHSystem : Type := mkSPH32 {
  particle_count : nat;
  smoothing_radius : R;
  rest_density : R;
  viscosity : R;
  pressure_stiffness : R;
  gravity : list R;
  positions : array fvec3;
  velocities : array fvec3;
  densities : array R;
  pressures : array R;
  forces : array vec3;
  boundary_min : vec3;
  boundary_max : vec3;
  boundary_damping : R;
  kernel_constant : R;
  pressure_constant : R
}.

(** [SPHSystem.update(dt)], for any float [dt]. *)
Definition update (s : SPHSystem) (dt : float) : outcome SPHSystem :=
  ' (densities', pressures') <-
    calculate_densities_and_pressures (positions s) (densities s) (pressures s)
      (smoothing_radius s) (rest_density s) (pressure_constant s)
      (particle_count s) ;;
  forces' <-
    calculate_forces (positions s) (velocities s) densities' pressures'
      (forces s) (smoothing_radius s) (viscosity s) (kernel_constant s)
      (gravity s) (particle_count s) ;;
  let '(positions', velocities') :=
    integrate_motion (positions s) (velocities s) (fun i => fin3 (forces' i))
      dt (fin3 (boundary_min s)) (fin3 (boundary_max s))
      (Fin (boundary_damping s)) (particle_count s) in
  Returned {|
    particle_count := particle_count s;
    smoothing_radius := smoothing_radius s;
    rest_density := rest_density s;
    viscosity := viscosity s;
    pressure_stiffness := pressure_stiffness s;
    gravity := gravity s;
    positions := positions';
    velocities := velocities';
    densities := densities';
    pressures := pressures';
    forces := fun _ => vzero;
    boundary_min := boundary_min s;
    boundary_max := boundary_max s;
    boundary_damping := boundary_damping s;
    kernel_constant := kernel_constant s;
    pressure_constant := pressure_constant s
  |}.

(** The system of the exact model with its positions and velocities as
    float32 values ([astype(np.float32)] on the draw, line 29). *)
Definition of_exact s : SPHSystem :=
  match s with
  | mkSPH n h rho mu k g P V D Pr F bmin bmax damping kc pc =>
      mkSPH32 n h rho mu k g (fun i => store3 (fin3 (P i)))
        (fun i => store3 (fin3 (V i))) D Pr F bmin bmax damping kc pc
  end.

(** [SPHSystem.__init__]: the constructor above, on float32 arrays. *)
Definition __init__ (particle_count : Z)
    (smoothing_radius rest_density viscosity pressure_stiffness : R)
    (gravity : gravity_arg) (sample : array vec3) (capacity : Z)
  : outcome SPHSystem :=
  s <- __init__ particle_count smoothing_radius rest_density viscosity
         pressure_stiffness gravity sample capacity ;;
  Returned (of_exact s).

(** The states of a simulation: a constructed system, then any number of
    steps, each with any float for [dt]. *)
Inductive reachable : SPHSystem -> Prop :=
| reach_init n h rho mu k g sample capacity s :
    (forall i, in_cube (sample i)) ->
    __init__ n h rho mu k g sample capacity = Returned s ->
    reachable s
| reach_step s dt s' :
    reachable s ->
    update s dt = Returned s' ->
    reachable s'.

(** ** The integration step in the words of the specification *)

Definition clamp_axis (p v lo hi damping : float) : float * float :=
  if ltb p lo then (lo, store (mul v damping))
  else if gtb p hi then (hi, store (mul v damping))
  else (p, v).

Definition euler_axis (p v f dt lo hi damping : float) : float * float :=
  let v1 := store (add v (mul f dt)) in
  let p1 := store (add p (mul v1 dt)) in
  clamp_axis p1 v1 lo hi damping.

(** After [m] iterations of [integrate_motion] started on [(P0, V0)]. *)
Definition integrate_inv (P0 V0 F : array fvec3) (dt : float) (lo hi : fvec3)
    (damping : float) (m : nat) (st : array fvec3 * array fvec3) : Prop :=
  (forall i a, (i < m)%nat ->
     (fget (fst st i) a, fget (snd st i) a)
     = euler_axis (fget (P0 i) a) (fget (V0 i) a) (fget (F i) a) dt
                  (fget lo a) (fget hi a) damping) /\
  (forall i, (m <= i)%nat -> fst st i = P0 i /\ snd st i = V0 i).

(** ** Auxiliary notions for the statements *)



(** The one-particle system [demo], and the systems with one particle and
    the same configuration. *)
Definition demo : SPHSystem := of_exact demo.

Definition single (s : SPHSystem) : Prop :=
  particle_count s = 1%nat /\
  smoothing_radius s = 0.1 /\
  rest_density s = 1000 /\
  viscosity s = 0.1 /\
  gravity s = default_gravity /\
  (forall i, forces s i = vzero) /\
  boundary_min s = V3 (-3) (-1) (-3) /\
  boundary_max s = V3 3 5 3 /\
  boundary_damping s = -0.5 /\
  pressure_constant s = 3 * 1000.

Definition demo_step (dt : float) : SPHSystem :=
  returned_or (update demo dt) demo.

Definition demo_step2 (dt dt' : float) : SPHSystem :=
  returned_or (update (demo_step dt) dt') (demo_step dt).

End Float32.

(** * Components and fracture (engine/core/component.py,
      engine/physics/fracture.py) *)

(** ** Components *)

(** [value or default] for an argument that is [None], a Python list or a
    numpy array, followed by the conversion [np.array(..., dtype=float32)]:
    the expression the constructors of [Transform] and of [SPHSystem]
    share. *)
Definition value_or (g : gravity_arg) (dflt : list R) : outcome (list R) :=
  b <- truth_value g ;;
  Returned (if b then
              match g with
              | GNone => dflt
              | GList l => l
              | GArray a => a
              end
            else dflt).

Record Transform : Type := mkTransform {
  position : list R;
  rotation : list R;
  scale : list R
}.

(** [Transform.__init__(position=None, rotation=None, scale=None)]
    (component.py, lines 20-23). *)
Definition Transform_init (position rotation scale : gravity_arg)
  : outcome Transform :=
  p <- value_or position [0; 0; 0] ;;
  r <- value_or rotation [0; 0; 0] ;;
  s <- value_or scale [1; 1; 1] ;;
  Returned (mkTransform p r s).

Record PhysicsBody : Type := mkPhysicsBody {
  mass : R;
  is_static : bool;
  velocity : vec3;
  acceleration : vec3;
  body_forces : vec3
}.

(** [PhysicsBody.__init__(mass, is_static)] (component.py, lines 60-65). *)
Definition PhysicsBody_init (mass : R) (is_static : bool) : PhysicsBody :=
  mkPhysicsBody mass is_static vzero vzero vzero.

(** The assignment [physics_body.velocity = v]. *)
Definition set_velocity (b : PhysicsBody) (v : vec3) : PhysicsBody :=
  mkPhysicsBody (mass b) (is_static b) v (acceleration b) (body_forces b).

(** ** Fracture *)

(** A numpy array of shape [(3,)] passed as an argument. *)
Definition as_array (v : vec3) : gravity_arg := GArray [vx v; vy v; vz v].

(** The dictionaries built by [_generate_voronoi_fracture] (keys
    ['position'], ['size'], ['volume']) and by
    [_calculate_fracture_pieces] (keys ['transform'], ['physics_body'],
    ['size']). *)
Record piece : Type := mkPiece {
  piece_position : vec3;
  piece_size : vec3;
  piece_volume : R
}.

Record fragment : Type := mkFragment {
  fragment_transform : Transform;
  fragment_physics_body : PhysicsBody;
  fragment_size : vec3
}.

(** The condition under which a piece breaks off (fracture.py, line 101). *)
Definition breaks_off (volume random_factor : R) : bool :=
  (volume <? 0.1) || ((volume <? 0.5) && (random_factor <? 1)).

(** The loop of [_calculate_fracture_pieces] from piece number [k] on.
    [random_factor k] is the draw [np.random.uniform(0.5, 1.5)] made for
    piece [k], [kick k] the draw [np.random.uniform(-2, 2, 3)] made for it
    when it breaks off. *)
Fixpoint calculate_pieces_from (k : nat) (pieces : list piece)
    (material_strength : R) (random_factor : nat -> R) (kick : nat -> vec3)
    (fractured_pieces : list fragment) : outcome (list fragment) :=
  match pieces with
  | [] => Returned fractured_pieces
  | piece :: pieces' =>
      let volume := piece_volume piece in
      let stress_threshold := material_strength * volume in
      if breaks_off volume (random_factor k) then
        let physics_body := PhysicsBody_init (volume * 1000) false in
        let physics_body := set_velocity physics_body (kick k) in
        transform <-
          Transform_init (as_array (piece_position piece)) GNone GNone ;;
        calculate_pieces_from (S k) pieces' material_strength random_factor
          kick
          (fractured_pieces
           ++ [mkFragment transform physics_body (piece_size piece)])
      else
        calculate_pieces_from (S k) pieces' material_strength random_factor
          kick fractured_pieces
  end.

(** [FractureSystem._calculate_fracture_pieces] (fracture.py, lines
    88-117). *)
Definition _calculate_fracture_pieces (pieces : list piece)
    (material_strength : R) (random_factor : nat -> R) (kick : nat -> vec3)
  : outcome (list fragment) :=
  calculate_pieces_from 0 pieces material_strength random_factor kick [].

(** What [scipy.spatial.Voronoi] hands back: the regions, as lists of
    indices into the vertices with [-1] for a vertex at infinity, and the
    vertices in the plane. *)
Record voronoi : Type := mkVoronoi {
  regions : list (list Z);
  vertices : list (R * R)
}.

(** [vor.vertices[region_idx]]: the rows picked by a list of indices.  An
    index that is not below the number of vertices, or negative, has no
    row assigned here (a region with [-1] is skipped before, and scipy
    gives no other such index). *)
Fixpoint take_rows (vertices : list (R * R)) (region_idx : list Z)
  : outcome (list (R * R)) :=
  match region_idx with
  | [] => Returned []
  | k :: region_idx' =>
      if (k <? 0)%Z then Unspecified else
      match nth_error vertices (Z.to_nat k) with
      | Some v => rows <- take_rows vertices region_idx' ;; Returned (v :: rows)
      | None => Unspecified
      end
  end.

(** [a.min()] and [a.max()] of a column that starts with [x]. *)
Definition column_min (x : R) (l : list R) : R := fold_left Rmin l x.
Definition column_max (x : R) (l : list R) : R := fold_left Rmax l x.

(** The body of the loop over [vor.regions]: the bounding box of one
    region, extruded over the height of the object. *)
Definition region_piece (min_corner max_corner : vec3)
    (vertices : list (R * R)) (region_idx : list Z) (pieces : list piece)
  : outcome (list piece) :=
  if (Nat.eqb (List.length region_idx) 0 || existsb (Z.eqb (-1)) region_idx)%bool
  then Returned pieces
  else
    rows <- take_rows vertices region_idx ;;
    match rows with
    | [] => Returned pieces
    | (x, z) :: rows' =>
        let min_x := column_min x (map fst rows') in
        let min_z := column_min z (map snd rows') in
        let max_x := column_max x (map fst rows') in
        let max_z := column_max z (map snd rows') in
        let piece_min := V3 min_x (vy min_corner) min_z in
        let piece_max := V3 max_x (vy max_corner) max_z in
        let piece_center := vdiv (vadd piece_min piece_max) 2 in
        let piece_size := vsub piece_max piece_min in
        Returned
          (pieces
           ++ [mkPiece piece_center piece_size
                 (vx piece_size * vy piece_size * vz piece_size)])
    end.

Fixpoint region_pieces (min_corner max_corner : vec3)
    (vertices : list (R * R)) (regions : list (list Z)) (pieces : list piece)
  : outcome (list piece) :=
  match regions with
  | [] => Returned pieces
  | region_idx :: regions' =>
      pieces' <- region_piece min_corner max_corner vertices region_idx pieces ;;
      region_pieces min_corner max_corner vertices regions' pieces'
  end.

(** [FractureSystem._generate_voronoi_fracture] (fracture.py, lines
    40-86).  [jitter k] is the [k]-th draw
    [np.random.uniform(-0.3, 0.3, 3)]; [Voronoi] stands for the scipy
    constructor, which may fail. *)
Definition _generate_voronoi_fracture
    (Voronoi : list (R * R) -> outcome voronoi) (jitter : nat -> vec3)
    (position size : vec3) (fracture_points : list vec3)
  : outcome (list piece) :=
  let min_corner := vsub position (vdiv size 2) in
  let max_corner := vadd position (vdiv size 2) in
  let all_points :=
    fracture_points
    ++ map (fun k => vadd position (vmul (jitter k) size)) (seq 0 5) in
  let points_2d := map (fun p => (vx p, vz p)) all_points in
  vor <- Voronoi points_2d ;;
  region_pieces min_corner max_corner (vertices vor) (regions vor) [].

(** The random draws consumed by one fracture. *)
Record draws : Type := mkDraws {
  offset : nat -> vec3;
  jitter : nat -> vec3;
  random_factor : nat -> R;
  kick : nat -> vec3
}.

(** [FractureSystem.fracture_object] (fracture.py, lines 17-38). *)
Definition fracture_object (Voronoi : list (R * R) -> outcome voronoi)
    (dr : draws) (position size : vec3) (fracture_points : list vec3)
    (material_strength : R) : outcome (list fragment) :=
  pieces <-
    _generate_voronoi_fracture Voronoi (jitter dr) position size
      fracture_points ;;
  _calculate_fracture_pieces pieces material_strength (random_factor dr)
    (kick dr).

(** ** The destructible cube (fracture.py, lines 120-163) *)

Record DestructibleCube : Type := mkCube {
  cube_position : vec3;
  cube_size : vec3;
  health : R;
  intact : bool;
  fragments : list fragment
}.

Definition DestructibleCube_init (position size : vec3) : DestructibleCube :=
  mkCube position size 100 true [].

(** [DestructibleCube._fracture].  The cube after the call comes with the
    outcome of the call: when the fracture system fails, the fields are
    left as they were. *)
Definition _fracture (Voronoi : list (R * R) -> outcome voronoi) (dr : draws)
    (cube : DestructibleCube) (impact_position : vec3)
  : DestructibleCube * outcome unit :=
  let fracture_points :=
    impact_position
    :: map (fun k => vadd impact_position (vmul (offset dr k) (cube_size cube)))
           (seq 0 3) in
  match fracture_object Voronoi dr (cube_position cube) (cube_size cube)
          fracture_points 100 with
  | Returned frags =>
      (mkCube (cube_position cube) (cube_size cube) (health cube) false frags,
       Returned tt)
  | Raised e => (cube, Raised e)
  | Unspecified => (cube, Unspecified)
  end.

(** [DestructibleCube.apply_damage]. *)
Definition apply_damage (Voronoi : list (R * R) -> outcome voronoi)
    (dr : draws) (cube : DestructibleCube) (damage : R)
    (impact_position : vec3) : DestructibleCube * outcome unit :=
  let cube :=
    mkCube (cube_position cube) (cube_size cube) (health cube - damage)
      (intact cube) (fragments cube) in
  if (health cube <=? 0) && intact cube
  then _fracture Voronoi dr cube impact_position
  else (cube, Returned tt).

Definition is_broken (cube : DestructibleCube) : bool := negb (intact cube).

Definition get_fragments (cube : DestructibleCube) : list fragment :=
  if negb (intact cube) then fragments cube else [].

(** A sequence of calls [apply_damage(damage, impact_position)], each with
    its own draws; a caller that catches a failure goes on with the cube
    as the failed call left it. *)
Fixpoint damage_sequence (Voronoi : list (R * R) -> outcome voronoi)
    (cube : DestructibleCube) (calls : list (R * vec3 * draws))
  : DestructibleCube :=
  match calls with
  | [] => cube
  | (damage, impact_position, dr) :: calls' =>
      damage_sequence Voronoi
        (fst (apply_damage Voronoi dr cube damage impact_position)) calls'
  end.

(** A Voronoi diagram with one bounded cell, and draws that are all
    zero. *)
Definition unit_cell (points : list (R * R)) : outcome voronoi :=
  Returned (mkVoronoi [[]; [0; 1; 2; -1]%Z; [0; 1; 2]%Z]
              [(0, 0); (0.2, 0); (0, 0.2)]).

Definition still_draws : draws :=
  mkDraws (fun _ => vzero) (fun _ => vzero) (fun _ => 1) (fun _ => vzero).

(** A piece cut out of an object at [position] with extent [size]: it
    spans the whole height of the object, its footprint is not negative,
    and its volume is the product of its three extents. *)
Definition extruded_piece (position size : vec3) (p : piece) : Prop :=
  vy (piece_position p) = vy position /\
  vy (piece_size p) = vy size /\
  0 <= vx (piece_size p) /\
  0 <= vz (piece_size p) /\
  piece_volume p
  = vx (piece_size p) * vy (piece_size p) * vz (piece_size p).

(** The damages of a sequence of calls, summed. *)
Definition total_damage (calls : list (R * vec3 * draws)) : R :=
  fold_right (fun call acc => fst (fst call) + acc) 0 calls.

(** * Entities and scenes (engine/core/scene.py) *)

(** ** Dictionaries *)

(** A Python [dict] as the list of its items in insertion order; [eqb]
    compares keys.  Assigning to a key that is present replaces its value
    in place, assigning to a new key appends an item. *)
Section Dict.
Context {K V : Type} (eqb : K -> K -> bool).

Fixpoint dict_get (k : K) (d : list (K * V)) : option V :=
  match d with
  | [] => None
  | (k', v) :: d' => if eqb k k' then Some v else dict_get k d'
  end.

Definition dict_mem (k : K) (d : list (K * V)) : bool :=
  match dict_get k d with Some _ => true | None => false end.

Fixpoint dict_set (k : K) (v : V) (d : list (K * V)) : list (K * V) :=
  match d with
  | [] => [(k, v)]
  | (k', v') :: d' =>
      if eqb k k' then (k', v) :: d' else (k', v') :: dict_set k v d'
  end.

Fixpoint dict_del (k : K) (d : list (K * V)) : list (K * V) :=
  match d with
  | [] => []
  | (k', v') :: d' => if eqb k k' then d' else (k', v') :: dict_del k d'
  end.
End Dict.

(** ** Entities *)

(** The component classes of component.py; [mesh] and [material] of a
    renderable are references to objects outside this development. *)
Inductive component : Type :=
| CComponent (active : bool)
| CTransform (t : Transform)
| CRenderable (mesh material : option nat) (visible : bool)
| CPhysicsBody (b : PhysicsBody).

(** [type(component).__name__] *)
Definition type_name (c : component) : String.string :=
  match c with
  | CComponent _ => "Component"%string
  | CTransform _ => "Transform"%string
  | CRenderable _ _ _ => "Renderable"%string
  | CPhysicsBody _ => "PhysicsBody"%string
  end.

(** An entity: [id] is the identity of the object.  The back reference
    [component.entity] set by [add_component] is not represented. *)
Record Entity : Type := mkEntity {
  name : String.string;
  id : nat;
  components : list (String.string * component);
  entity_active : bool;
  transform : Transform
}.

(** [Entity.add_component], [get_component], [remove_component]
    (scene.py, lines 19-32). *)
Definition add_component (e : Entity) (c : component) : Entity :=
  mkEntity (name e) (id e)
    (dict_set String.eqb (type_name c) c (components e))
    (entity_active e) (transform e).

Definition get_component (e : Entity) (component_type : String.string)
  : option component :=
  dict_get String.eqb component_type (components e).

Definition remove_component (e : Entity) (component_type : String.string)
  : Entity :=
  if dict_mem String.eqb component_type (components e)
  then mkEntity (name e) (id e)
         (dict_del String.eqb component_type (components e))
         (entity_active e) (transform e)
  else e.

(** ** Scenes *)

(** A scene holds references to entities: an entity is referred to by its
    identity, and [entity in self.entities] as well as [list.remove]
    compare identities.  [entity_map] has the identity as key and the
    entity as value. *)
Record Scene : Type := mkScene {
  entities : list nat;
  entity_map : list (nat * nat);
  camera : option nat;
  lights : list nat
}.

Definition Scene_init : Scene := mkScene [] [] None [].

(** [list.remove(x)] on a list that contains [x]: the first occurrence
    goes. *)
Fixpoint remove_first (x : nat) (l : list nat) : list nat :=
  match l with
  | [] => []
  | y :: l' => if Nat.eqb x y then l' else y :: remove_first x l'
  end.

(** [Scene.add_entity], [remove_entity], [find_entity_by_name] (scene.py,
    lines 43-61).  [name_of] reads the name of the entity a reference
    points to. *)
Definition add_entity (sc : Scene) (entity : nat) : Scene :=
  mkScene (entities sc ++ [entity])
    (dict_set Nat.eqb entity entity (entity_map sc)) (camera sc) (lights sc).

Definition remove_entity (sc : Scene) (entity : nat) : Scene :=
  if existsb (Nat.eqb entity) (entities sc) then
    mkScene (remove_first entity (entities sc))
      (if dict_mem Nat.eqb entity (entity_map sc)
       then dict_del Nat.eqb entity (entity_map sc)
       else entity_map sc)
      (camera sc) (lights sc)
  else sc.

Definition find_entity_by_name (name_of : nat -> String.string) (sc : Scene)
    (name : String.string) : option nat :=
  find (fun entity => String.eqb (name_of entity) name) (entities sc).

(** The entities listed in a scene are the keys of its map. *)
Definition scene_consistent (sc : Scene) : Prop :=
  forall e, In e (entities sc) <-> dict_mem Nat.eqb e (entity_map sc) = true.

(** A Voronoi diagram without any bounded cell. *)
Definition open_cells (points : list (R * R)) : outcome voronoi :=
  Returned (mkVoronoi [[]; [0; -1]%Z; [-1; 0]%Z] [(0, 0)]).

(** * Properties *)

(** ** Comparisons *)

Lemma Rltb_true (a b : R) : (a <? b) = true <-> a < b.
Proof. unfold Rltb; destruct (Rlt_dec a b); split; intros; auto; discriminate. Qed.

Lemma Rltb_false (a b : R) : (a <? b) = false <-> b <= a.
Proof.
  unfold Rltb; destruct (Rlt_dec a b); split; intros; auto; try discriminate; lra.
Qed.

Lemma Rleb_true (a b : R) : (a <=? b) = true <-> a <= b.
Proof. unfold Rleb; destruct (Rle_dec a b); split; intros; auto; discriminate. Qed.

Lemma Rleb_false (a b : R) : (a <=? b) = false <-> b < a.
Proof.
  unfold Rleb; destruct (Rle_dec a b); split; intros; auto; try discriminate; lra.
Qed.

Lemma Rgtb_true (a b : R) : (a >? b) = true <-> b < a.
Proof. apply Rltb_true. Qed.

Lemma Rgtb_false (a b : R) : (a >? b) = false <-> a <= b.
Proof. apply Rltb_false. Qed.

Lemma Reqb_true (a b : R) : (a =? b) = true <-> a = b.
Proof. unfold Reqb; destruct (Req_dec_T a b); split; intros; auto; discriminate. Qed.

Lemma Reqb_false (a b : R) : (a =? b) = false <-> a <> b.
Proof.
  unfold Reqb; destruct (Req_dec_T a b); split; intros; auto;
    try discriminate; contradiction.
Qed.

(** Case analysis on every float comparison in the goal, each branch
    carrying the corresponding order fact. *)
Ltac cmp_cases :=
  repeat match goal with
  | |- context [?a <? ?b] =>
      let E := fresh "E" in
      destruct (a <? b) eqn:E;
      [apply Rltb_true in E | apply Rltb_false in E]
  | |- context [?a <=? ?b] =>
      let E := fresh "E" in
      destruct (a <=? b) eqn:E;
      [apply Rleb_true in E | apply Rleb_false in E]
  | |- context [?a >? ?b] =>
      let E := fresh "E" in
      destruct (a >? b) eqn:E;
      [apply Rgtb_true in E | apply Rgtb_false in E]
  | |- context [?a =? ?b] =>
      let E := fresh "E" in
      destruct (a =? b) eqn:E;
      [apply Reqb_true in E | apply Reqb_false in E]
  end.

(** ** Outcomes and loops *)

Lemma bind_Returned {A B : Type} (c : outcome A) (k : A -> outcome B) (b : B) :
  bind c k = Returned b -> exists a, c = Returned a /\ k a = Returned b.
Proof. destruct c; simpl; intros H; try discriminate; eauto. Qed.

Lemma ndiv_Returned (a b q : R) :
  ndiv a b = Returned q -> b <> 0 /\ q = a / b.
Proof.
  unfold ndiv; cmp_cases; intros H; try discriminate.
  inversion H; auto.
Qed.

Lemma ndiv_nonzero (a b : R) : b <> 0 -> ndiv a b = Returned (a / b).
Proof. intros H; unfold ndiv; cmp_cases; [contradiction | reflexivity]. Qed.

Lemma pydiv_nonzero (a b : R) : b <> 0 -> pydiv a b = Returned (a / b).
Proof. intros H; unfold pydiv; cmp_cases; [contradiction | reflexivity]. Qed.

Lemma upd_same {T : Type} (a : array T) (i : nat) (v : T) : upd a i v i = v.
Proof. unfold upd; now rewrite Nat.eqb_refl. Qed.

Lemma upd_other {T : Type} (a : array T) (i k : nat) (v : T) :
  k <> i -> upd a i v k = a k.
Proof. intros H; unfold upd; apply Nat.eqb_neq in H; now rewrite H. Qed.

Lemma for_range_S {S : Type} (n : nat) (body : nat -> S -> S) (s : S) :
  for_range (Datatypes.S n) body s = body n (for_range n body s).
Proof. unfold for_range; rewrite seq_S, fold_left_app; reflexivity. Qed.

Lemma foldM_app {S : Type} (body : nat -> S -> outcome S) (l1 l2 : list nat) (s : S) :
  foldM body (l1 ++ l2) s = (s' <- foldM body l1 s ;; foldM body l2 s').
Proof.
  revert s; induction l1 as [|i l1 IH]; intros s; simpl; [reflexivity|].
  destruct (body i s); simpl; auto.
Qed.

Lemma for_rangeM_S {S : Type} (n : nat) (body : nat -> S -> outcome S) (s : S) :
  for_rangeM (Datatypes.S n) body s = (s' <- for_rangeM n body s ;; body n s').
Proof.
  unfold for_rangeM; rewrite seq_S, foldM_app; simpl.
  destruct (foldM body (seq 0 n) s); simpl; auto.
  destruct (body n a); reflexivity.
Qed.

(** Invariant rule for a loop whose body always has a result. *)
Lemma for_range_inv {S : Type} (P : nat -> S -> Prop) (body : nat -> S -> S)
    (n : nat) (s : S) :
  P 0%nat s ->
  (forall i st, (i < n)%nat -> P i st -> P (Datatypes.S i) (body i st)) ->
  P n (for_range n body s).
Proof.
  intros H0 Hstep.
  assert (G : forall m, (m <= n)%nat -> P m (for_range m body s)).
  { induction m as [|m IH]; intros Hm; [exact H0|].
    rewrite for_range_S; apply Hstep; [lia | apply IH; lia]. }
  apply G; lia.
Qed.

(** Invariant rule for a loop whose body may have no result: partial
    correctness. *)
Lemma for_rangeM_inv {S : Type} (P : nat -> S -> Prop)
    (body : nat -> S -> outcome S) (n : nat) (s s' : S) :
  P 0%nat s ->
  (forall i st st', (i < n)%nat -> P i st -> body i st = Returned st' ->
                    P (Datatypes.S i) st') ->
  for_rangeM n body s = Returned s' ->
  P n s'.
Proof.
  intros H0 Hstep.
  assert (G : forall m, (m <= n)%nat ->
                        forall r, for_rangeM m body s = Returned r -> P m r).
  { induction m as [|m IH]; intros Hm r Hr.
    - inversion Hr; subst; exact H0.
    - rewrite for_rangeM_S in Hr.
      apply bind_Returned in Hr; destruct Hr as (st & Hst & Hb).
      apply (Hstep m st r); [lia | apply IH; [lia | exact Hst] | exact Hb]. }
  intros Hr; apply (G n); [lia | exact Hr].
Qed.

(** The same loop returns when every iteration does, along an invariant. *)
Lemma for_rangeM_returns {S : Type} (P : nat -> S -> Prop)
    (body : nat -> S -> outcome S) (n : nat) (s : S) :
  P 0%nat s ->
  (forall i st, (i < n)%nat -> P i st ->
                exists st', body i st = Returned st' /\ P (Datatypes.S i) st') ->
  exists s', for_rangeM n body s = Returned s' /\ P n s'.
Proof.
  intros H0 Hstep.
  assert (G : forall m, (m <= n)%nat ->
                        exists r, for_rangeM m body s = Returned r /\ P m r).
  { induction m as [|m IH]; intros Hm.
    - exists s; split; [reflexivity | exact H0].
    - destruct IH as (r & Hr & HP); [lia|].
      destruct (Hstep m r) as (r' & Hb & HP'); [lia | exact HP |].
      exists r'; split; [| exact HP'].
      rewrite for_rangeM_S, Hr; simpl; exact Hb. }
  apply G; lia.
Qed.

(** Two loops whose bodies agree. *)
Lemma foldM_ext {S : Type} (f g : nat -> S -> outcome S) (l : list nat) (s : S) :
  (forall i st, f i st = g i st) -> foldM f l s = foldM g l s.
Proof.
  intros Hfg; revert s; induction l as [|i l IH]; intros s; simpl;
    [reflexivity|].
  rewrite Hfg; destruct (g i s); simpl; auto.
Qed.

Lemma for_range_ext {S : Type} (f g : nat -> S -> S) (n : nat) (s : S) :
  (forall i st, f i st = g i st) -> for_range n f s = for_range n g s.
Proof.
  intros Hfg; induction n as [|n IH]; [reflexivity|].
  rewrite !for_range_S, IH; apply Hfg.
Qed.

Lemma foldM_ext_in {S : Type} (f g : nat -> S -> outcome S) (l : list nat)
    (s : S) :
  (forall i st, In i l -> f i st = g i st) -> foldM f l s = foldM g l s.
Proof.
  revert s; induction l as [|i l IH]; intros s Hfg; simpl; [reflexivity|].
  rewrite Hfg by (left; reflexivity).
  destruct (g i s); simpl; auto.
  apply IH; intros j st Hj; apply Hfg; right; exact Hj.
Qed.

Lemma for_rangeM_ext_below {S : Type} (f g : nat -> S -> outcome S) (n : nat)
    (s : S) :
  (forall i st, (i < n)%nat -> f i st = g i st) ->
  for_rangeM n f s = for_rangeM n g s.
Proof.
  intros Hfg; unfold for_rangeM; apply foldM_ext_in.
  intros i st Hi; apply Hfg; apply in_seq in Hi; lia.
Qed.

Lemma for_range_ext_below {S : Type} (f g : nat -> S -> S) (n : nat) (s : S) :
  (forall i st, (i < n)%nat -> f i st = g i st) ->
  for_range n f s = for_range n g s.
Proof.
  intros Hfg.
  assert (G : forall m, (m <= n)%nat -> for_range m f s = for_range m g s).
  { induction m as [|m IH]; intros Hm; [reflexivity|].
    rewrite !for_range_S, IH by lia; apply Hfg; lia. }
  apply G; lia.
Qed.

(** ** The density and pressure pass *)

Lemma density_body_term (positions : array vec3) (h : R) (i j : nat) (density : R) :
  i <> j ->
  density_body positions h i j density
  = density + density_term h (dist_sq (positions i) (positions j)).
Proof.
  intros Hij; unfold density_body, density_term.
  apply Nat.eqb_neq in Hij; rewrite Hij.
  cbv zeta; cmp_cases; lra.
Qed.

Section DensityPass.
Variables (pos : array vec3) (d0 p0 : array R) (h rest pc : R) (count : nat).

Lemma density_pass_step (i : nat) (st st' : array R * array R) :
  density_inv pos d0 p0 h rest pc count i st ->
  (let '(densities, pressures) := st in
   let density := density_sum pos h count i in
   let densities := upd densities i (Rmax density (rest * 0.1)) in
   ratio <- ndiv (densities i) rest ;;
   Returned (densities, upd pressures i (pc * (ratio - 1)))) = Returned st' ->
  density_inv pos d0 p0 h rest pc count (S i) st'.
Proof.
  destruct st as [d p]; intros [Hlo Hhi] H.
  apply bind_Returned in H; destruct H as (ratio & Hdiv & H).
  apply ndiv_Returned in Hdiv; destruct Hdiv as [Hrest Hratio].
  inversion H; subst st'; clear H; simpl in *.
  rewrite upd_same in Hratio.
  split; intros k Hk; simpl.
  - destruct (Nat.eq_dec k i) as [->|Hne].
    + unfold density_slot; rewrite !upd_same; subst ratio; auto.
    + unfold density_slot; rewrite !upd_other by exact Hne.
      apply Hlo; lia.
  - rewrite !upd_other by lia. apply Hhi; lia.
Qed.

Lemma density_pass_inv (d' p' : array R) :
  calculate_densities_and_pressures pos d0 p0 h rest pc count
  = Returned (d', p') ->
  density_inv pos d0 p0 h rest pc count count (d', p').
Proof.
  unfold calculate_densities_and_pressures; cbv zeta; intros H.
  eapply for_rangeM_inv with (P := density_inv pos d0 p0 h rest pc count) in H; [exact H | |].
  - split; [intros i Hi; lia | intros i _; auto].
  - intros i st st' _ Hinv Hb. eapply density_pass_step; eauto.
Qed.

(** What the pass leaves in the slots below [count]. *)
Lemma density_pass_spec (d' p' : array R) (i : nat) :
  calculate_densities_and_pressures pos d0 p0 h rest pc count
  = Returned (d', p') ->
  (i < count)%nat ->
  d' i = Rmax (density_sum pos h count i) (rest * 0.1) /\
  p' i = pc * (d' i / rest - 1) /\ rest <> 0.
Proof.
  intros H Hi; apply density_pass_inv in H; destruct H as [Hlo _].
  apply (Hlo i Hi).
Qed.

(** The pass returns as soon as the rest density is not zero. *)
Lemma density_pass_returns :
  rest <> 0 ->
  exists d' p',
    calculate_densities_and_pressures pos d0 p0 h rest pc count
    = Returned (d', p').
Proof.
  intros Hrest; unfold calculate_densities_and_pressures; cbv zeta.
  destruct (for_rangeM_returns (fun _ _ => True)
              (fun i '(densities, pressures) =>
                 let density := density_sum pos h count i in
                 let densities := upd densities i (Rmax density (rest * 0.1)) in
                 ratio <- ndiv (densities i) rest ;;
                 Returned (densities, upd pressures i (pc * (ratio - 1))))
              count (d0, p0)) as ([d' p'] & H & _); [exact I | | eauto].
  intros i [d p] _ _; cbv zeta.
  rewrite ndiv_nonzero by exact Hrest; simpl; eauto.
Qed.
End DensityPass.

(** A particle all of whose neighbours are at or beyond the cutoff sums
    to zero. *)
Lemma density_sum_isolated (pos : array vec3) (h : R) (count i : nat) :
  (forall j, (j < count)%nat -> j <> i ->
             h * h <= dist_sq (pos i) (pos j)) ->
  density_sum pos h count i = 0.
Proof.
  intros Hfar; unfold density_sum.
  apply (for_range_inv (fun _ acc => acc = 0)); [reflexivity|].
  intros j acc Hj ->.
  destruct (Nat.eq_dec i j) as [->|Hne].
  - unfold density_body; now rewrite Nat.eqb_refl.
  - rewrite density_body_term by exact Hne.
    unfold density_term.
    assert (Hd : h * h <= dist_sq (pos i) (pos j)) by (apply Hfar; auto).
    apply Rltb_false in Hd; rewrite Hd; lra.
Qed.

(** Two particles half a radius apart: each sums one kernel value, taken
    on the inner branch at [q = 0.5]. *)
Example near_pair_density :
  density_sum near_pos 0.1 2 0 = spline_inner 0.1 0.5.
Proof.
  unfold density_sum, for_range; simpl fold_left.
  rewrite density_body_term by discriminate.
  assert (Hd : dist_sq (near_pos 0%nat) (near_pos 1%nat) = 0.05 * 0.05)
    by (unfold dist_sq, near_pos; simpl; lra).
  rewrite Hd; unfold density_body at 1; simpl Nat.eqb; cbv iota.
  unfold density_term; cbv zeta.
  rewrite sqrt_square by lra.
  assert (Hq : 0.05 / 0.1 = 0.5) by lra.
  rewrite Hq.
  cmp_cases; lra.
Qed.

(** ** The force pass *)

Lemma read_Returned (a : list R) (k : nat) (v : R) :
  read a k = Returned v -> nth_error a k = Some v.
Proof.
  unfold read; destruct (nth_error a k); intros H; inversion H; reflexivity.
Qed.

Section ForcePass.
Variables (pos vel : array vec3) (d p : array R) (f0 : array vec3).
Variables (h mu kc : R) (gravity : list R) (count : nat).

Lemma force_pass_inv (f' : array vec3) :
  calculate_forces pos vel d p f0 h mu kc gravity count = Returned f' ->
  force_inv pos vel d p f0 h mu gravity count count f'.
Proof.
  unfold calculate_forces; cbv zeta; intros H.
  eapply for_rangeM_inv with (P := force_inv pos vel d p f0 h mu gravity count) in H; [exact H | |].
  - split; [intros i Hi; lia | intros i _; reflexivity].
  - clear H f'. intros i f f' _ [Hlo Hhi] Hb.
    apply bind_Returned in Hb; destruct Hb as (g1 & Hg & Hb).
    apply read_Returned in Hg.
    apply bind_Returned in Hb; destruct Hb as ([pf vf] & Hpair & Hb).
    inversion Hb; subst f'; clear Hb.
    split; intros k Hk.
    + destruct (Nat.eq_dec k i) as [->|Hne].
      * exists g1, pf, vf; repeat split; auto.
        rewrite !upd_same, (Hhi i) by lia; reflexivity.
      * destruct (Hlo k) as (g & a & b & H1 & H2 & H3); [lia|].
        exists g, a, b; repeat split; auto.
        rewrite !upd_other by exact Hne; exact H3.
    + rewrite !upd_other by lia; apply Hhi; lia.
Qed.

(** What the pass leaves in the slots below [count]. *)
Lemma force_pass_spec (f' : array vec3) (i : nat) :
  calculate_forces pos vel d p f0 h mu kc gravity count = Returned f' ->
  (i < count)%nat ->
  force_slot pos vel d p f0 h mu gravity count f' i.
Proof.
  intros H Hi; apply force_pass_inv in H; destruct H as [Hlo _]; auto.
Qed.

(** One neighbour is processed as soon as its density is not zero. *)
Lemma force_body_returns (i j : nat) (acc : vec3 * vec3) :
  d j <> 0 ->
  exists acc',
    force_body pos vel d p h mu i j acc = Returned acc'.
Proof.
  intros Hd; unfold force_body; destruct acc as [pf vf].
  destruct (Nat.eqb i j); [eauto|]; cbv zeta.
  cmp_cases; eauto.
  rewrite ndiv_nonzero by lra; simpl; eauto.
Qed.

Lemma pair_forces_returns (i : nat) :
  (forall j, (j < count)%nat -> d j <> 0) ->
  exists pf vf, pair_forces pos vel d p h mu count i = Returned (pf, vf).
Proof.
  intros Hd; unfold pair_forces.
  destruct (for_rangeM_returns (fun _ _ => True)
              (force_body pos vel d p h mu i) count (vzero, vzero))
    as ([pf vf] & H & _); [exact I | | eauto].
  intros j acc Hj _.
  destruct (force_body_returns i j acc (Hd j Hj)) as (acc' & H); eauto.
Qed.

(** The pass returns when [gravity[1]] exists and no density is zero. *)
Lemma force_pass_returns (g1 : R) :
  nth_error gravity 1 = Some g1 ->
  (forall j, (j < count)%nat -> d j <> 0) ->
  exists f', calculate_forces pos vel d p f0 h mu kc gravity count = Returned f'.
Proof.
  intros Hg Hd; unfold calculate_forces; cbv zeta.
  match goal with |- exists f', for_rangeM _ ?b _ = _ =>
    destruct (for_rangeM_returns (fun _ _ => True) b count f0)
      as (f' & H & _); [exact I | | eauto] end.
  intros i f Hi _; unfold read; rewrite Hg; simpl.
  destruct (pair_forces_returns i Hd) as (pf & vf & Hp).
  rewrite Hp; simpl; eauto.
Qed.
End ForcePass.

(** ** Integration and boundary handling *)

Lemma get_set_same (v : vec3) (a : axis) (r : R) : get (set v a r) a = r.
Proof. destruct a; reflexivity. Qed.

Lemma get_set_other (v : vec3) (a b : axis) (r : R) :
  a <> b -> get (set v b r) a = get v a.
Proof. destruct a, b; intros H; try reflexivity; contradiction. Qed.

Lemma get_vadd (u v : vec3) (a : axis) : get (vadd u v) a = get u a + get v a.
Proof. destruct a; reflexivity. Qed.

Lemma get_vscale (u : vec3) (k : R) (a : axis) : get (vscale u k) a = get u a * k.
Proof. destruct a; reflexivity. Qed.

Lemma vec3_ext (u v : vec3) : (forall a, get u a = get v a) -> u = v.
Proof.
  intros H; destruct u as [a b c], v as [a' b' c'].
  generalize (H A0), (H A1), (H A2); simpl; intros -> -> ->; reflexivity.
Qed.

Section Boundary.
Variables (lo hi : vec3) (damping : R) (i : nat).

(** One column test: the other particles and the other columns are not
    touched, the tested column is clamped. *)
Lemma boundary_body_spec (j : axis) (P V : array vec3) :
  let st' := boundary_body lo hi damping i j (P, V) in
  (forall k, k <> i -> fst st' k = P k /\ snd st' k = V k) /\
  (forall a, a <> j ->
     get (fst st' i) a = get (P i) a /\ get (snd st' i) a = get (V i) a) /\
  (get (fst st' i) j, get (snd st' i) j)
  = clamp_axis (get (P i) j) (get (V i) j) (get lo j) (get hi j) damping.
Proof.
  unfold boundary_body, clamp_axis.
  destruct (get (P i) j <? get lo j);
    [| destruct (get (P i) j >? get hi j)]; cbv zeta; simpl;
    repeat split; intros;
    rewrite ?upd_same, ?upd_other, ?get_set_same, ?get_set_other by assumption;
    reflexivity.
Qed.

(** The three column tests in sequence clamp each column of particle [i]
    once, from the values the particle had on entry. *)
Lemma for_axes_boundary_spec (P V : array vec3) :
  let st' := for_axes (boundary_body lo hi damping i) (P, V) in
  (forall k, k <> i -> fst st' k = P k /\ snd st' k = V k) /\
  (forall a,
     (get (fst st' i) a, get (snd st' i) a)
     = clamp_axis (get (P i) a) (get (V i) a) (get lo a) (get hi a) damping).
Proof.
  unfold for_axes, fold_left.
  destruct (boundary_body lo hi damping i A0 (P, V)) as [P1 V1] eqn:E1.
  destruct (boundary_body lo hi damping i A1 (P1, V1)) as [P2 V2] eqn:E2.
  destruct (boundary_body lo hi damping i A2 (P2, V2)) as [P3 V3] eqn:E3.
  generalize (boundary_body_spec A0 P V); rewrite E1; simpl.
  intros (O1 & K1 & C1).
  generalize (boundary_body_spec A1 P1 V1); rewrite E2; simpl.
  intros (O2 & K2 & C2).
  generalize (boundary_body_spec A2 P2 V2); rewrite E3; simpl.
  intros (O3 & K3 & C3).
  split.
  - intros k Hk.
    destruct (O3 k Hk) as [E3a E3b], (O2 k Hk) as [E2a E2b],
      (O1 k Hk) as [E1a E1b].
    split; congruence.
  - assert (N01 : A0 <> A1) by discriminate.
    assert (N02 : A0 <> A2) by discriminate.
    assert (N10 : A1 <> A0) by discriminate.
    assert (N12 : A1 <> A2) by discriminate.
    assert (N20 : A2 <> A0) by discriminate.
    assert (N21 : A2 <> A1) by discriminate.
    intros [| |].
    + destruct (K3 A0 N02) as [Ea Eb], (K2 A0 N01) as [Ec Ed].
      rewrite Ea, Eb, Ec, Ed; exact C1.
    + destruct (K3 A1 N12) as [Ea Eb], (K1 A1 N10) as [Ec Ed].
      rewrite Ea, Eb, <- Ec, <- Ed; exact C2.
    + destruct (K1 A2 N20) as [Ea Eb], (K2 A2 N21) as [Ec Ed].
      rewrite <- Ea, <- Eb, <- Ec, <- Ed; exact C3.
Qed.
End Boundary.

Section Integration.
Variables (P0 V0 F : array vec3) (dt : R) (lo hi : vec3) (damping : R).
Variable count : nat.

Lemma integrate_motion_inv :
  integrate_inv P0 V0 F dt lo hi damping count
    (integrate_motion P0 V0 F dt lo hi damping count).
Proof.
  unfold integrate_motion.
  apply (for_range_inv (integrate_inv P0 V0 F dt lo hi damping)).
  - split; [intros i a Hi; lia | intros i _; auto].
  - intros i [P V] Hi [Hlo Hhi]; simpl in Hlo, Hhi; cbv zeta.
    set (V1 := upd V i (vadd (V i) (vscale (F i) dt))).
    set (P1 := upd P i (vadd (P i) (vscale (V1 i) dt))).
    generalize (for_axes_boundary_spec lo hi damping i P1 V1).
    destruct (for_axes (boundary_body lo hi damping i) (P1, V1)) as [P2 V2].
    simpl; intros [Hoth Hcl].
    destruct (Hhi i (Nat.le_refl i)) as [HP HV].
    split; simpl.
    + intros k a Hk.
      destruct (Nat.eq_dec k i) as [->|Hne].
      * rewrite Hcl; unfold euler_axis; cbv zeta.
        unfold P1, V1; rewrite !upd_same, !get_vadd, !get_vscale, !get_vadd,
          !get_vscale, HP, HV; reflexivity.
      * destruct (Hoth k Hne) as [-> ->].
        unfold P1, V1; rewrite !upd_other by exact Hne.
        apply Hlo; lia.
    + intros k Hk.
      destruct (Hoth k) as [-> ->]; [lia|].
      unfold P1, V1; rewrite !upd_other by lia.
      apply Hhi; lia.
Qed.
End Integration.

(** ** The step *)

Lemma update_Returned (s s' : SPHSystem) (dt : R) :
  update s dt = Returned s' ->
  exists d' p' f',
    calculate_densities_and_pressures (positions s) (densities s) (pressures s)
      (smoothing_radius s) (rest_density s) (pressure_constant s)
      (particle_count s) = Returned (d', p') /\
    calculate_forces (positions s) (velocities s) d' p' (forces s)
      (smoothing_radius s) (viscosity s) (kernel_constant s) (gravity s)
      (particle_count s) = Returned f' /\
    (positions s', velocities s')
    = integrate_motion (positions s) (velocities s) f' dt (boundary_min s)
        (boundary_max s) (boundary_damping s) (particle_count s) /\
    densities s' = d' /\ pressures s' = p' /\ forces s' = (fun _ => vzero) /\
    same_config s s'.
Proof.
  unfold update; intros H.
  apply bind_Returned in H; destruct H as ([d' p'] & Hd & H).
  apply bind_Returned in H; destruct H as (f' & Hf & H).
  exists d', p', f'.
  destruct (integrate_motion _ _ f' dt _ _ _ _) as [P' V'].
  inversion H; subst s'; clear H; simpl.
  unfold same_config; simpl; repeat split; auto.
Qed.

(** A step returns when the rest density is positive and [gravity] has a
    second component. *)
Lemma update_returns (s : SPHSystem) (dt g1 : R) :
  0 < rest_density s ->
  nth_error (gravity s) 1 = Some g1 ->
  exists s', update s dt = Returned s'.
Proof.
  intros Hrest Hg; unfold update.
  destruct (density_pass_returns (positions s) (densities s) (pressures s)
              (smoothing_radius s) (rest_density s) (pressure_constant s)
              (particle_count s)) as (d' & p' & Hd); [lra|].
  rewrite Hd; simpl.
  destruct (force_pass_returns (positions s) (velocities s) d' p' (forces s)
              (smoothing_radius s) (viscosity s) (kernel_constant s)
              (gravity s) (particle_count s) g1 Hg) as (f' & Hf).
  - intros j Hj.
    destruct (density_pass_spec _ _ _ _ _ _ _ d' p' j Hd Hj) as (-> & _ & _).
    generalize (Rmax_r (density_sum (positions s) (smoothing_radius s)
                          (particle_count s) j) (rest_density s * 0.1)).
    lra.
  - rewrite Hf; simpl.
    destruct (integrate_motion _ _ f' dt _ _ _ _) as [P' V']; eauto.
Qed.

Lemma returned_or_eq {A : Type} (o : outcome A) (d : A) :
  (exists a, o = Returned a) -> o = Returned (returned_or o d).
Proof. intros (a & ->); reflexivity. Qed.

Lemma demo_update (dt : R) : update demo dt = Returned (demo_step dt).
Proof.
  apply returned_or_eq, (update_returns demo dt (-9.81)); simpl; [lra | reflexivity].
Qed.

(** *** Floats in range *)

Lemma fits_true (fmax x : R) : fits fmax x = true <-> Rabs x <= fmax.
Proof. unfold fits; apply Rleb_true. Qed.

Lemma fits_all (fmax : R) (l : list R) :
  Forall (fun x => Rabs x <= fmax) l -> forallb (fits fmax) l = true.
Proof.
  induction 1 as [|x l Hx _ IH]; simpl; [reflexivity|].
  rewrite IH, (proj2 (fits_true fmax x) Hx); reflexivity.
Qed.

(** What [x ** n] returns: zero for a zero or an underflowing power, the
    power itself in the normal range. *)
Lemma float_pow_Returned (x : R) (n : nat) (p : R) :
  float_pow x n = Returned p ->
  (p = 0 /\ Rabs (x ^ n) <= / 2 ^ 1076) \/
  (p = x ^ n /\ / 2 ^ 1022 <= Rabs (x ^ n) <= float64_max).
Proof.
  unfold float_pow; cbv zeta.
  destruct (x ^ n =? 0) eqn:E0;
    [apply Reqb_true in E0 | apply Reqb_false in E0].
  - intros H; inversion H; left; split; [reflexivity|].
    rewrite E0, Rabs_R0; lra.
  - destruct (2 ^ 1025 <=? Rabs (x ^ n)); [discriminate|].
    destruct (Rabs (x ^ n) <=? / 2 ^ 1076) eqn:E1;
      [apply Rleb_true in E1 | clear E1].
    + intros H; inversion H; left; split; [reflexivity | exact E1].
    + destruct (/ 2 ^ 1022 <=? Rabs (x ^ n)) eqn:E2;
        [apply Rleb_true in E2 | discriminate].
      destruct (Rabs (x ^ n) <=? float64_max) eqn:E3;
        [apply Rleb_true in E3 | discriminate].
      intros H; inversion H; right; auto.
Qed.

Lemma float_pow_normal (x : R) (n : nat) :
  / 2 ^ 1022 <= Rabs (x ^ n) <= float64_max ->
  float_pow x n = Returned (x ^ n).
Proof.
  intros [Hlo Hhi]; unfold float_pow, float64_max in *; cbv zeta.
  assert (Hne : x ^ n <> 0).
  { intros Hz; rewrite Hz, Rabs_R0 in Hlo; lra. }
  apply Reqb_false in Hne; rewrite Hne.
  assert (H1 : (2 ^ 1025 <=? Rabs (x ^ n)) = false) by (apply Rleb_false; lra).
  assert (H2 : (Rabs (x ^ n) <=? / 2 ^ 1076) = false) by (apply Rleb_false; lra).
  assert (H3 : (/ 2 ^ 1022 <=? Rabs (x ^ n)) = true) by (apply Rleb_true; lra).
  assert (H4 : (Rabs (x ^ n) <=? (2 - / 2 ^ 52) * 2 ^ 1023) = true)
    by (apply Rleb_true; lra).
  rewrite H1, H2, H3, H4; reflexivity.
Qed.

Lemma float_pow_underflow (x : R) (n : nat) :
  Rabs (x ^ n) <= / 2 ^ 1076 -> float_pow x n = Returned 0.
Proof.
  intros Hlo; unfold float_pow; cbv zeta.
  destruct (x ^ n =? 0); [reflexivity|].
  assert (H1 : (2 ^ 1025 <=? Rabs (x ^ n)) = false) by (apply Rleb_false; lra).
  apply Rleb_true in Hlo; rewrite H1, Hlo; reflexivity.
Qed.

Lemma float_pow_overflow (x : R) (n : nat) :
  2 ^ 1025 <= Rabs (x ^ n) -> float_pow x n = Raised OverflowError.
Proof.
  intros Hhi; unfold float_pow; cbv zeta.
  assert (Hne : x ^ n <> 0).
  { intros Hz; rewrite Hz, Rabs_R0 in Hhi; lra. }
  apply Reqb_false in Hne; rewrite Hne.
  apply Rleb_true in Hhi; rewrite Hhi; reflexivity.
Qed.

(** A smoothing radius of moderate magnitude: its fourth power, and
    [np.pi] times it, are in the normal range of float64. *)
Lemma moderate_radius (h : R) :
  1e-70 <= Rabs h <= 1e70 ->
  / 2 ^ 1022 <= Rabs (h ^ 4) <= float64_max /\
  Rabs (PI * h ^ 4) <= float64_max /\ PI * h ^ 4 <> 0.
Proof.
  intros [Hlo Hhi]; unfold float64_max.
  rewrite Rabs_mult, (Rabs_right PI) by (generalize PI_RGT_0; lra).
  rewrite <- (RPow_abs h 4).
  assert (L : 1e-70 ^ 4 <= Rabs h ^ 4) by (apply pow_incr; lra).
  assert (U : Rabs h ^ 4 <= 1e70 ^ 4) by (apply pow_incr; lra).
  assert (P : PI * Rabs h ^ 4 <= 4 * Rabs h ^ 4).
  { apply Rmult_le_compat_r; [lra | exact PI_4]. }
  repeat split; try lra.
  intros Hz; apply Rmult_integral in Hz; destruct Hz as [Hz|Hz].
  - generalize PI_RGT_0; lra.
  - assert (E : Rabs h ^ 4 = 0) by (rewrite RPow_abs, Hz; apply Rabs_R0).
    lra.
Qed.

(** The constructor accepts every count the machine can allocate, every
    smoothing radius of moderate magnitude, of either sign, and every
    rest density, viscosity and stiffness, as long as the values written
    to float32 arrays and the product [pressure_constant] are in range. *)
Lemma init_accepts (n : Z) (h rho mu k : R) (g : gravity_arg)
    (sample : array vec3) (capacity : Z) (gl : list R) :
  gravity_or_default g = Returned gl ->
  (0 <= n <= capacity)%Z ->
  1e-70 <= Rabs h <= 1e70 ->
  Forall (fun x => Rabs x <= float32_max) gl ->
  Rabs rho <= float32_max ->
  Rabs (k * rho) <= float64_max ->
  __init__ n h rho mu k g sample capacity
  = Returned
      (mkSPH (Z.to_nat n) h rho mu k gl sample (fun _ => vzero)
         (fun _ => rho) (fun _ => 0) (fun _ => vzero)
         (V3 (-3) (-1) (-3)) (V3 3 5 3) (-0.5) (8 / (PI * h ^ 4)) (k * rho)).
Proof.
  intros Hg [Hn0 Hn1] Hh Hgl Hrho Hpc.
  destruct (moderate_radius h Hh) as (Hp & Hm & Hnz).
  unfold __init__; rewrite Hg; simpl.
  apply Z.ltb_ge in Hn0; rewrite Hn0.
  apply Z.ltb_ge in Hn1; rewrite Hn1.
  rewrite (float_pow_normal h 4 Hp); cbn [bind].
  rewrite pydiv_nonzero by exact Hnz; cbn [bind].
  rewrite (fits_all _ _ Hgl).
  rewrite (proj2 (fits_true _ _) Hrho), (proj2 (fits_true _ _) Hm),
    (proj2 (fits_true _ _) Hpc).
  reflexivity.
Qed.

Lemma default_gravity_fits : Forall (fun x => Rabs x <= float32_max) default_gravity.
Proof.
  unfold default_gravity, float32_max.
  repeat (apply Forall_cons; [apply Rabs_le; lra|]); apply Forall_nil.
Qed.

Lemma demo_constructed :
  __init__ 1 0.1 1000 0.1 3 GNone origin_sample 5000 = Returned demo.
Proof.
  apply (init_accepts 1 0.1 1000 0.1 3 GNone origin_sample 5000 default_gravity).
  - reflexivity.
  - lia.
  - rewrite Rabs_right by lra; lra.
  - exact default_gravity_fits.
  - unfold float32_max; apply Rabs_le; lra.
  - unfold float64_max; apply Rabs_le; lra.
Qed.

(** ** Density floor *)

(** C1.  After any call [update(dt)] that returns, whatever the state it
    started from, every particle [i] has
    [densities[i] >= rest_density * 0.1].  Moreover, when the rest density
    is not negative, a particle none of whose neighbours passes the cutoff
    test [dist_sq < h * h] ends the density pass with exactly
    [rest_density * 0.1]; the later passes do not write [densities]. *)
Theorem density_floor (s s' : SPHSystem) (dt : R) (i : nat) :
  update s dt = Returned s' ->
  (i < particle_count s)%nat ->
  rest_density s * 0.1 <= densities s' i /\
  (0 <= rest_density s ->
   (forall j, (j < particle_count s)%nat -> j <> i ->
      smoothing_radius s * smoothing_radius s
      <= dist_sq (positions s i) (positions s j)) ->
   densities s' i = rest_density s * 0.1).
Proof.
  intros H Hi.
  apply update_Returned in H.
  destruct H as (d' & p' & f' & Hd & _ & _ & -> & _).
  destruct (density_pass_spec _ _ _ _ _ _ _ d' p' i Hd Hi) as (Hdi & _ & _).
  rewrite Hdi; split; [apply Rmax_r|].
  intros Hrest Hfar.
  rewrite density_sum_isolated by exact Hfar.
  apply Rmax_right; lra.
Qed.

Lemma density_floor_witness :
  rest_density demo * 0.1 <= densities (demo_step 0.01) 0%nat /\
  densities (demo_step 0.01) 0%nat = rest_density demo * 0.1.
Proof.
  destruct (density_floor demo (demo_step 0.01) 0.01 0%nat (demo_update 0.01))
    as [Hfloor Hexact].
  - simpl; lia.
  - split; [exact Hfloor|].
    apply Hexact; [simpl; lra|].
    intros j Hj Hne; simpl in Hj; lia.
Defined.

(** ** The density kernel *)

Lemma spline_constant_pos (h : R) : 0 < h -> 0 < 8 / (PI * h ^ 4).
Proof.
  intros Hh.
  assert (0 < h ^ 4) by (apply pow_lt; exact Hh).
  assert (0 < PI * h ^ 4) by (apply Rmult_lt_0_compat; [exact PI_RGT_0 | assumption]).
  apply Rdiv_lt_0_compat; [lra | assumption].
Qed.

Lemma inner_polynomial_pos (q : R) :
  0 <= q <= 0.5 -> 0 < 1 - 6 * q * q + 6 * q * q * q.
Proof.
  intros [H0 H1].
  assert (F : 1 - 6 * q * q + 6 * q * q * q
              = 1 / 4 + (1 / 2 - q) * (3 / 2 + 3 * q - 6 * q * q)) by field.
  rewrite F.
  assert (0 <= 1 / 2 - q) by lra.
  assert (0 <= 3 / 2 + 3 * q - 6 * q * q) by nra.
  assert (0 <= (1 / 2 - q) * (3 / 2 + 3 * q - 6 * q * q))
    by (apply Rmult_le_pos; assumption).
  lra.
Qed.

Lemma spline_inner_pos (h q : R) : 0 < h -> 0 <= q <= 0.5 -> 0 < spline_inner h q.
Proof.
  intros Hh Hq; unfold spline_inner.
  apply Rmult_lt_0_compat;
    [apply spline_constant_pos; exact Hh | apply inner_polynomial_pos; exact Hq].
Qed.

Lemma spline_outer_pos (h q : R) : 0 < h -> q < 1 -> 0 < spline_outer h q.
Proof.
  intros Hh Hq; unfold spline_outer.
  assert (0 < (1 - q) ^ 3) by (apply pow_lt; lra).
  generalize (spline_constant_pos h Hh); intros HC.
  apply Rmult_lt_0_compat; [| assumption].
  apply Rmult_lt_0_compat; [exact HC | exact Rlt_0_2].
Qed.

Lemma dist_sq_nonneg (p q : vec3) : 0 <= dist_sq p q.
Proof.
  unfold dist_sq; cbv zeta.
  generalize (Rle_0_sqr (vx p - vx q)), (Rle_0_sqr (vy p - vy q)),
    (Rle_0_sqr (vz p - vz q)); unfold Rsqr; lra.
Qed.

(** Under the cutoff the divisor [h] of [q = r / h] is not zero, and under
    the guard the divisor [r] of [dx / r] is not zero: these divisions
    always have a result where the kernels reach them. *)
Lemma cutoff_divisor_nonzero (p q : vec3) (h : R) :
  dist_sq p q < h * h -> h <> 0.
Proof.
  intros Hlt Hz; subst h.
  generalize (dist_sq_nonneg p q); lra.
Qed.

Lemma guard_divisor_nonzero (r : R) : (r >? 1e-8) = true -> r <> 0.
Proof. intros H; apply Rgtb_true in H; lra. Qed.

(** The density pass adds [W] at the distance of the pair: for [j <> i],
    one iteration of the inner loop turns the running sum [density] into
    [density + W(r, h)] with [r] the distance of the two particles. *)
Lemma density_body_adds_W (positions : array vec3) (h : R) (i j : nat)
    (density : R) :
  i <> j ->
  density_body positions h i j density
  = density + W (sqrt (dist_sq (positions i) (positions j))) h.
Proof.
  intros Hij; rewrite density_body_term by exact Hij.
  unfold W; rewrite sqrt_sqrt by apply dist_sq_nonneg; reflexivity.
Qed.

(** The inner loop of the density pass sums [W] over the neighbours. *)
Lemma density_sum_kernel_sum (positions : array vec3) (h : R) (count i : nat) :
  density_sum positions h count i = kernel_sum positions h count i.
Proof.
  unfold density_sum, kernel_sum; apply for_range_ext; intros j acc.
  destruct (Nat.eqb i j) eqn:E.
  - unfold density_body; rewrite E; reflexivity.
  - apply Nat.eqb_neq in E; apply density_body_adds_W; exact E.
Qed.

Lemma W_beyond (h r : R) : 0 < h -> h <= r -> W r h = 0.
Proof.
  intros Hh Hr; unfold W, density_term.
  assert (Hsq : h * h <= r * r) by nra.
  apply Rltb_false in Hsq; rewrite Hsq; reflexivity.
Qed.

Lemma W_positive (h r : R) : 0 < h -> 0 <= r < h -> 0 < W r h.
Proof.
  intros Hh [Hr0 Hrh]; unfold W, density_term.
  assert (Hsq : r * r < h * h) by nra.
  apply Rltb_true in Hsq; rewrite Hsq; cbv zeta.
  rewrite sqrt_square by exact Hr0.
  assert (Hq0 : 0 <= r / h) by (apply Rle_mult_inv_pos; assumption).
  assert (Hq1 : r / h < 1).
  { apply (Rmult_lt_reg_r h); [exact Hh |].
    assert (E : r / h * h = r) by (field; apply Rgt_not_eq; exact Hh).
    rewrite E; lra. }
  cmp_cases; try lra.
  - apply spline_inner_pos; [exact Hh | lra].
  - apply spline_outer_pos; [exact Hh | lra].
Qed.

(** C7.  The kernel [W(r, h)] is what the density pass uses: for a
    neighbour [j <> i] at distance [r], one iteration of the inner loop
    adds [W(r, h)] to the running sum, and the pass stores for particle
    [i] the larger of the floor and the sum of [W] over its neighbours.
    For a positive smoothing radius [h], [W] is zero at every distance
    [r >= h], positive at every distance [0 <= r < h], and its two
    branches take the same value at [q = 0.5]. *)
Theorem kernel_support (h : R) :
  0 < h ->
  (forall positions i j density,
     i <> j ->
     density_body positions h i j density
     = density + W (sqrt (dist_sq (positions i) (positions j))) h) /\
  (forall positions d0 p0 rest pc count d' p' i,
     calculate_densities_and_pressures positions d0 p0 h rest pc count
     = Returned (d', p') ->
     (i < count)%nat ->
     d' i = Rmax (kernel_sum positions h count i) (rest * 0.1)) /\
  (forall r, h <= r -> W r h = 0) /\
  (forall r, 0 <= r < h -> 0 < W r h) /\
  spline_inner h 0.5 = spline_outer h 0.5.
Proof.
  intros Hh; repeat split.
  - intros positions i j density Hij; apply density_body_adds_W; exact Hij.
  - intros positions d0 p0 rest pc count d' p' i Hpass Hi.
    destruct (density_pass_spec _ _ _ _ _ _ _ d' p' i Hpass Hi) as (-> & _).
    rewrite density_sum_kernel_sum; reflexivity.
  - intros r Hr; apply W_beyond; assumption.
  - intros r Hr; apply W_positive; assumption.
  - unfold spline_inner, spline_outer.
    set (C := 8 / (PI * h ^ 4)); simpl pow; lra.
Qed.

Lemma kernel_support_witness :
  density_body pair_pos 1 0 1 5
  = 5 + W (sqrt (dist_sq (pair_pos 0%nat) (pair_pos 1%nat))) 1 /\
  W 1 1 = 0 /\ 0 < W 0 1 /\ spline_inner 1 0.5 = spline_outer 1 0.5.
Proof.
  destruct (kernel_support 1 Rlt_0_1) as (Hbody & _ & Hout & Hin & Hmid).
  repeat split;
    [apply Hbody; discriminate | apply Hout; lra | apply Hin; lra | exact Hmid].
Defined.

(** ** Integration: the Euler step and the boundary box *)

Lemma clamp_axis_in_range (p v lo hi damping : R) :
  lo <= hi -> lo <= fst (clamp_axis p v lo hi damping) <= hi.
Proof. intros H; unfold clamp_axis; cmp_cases; simpl; lra. Qed.

Lemma clamp_axis_inside (p v lo hi damping : R) :
  lo <= p <= hi -> clamp_axis p v lo hi damping = (p, v).
Proof. intros H; unfold clamp_axis; cmp_cases; try reflexivity; lra. Qed.

(** C8.  For every particle [i] below [particle_count] and every column
    [a], [integrate_motion] first adds [force * dt] to the velocity, then
    adds the new velocity times [dt] to the position.  If that position is
    below [boundary_min] it becomes [boundary_min] and the velocity is
    multiplied by [boundary_damping]; otherwise, if it is above
    [boundary_max], it becomes [boundary_max] and the velocity is
    multiplied by [boundary_damping]; otherwise both are kept.  Each column
    is decided from its own values only. *)
Theorem integrate_motion_euler (P V F : array vec3) (dt : R) (lo hi : vec3)
    (damping : R) (count i : nat) (a : axis) :
  (i < count)%nat ->
  let P' := fst (integrate_motion P V F dt lo hi damping count) in
  let V' := snd (integrate_motion P V F dt lo hi damping count) in
  let v1 := get (V i) a + get (F i) a * dt in
  let p1 := get (P i) a + v1 * dt in
  (p1 < get lo a ->
   get (P' i) a = get lo a /\ get (V' i) a = v1 * damping) /\
  (get lo a <= p1 -> get hi a < p1 ->
   get (P' i) a = get hi a /\ get (V' i) a = v1 * damping) /\
  (get lo a <= p1 <= get hi a ->
   get (P' i) a = p1 /\ get (V' i) a = v1).
Proof.
  intros Hi P' V' v1 p1.
  destruct (integrate_motion_inv P V F dt lo hi damping count) as [Hlo _].
  specialize (Hlo i a Hi); fold P' V' in Hlo.
  unfold euler_axis in Hlo; cbv zeta in Hlo; fold v1 p1 in Hlo.
  unfold clamp_axis in Hlo.
  repeat split; intros;
    revert Hlo; cmp_cases; intros Hlo; inversion Hlo; auto; lra.
Qed.

Lemma integrate_motion_euler_witness :
  let P' := fst (integrate_motion origin_sample (fun _ => vzero)
                   (fun _ => V3 0 (-9.81) 0) 1 (V3 (-3) (-1) (-3)) (V3 3 5 3)
                   (-0.5) 1) in
  let V' := snd (integrate_motion origin_sample (fun _ => vzero)
                   (fun _ => V3 0 (-9.81) 0) 1 (V3 (-3) (-1) (-3)) (V3 3 5 3)
                   (-0.5) 1) in
  vy (P' 0%nat) = -1 /\ vy (V' 0%nat) = (0 + -9.81 * 1) * -0.5.
Proof.
  intros P' V'.
  destruct (integrate_motion_euler origin_sample (fun _ => vzero)
              (fun _ => V3 0 (-9.81) 0) 1 (V3 (-3) (-1) (-3)) (V3 3 5 3)
              (-0.5) 1 0 A1 (Nat.lt_0_succ 0)) as (Hbelow & _ & _).
  apply Hbelow; simpl; lra.
Defined.

(** ** Invariants of the reachable states *)

Lemma init_Returned (n : Z) (h rho mu k : R) (g : gravity_arg)
    (sample : array vec3) (capacity : Z) (s : SPHSystem) :
  __init__ n h rho mu k g sample capacity = Returned s ->
  exists gl,
    gravity_or_default g = Returned gl /\ (0 <= n)%Z /\ h <> 0 /\
    s = mkSPH (Z.to_nat n) h rho mu k gl sample (fun _ => vzero)
          (fun _ => rho) (fun _ => 0) (fun _ => vzero)
          (V3 (-3) (-1) (-3)) (V3 3 5 3) (-0.5) (8 / (PI * h ^ 4)) (k * rho).
Proof.
  unfold __init__; intros H.
  apply bind_Returned in H; destruct H as (gl & Hg & H).
  destruct (n <? 0)%Z eqn:En; [discriminate|].
  apply Z.ltb_ge in En.
  destruct (capacity <? n)%Z; [discriminate|].
  apply bind_Returned in H; destruct H as (p & Hp & H).
  apply bind_Returned in H; destruct H as (kc & Hkc & H).
  unfold pydiv in Hkc; revert Hkc; cmp_cases; intros Hkc; [discriminate|].
  inversion Hkc; subst kc; clear Hkc.
  apply float_pow_Returned in Hp.
  destruct Hp as [[Hp _]|[Hp _]]; [exfalso; apply E; rewrite Hp; ring|].
  subst p.
  match type of H with (if ?c then _ else _) = _ => destruct c end;
    [| discriminate].
  inversion H; subst s; clear H.
  exists gl; repeat split; auto.
  intros Hh; apply E; subst h; simpl; ring.
Qed.

(** The constructor returns only for a count the machine can allocate and
    with values in the range of their formats. *)
Lemma init_Returned_ranges (n : Z) (h rho mu k : R) (g : gravity_arg)
    (sample : array vec3) (capacity : Z) (s : SPHSystem) :
  __init__ n h rho mu k g sample capacity = Returned s ->
  (0 <= n <= capacity)%Z /\
  / 2 ^ 1022 <= Rabs (h ^ 4) <= float64_max /\
  Rabs rho <= float32_max /\ Rabs (k * rho) <= float64_max.
Proof.
  unfold __init__; intros H.
  apply bind_Returned in H; destruct H as (gl & Hg & H).
  destruct (n <? 0)%Z eqn:En; [discriminate|].
  apply Z.ltb_ge in En.
  destruct (capacity <? n)%Z eqn:Ec; [discriminate|].
  apply Z.ltb_ge in Ec.
  apply bind_Returned in H; destruct H as (p & Hp & H).
  apply bind_Returned in H; destruct H as (kc & Hkc & H).
  unfold pydiv in Hkc; revert Hkc; cmp_cases; intros Hkc; [discriminate|].
  apply float_pow_Returned in Hp.
  destruct Hp as [[Hp _]|[Hp Hr]]; [exfalso; apply E; rewrite Hp; ring|].
  destruct (forallb (fits float32_max) gl); [| discriminate].
  destruct (fits float32_max rho) eqn:E1; [| discriminate].
  destruct (fits float64_max (PI * p)); [| discriminate].
  destruct (fits float64_max (k * rho)) eqn:E2; [| discriminate].
  apply fits_true in E1; apply fits_true in E2.
  split; [lia | split; [exact Hr | split; assumption]].
Qed.

Lemma reachable_inv (s : SPHSystem) :
  reachable s ->
  boundary_min s = V3 (-3) (-1) (-3) /\
  boundary_max s = V3 3 5 3 /\
  (forall i, in_box s (positions s i)) /\
  (forall i, forces s i = vzero).
Proof.
  induction 1 as [n h rho mu k g sample capacity s Hcube Hinit
                 | s dt s' Hreach (Hmin & Hmax & Hbox & Hforce) Hstep].
  - apply init_Returned in Hinit; destruct Hinit as (gl & _ & _ & _ & ->).
    simpl; split; [reflexivity | split; [reflexivity | split]];
      [| reflexivity].
    intros i a; destruct (Hcube i a) as [Hl Hu]; destruct a; simpl in *; lra.
  - apply update_Returned in Hstep.
    destruct Hstep as (d' & p' & f' & _ & _ & Hint & _ & _ & Hf & Hcfg).
    destruct Hcfg as (_ & _ & _ & _ & _ & _ & Hmin' & Hmax' & _).
    split; [congruence | split; [congruence | split]].
    + intros i a. unfold in_box in Hbox.
      rewrite Hmin', Hmax'.
      generalize (integrate_motion_inv (positions s) (velocities s) f' dt
                    (boundary_min s) (boundary_max s) (boundary_damping s)
                    (particle_count s)).
      rewrite <- Hint; intros [Hlo Hhi]; simpl in Hlo, Hhi.
      destruct (Nat.lt_ge_cases i (particle_count s)) as [Hi|Hi].
      * specialize (Hlo i a Hi).
        assert (Hp : get (positions s' i) a
                     = fst (euler_axis (get (positions s i) a)
                              (get (velocities s i) a) (get (f' i) a) dt
                              (get (boundary_min s) a) (get (boundary_max s) a)
                              (boundary_damping s)))
          by (rewrite <- Hlo; reflexivity).
        rewrite Hp; unfold euler_axis; cbv zeta.
        apply clamp_axis_in_range.
        destruct (Hbox i a); lra.
      * destruct (Hhi i Hi) as [-> _]. apply Hbox.
    + intros i; rewrite Hf; reflexivity.
Qed.

Lemma origin_in_cube (i : nat) : in_cube (origin_sample i).
Proof. intros a; destruct a; simpl; lra. Qed.

Lemma demo_reachable : reachable demo.
Proof.
  exact (reach_init 1 0.1 1000 0.1 3 GNone origin_sample 5000 demo
           origin_in_cube demo_constructed).
Qed.

(** ** The one-particle system, step by step *)

(** With a single particle the inner loops meet only the pair [i == j]. *)
Lemma single_pair_forces (pos vel : array vec3) (d p : array R) (h mu : R) :
  pair_forces pos vel d p h mu 1 0 = Returned (vzero, vzero).
Proof. reflexivity. Qed.

(** One step of [demo]: the particle falls freely as long as it stays
    above the floor of the box. *)
Lemma demo_step_free_fall (dt : R) :
  -1 <= -9.81 * dt * dt <= 5 ->
  vy (velocities (demo_step dt) 0%nat) = -9.81 * dt /\
  vy (positions (demo_step dt) 0%nat) = -9.81 * dt * dt.
Proof.
  intros Hin.
  generalize (demo_update dt); intros Hstep.
  apply update_Returned in Hstep.
  destruct Hstep as (d' & p' & f' & _ & Hf & Hint & _).
  assert (Hi : (0 < particle_count demo)%nat) by (simpl; lia).
  destruct (force_pass_spec _ _ _ _ _ _ _ _ _ _ f' 0%nat Hf Hi)
    as (g1 & pf & vf & Hg & Hpair & Hf0).
  simpl in Hg; inversion Hg; subst g1; clear Hg.
  simpl particle_count in Hpair; rewrite single_pair_forces in Hpair.
  inversion Hpair; subst pf vf; clear Hpair.
  destruct (integrate_motion_inv (positions demo) (velocities demo) f' dt
              (boundary_min demo) (boundary_max demo) (boundary_damping demo)
              (particle_count demo)) as [Hlo _].
  specialize (Hlo 0%nat A1 Hi); rewrite <- Hint, Hf0 in Hlo; simpl in Hlo.
  unfold euler_axis in Hlo; cbv zeta in Hlo.
  rewrite clamp_axis_inside in Hlo by lra.
  inversion Hlo as [[Hp Hv]]; rewrite Hp, Hv; split; lra.
Qed.

(** ** Invalid step input *)

(** C2, as the code has it.  [update] performs no validation of [dt]:
    whether the call returns does not depend on [dt].  If it returns for
    one value it returns for every other one, negative ones included, with
    the same configuration, the same recomputed densities and pressures
    and the force buffer reset, and it has integrated the positions and
    velocities with the value given: with [f] the forces of the step,
    which do not depend on [dt], every coordinate of every particle has
    taken the Euler step [v1 = v + f * dt], [p1 = p + v1 * dt] followed by
    the boundary handling ([euler_axis]), for [dt] in the first call and
    for [dt'] in the second. *)
Theorem update_accepts_any_dt (s s1 : SPHSystem) (dt dt' : R) :
  update s dt = Returned s1 ->
  exists s2 f,
    update s dt' = Returned s2 /\
    same_config s s2 /\
    densities s2 = densities s1 /\
    pressures s2 = pressures s1 /\
    (forall i, forces s2 i = vzero) /\
    calculate_forces (positions s) (velocities s) (densities s1) (pressures s1)
      (forces s) (smoothing_radius s) (viscosity s) (kernel_constant s)
      (gravity s) (particle_count s) = Returned f /\
    (forall i a, (i < particle_count s)%nat ->
       (get (positions s1 i) a, get (velocities s1 i) a)
       = euler_axis (get (positions s i) a) (get (velocities s i) a)
           (get (f i) a) dt (get (boundary_min s) a) (get (boundary_max s) a)
           (boundary_damping s) /\
       (get (positions s2 i) a, get (velocities s2 i) a)
       = euler_axis (get (positions s i) a) (get (velocities s i) a)
           (get (f i) a) dt' (get (boundary_min s) a) (get (boundary_max s) a)
           (boundary_damping s)).
Proof.
  intros H; apply update_Returned in H.
  destruct H as (d' & p' & f' & Hd & Hf & Hint & Hd1 & Hp1 & _).
  unfold update; rewrite Hd; simpl; rewrite Hf; simpl.
  destruct (integrate_motion _ _ f' dt' _ _ _ _) as [P' V'] eqn:Hint'.
  eexists; exists f'; split; [reflexivity|].
  unfold same_config; simpl.
  split; [repeat split; auto|].
  split; [auto|]. split; [auto|]. split; [auto|].
  split; [rewrite Hd1, Hp1; exact Hf|].
  intros i a Hi.
  assert (Hstep : forall t P V,
            (P, V) = integrate_motion (positions s) (velocities s) f' t
                       (boundary_min s) (boundary_max s) (boundary_damping s)
                       (particle_count s) ->
            (get (P i) a, get (V i) a)
            = euler_axis (get (positions s i) a) (get (velocities s i) a)
                (get (f' i) a) t (get (boundary_min s) a)
                (get (boundary_max s) a) (boundary_damping s)).
  { intros t0 P V E.
    destruct (integrate_motion_inv (positions s) (velocities s) f' t0
                (boundary_min s) (boundary_max s) (boundary_damping s)
                (particle_count s)) as [Hlo _].
    rewrite <- E in Hlo; exact (Hlo i a Hi). }
  split; [exact (Hstep dt _ _ Hint) | exact (Hstep dt' P' V' (eq_sym Hint'))].
Qed.

Lemma update_accepts_any_dt_witness :
  exists s2 f,
    update demo (-0.1) = Returned s2 /\
    same_config demo s2 /\
    densities s2 = densities (demo_step 0.01) /\
    pressures s2 = pressures (demo_step 0.01) /\
    (forall i, forces s2 i = vzero) /\
    calculate_forces (positions demo) (velocities demo)
      (densities (demo_step 0.01)) (pressures (demo_step 0.01))
      (forces demo) (smoothing_radius demo) (viscosity demo)
      (kernel_constant demo) (gravity demo) (particle_count demo)
    = Returned f /\
    (forall i a, (i < particle_count demo)%nat ->
       (get (positions (demo_step 0.01) i) a,
        get (velocities (demo_step 0.01) i) a)
       = euler_axis (get (positions demo i) a) (get (velocities demo i) a)
           (get (f i) a) 0.01 (get (boundary_min demo) a)
           (get (boundary_max demo) a) (boundary_damping demo) /\
       (get (positions s2 i) a, get (velocities s2 i) a)
       = euler_axis (get (positions demo i) a) (get (velocities demo i) a)
           (get (f i) a) (-0.1) (get (boundary_min demo) a)
           (get (boundary_max demo) a) (boundary_damping demo)).
Proof.
  exact (update_accepts_any_dt demo (demo_step 0.01) 0.01 (-0.1)
           (demo_update 0.01)).
Defined.

(** C2, as the specification states it, fails: on the one-particle system
    the call [update(-0.1)] returns, and it has changed the velocity of
    the particle from [0] to [0.981] and its height from [0] to
    [-0.0981]. *)
Lemma update_negative_dt_counterexample :
  -0.1 < 0 /\
  update demo (-0.1) = Returned (demo_step (-0.1)) /\
  vy (velocities demo 0%nat) = 0 /\
  vy (velocities (demo_step (-0.1)) 0%nat) = 0.981 /\
  vy (positions demo 0%nat) = 0 /\
  vy (positions (demo_step (-0.1)) 0%nat) = -0.0981.
Proof.
  destruct (demo_step_free_fall (-0.1)) as [Hv Hp]; [lra|].
  repeat split; try reflexivity; try lra.
  apply demo_update.
Qed.

(** ** Construction *)

Lemma radius_factor_zero (h : R) : PI * h ^ 4 = 0 <-> h = 0.
Proof.
  split.
  - intros H.
    apply Rmult_integral in H; destruct H as [H|H].
    + generalize PI_RGT_0; lra.
    + destruct (Req_dec_T h 0) as [Hz|Hne]; [exact Hz|].
      exfalso; apply (pow_nonzero h 4 Hne); exact H.
  - intros ->; simpl; ring.
Qed.

Lemma init_gravity_failure (n : Z) (h rho mu k : R) (g : gravity_arg)
    (sample : array vec3) (capacity : Z) (e : exn) :
  truth_value g = Raised e ->
  __init__ n h rho mu k g sample capacity = Raised e.
Proof.
  intros H; unfold __init__, gravity_or_default; rewrite H; reflexivity.
Qed.

Lemma init_negative_count (n : Z) (h rho mu k : R) (g : gravity_arg)
    (sample : array vec3) (capacity : Z) (gl : list R) :
  gravity_or_default g = Returned gl ->
  (n < 0)%Z ->
  __init__ n h rho mu k g sample capacity = Raised ValueError.
Proof.
  intros Hg Hn; unfold __init__; rewrite Hg; simpl.
  apply Z.ltb_lt in Hn; rewrite Hn; reflexivity.
Qed.

(** A radius whose fourth power is zero, or underflows to zero, divides
    by zero. *)
Lemma init_radius_underflow (n : Z) (h rho mu k : R) (g : gravity_arg)
    (sample : array vec3) (capacity : Z) (gl : list R) :
  gravity_or_default g = Returned gl ->
  (0 <= n <= capacity)%Z ->
  Rabs (h ^ 4) <= / 2 ^ 1076 ->
  __init__ n h rho mu k g sample capacity = Raised ZeroDivisionError.
Proof.
  intros Hg [Hn0 Hn1] Hh; unfold __init__; rewrite Hg; simpl.
  apply Z.ltb_ge in Hn0; rewrite Hn0.
  apply Z.ltb_ge in Hn1; rewrite Hn1.
  rewrite (float_pow_underflow h 4 Hh); cbn [bind].
  unfold pydiv; cmp_cases; [reflexivity|].
  exfalso; apply E; ring.
Qed.

Lemma init_radius_overflow (n : Z) (h rho mu k : R) (g : gravity_arg)
    (sample : array vec3) (capacity : Z) (gl : list R) :
  gravity_or_default g = Returned gl ->
  (0 <= n <= capacity)%Z ->
  2 ^ 1025 <= Rabs (h ^ 4) ->
  __init__ n h rho mu k g sample capacity = Raised OverflowError.
Proof.
  intros Hg [Hn0 Hn1] Hh; unfold __init__; rewrite Hg; simpl.
  apply Z.ltb_ge in Hn0; rewrite Hn0.
  apply Z.ltb_ge in Hn1; rewrite Hn1.
  rewrite (float_pow_overflow h 4 Hh); reflexivity.
Qed.

(** C3, as the code has it.  The constructor validates nothing.  Of the
    values the specification rules out it accepts a zero [particle_count],
    a negative [smoothing_radius] and a zero or negative [rest_density]:
    when [gravity] has a truth value, the count is between zero and what
    the machine can allocate, the radius has a moderate magnitude (between
    [1e-70] and [1e70]) and the values stored are in the range of their
    formats, it returns a system with every field initialised.  It fails
    where one of its operations fails: a [gravity] whose truth value
    raises, a negative count ([ValueError] from the allocation), a radius
    that is zero or whose fourth power underflows to zero
    ([ZeroDivisionError]), a radius whose fourth power overflows
    ([OverflowError]).  The system it returns, if any, has every field
    initialised: a construction that fails returns no system. *)
Theorem init_validates_nothing (n : Z) (h rho mu k : R) (g : gravity_arg)
    (sample : array vec3) (capacity : Z) :
  (forall e,
     truth_value g = Raised e ->
     __init__ n h rho mu k g sample capacity = Raised e)
  /\
  (forall gl,
     gravity_or_default g = Returned gl ->
     ((0 <= n <= capacity)%Z ->
      1e-70 <= Rabs h <= 1e70 ->
      Forall (fun x => Rabs x <= float32_max) gl ->
      Rabs rho <= float32_max ->
      Rabs (k * rho) <= float64_max ->
      __init__ n h rho mu k g sample capacity
      = Returned
          (mkSPH (Z.to_nat n) h rho mu k gl sample (fun _ => vzero)
             (fun _ => rho) (fun _ => 0) (fun _ => vzero)
             (V3 (-3) (-1) (-3)) (V3 3 5 3) (-0.5) (8 / (PI * h ^ 4))
             (k * rho)))
     /\
     ((n < 0)%Z ->
      __init__ n h rho mu k g sample capacity = Raised ValueError)
     /\
     ((0 <= n <= capacity)%Z -> Rabs (h ^ 4) <= / 2 ^ 1076 ->
      __init__ n h rho mu k g sample capacity = Raised ZeroDivisionError)
     /\
     ((0 <= n <= capacity)%Z -> 2 ^ 1025 <= Rabs (h ^ 4) ->
      __init__ n h rho mu k g sample capacity = Raised OverflowError)
     /\
     (forall s,
        __init__ n h rho mu k g sample capacity = Returned s ->
        (0 <= n <= capacity)%Z /\ h <> 0 /\
        s = mkSPH (Z.to_nat n) h rho mu k gl sample (fun _ => vzero)
              (fun _ => rho) (fun _ => 0) (fun _ => vzero)
              (V3 (-3) (-1) (-3)) (V3 3 5 3) (-0.5) (8 / (PI * h ^ 4))
              (k * rho))).
Proof.
  split; [intros e He; apply init_gravity_failure; exact He|].
  intros gl Hg; repeat split.
  - intros; apply init_accepts; assumption.
  - intros; eapply init_negative_count; eauto.
  - intros; eapply init_radius_underflow; eauto.
  - intros; eapply init_radius_overflow; eauto.
  - destruct (init_Returned_ranges _ _ _ _ _ _ _ _ _ H) as ((Hn & _) & _).
    exact Hn.
  - destruct (init_Returned_ranges _ _ _ _ _ _ _ _ _ H) as ((_ & Hc) & _).
    exact Hc.
  - destruct (init_Returned _ _ _ _ _ _ _ _ _ H) as (gl' & _ & _ & Hh & _).
    exact Hh.
  - destruct (init_Returned _ _ _ _ _ _ _ _ _ H) as (gl' & Hg' & _ & _ & ->).
    rewrite Hg in Hg'; inversion Hg'; reflexivity.
Qed.

Lemma init_validates_nothing_witness :
  __init__ 0 (-0.1) (-1000) 0.1 3 GNone origin_sample 5000
  = Returned
      (mkSPH 0 (-0.1) (-1000) 0.1 3 default_gravity origin_sample
         (fun _ => vzero) (fun _ => -1000) (fun _ => 0) (fun _ => vzero)
         (V3 (-3) (-1) (-3)) (V3 3 5 3) (-0.5) (8 / (PI * (-0.1) ^ 4))
         (3 * -1000)).
Proof.
  assert (Hg : gravity_or_default GNone = Returned default_gravity)
    by reflexivity.
  destruct (init_validates_nothing 0 (-0.1) (-1000) 0.1 3 GNone origin_sample
              5000) as (_ & Hlist).
  destruct (Hlist default_gravity Hg) as (Hok & _).
  apply Hok.
  - lia.
  - rewrite Rabs_left by lra; lra.
  - exact default_gravity_fits.
  - unfold float32_max; apply Rabs_le; lra.
  - unfold float64_max; apply Rabs_le; lra.
Defined.

(** C3, as the specification states it, fails: with [particle_count = 0],
    a negative [smoothing_radius] and a negative [rest_density] at once,
    the constructor returns a system. *)
Lemma init_nonpositive_counterexample :
  (0 <= 0)%Z /\ -0.1 <= 0 /\ -1000 <= 0 /\
  __init__ 0 (-0.1) (-1000) 0.1 3 GNone origin_sample 5000
  = Returned
      (mkSPH 0 (-0.1) (-1000) 0.1 3 default_gravity origin_sample
         (fun _ => vzero) (fun _ => -1000) (fun _ => 0) (fun _ => vzero)
         (V3 (-3) (-1) (-3)) (V3 3 5 3) (-0.5) (8 / (PI * (-0.1) ^ 4))
         (3 * -1000)).
Proof.
  repeat split; try lra; try lia.
  apply (init_accepts 0 (-0.1) (-1000) 0.1 3 GNone origin_sample 5000
           default_gravity).
  - reflexivity.
  - lia.
  - rewrite Rabs_left by lra; lra.
  - exact default_gravity_fits.
  - unfold float32_max; apply Rabs_le; lra.
  - unfold float64_max; apply Rabs_le; lra.
Qed.

(** C10, as the code has it.  Whatever the other arguments, a [gravity]
    given as a numpy array of two or more elements makes the constructor
    raise [ValueError].  When the other arguments are accepted and the
    elements given are in the range of float32, [None] and the empty list
    give the default vector, a non-empty list is used as given, and so is
    an array of one element that is not zero; an array holding the single
    element [0.0] gives the default vector. *)
Theorem init_gravity_array (n : Z) (h rho mu k : R) (sample : array vec3)
    (capacity : Z) :
  (forall x y rest,
     __init__ n h rho mu k (GArray (x :: y :: rest)) sample capacity
     = Raised ValueError) /\
  ((0 <= n <= capacity)%Z ->
   1e-70 <= Rabs h <= 1e70 ->
   Rabs rho <= float32_max ->
   Rabs (k * rho) <= float64_max ->
   (exists s, __init__ n h rho mu k GNone sample capacity = Returned s /\
              gravity s = default_gravity) /\
   (exists s, __init__ n h rho mu k (GList []) sample capacity = Returned s /\
              gravity s = default_gravity) /\
   (forall x l,
      Forall (fun y => Rabs y <= float32_max) (x :: l) ->
      exists s, __init__ n h rho mu k (GList (x :: l)) sample capacity
                = Returned s /\
                gravity s = x :: l) /\
   (forall x,
      x <> 0 -> Rabs x <= float32_max ->
      exists s, __init__ n h rho mu k (GArray [x]) sample capacity
                = Returned s /\
                gravity s = [x]) /\
   (exists s, __init__ n h rho mu k (GArray [0]) sample capacity
              = Returned s /\
              gravity s = default_gravity)).
Proof.
  split.
  - intros x y rest; apply init_gravity_failure; reflexivity.
  - intros Hn Hh Hrho Hpc.
    assert (Hzero : gravity_or_default (GArray [0]) = Returned default_gravity).
    { unfold gravity_or_default; simpl.
      assert (E : (0 =? 0) = true) by (apply Reqb_true; reflexivity).
      rewrite E; reflexivity. }
    repeat split.
    + eexists; split;
        [apply (init_accepts n h rho mu k GNone sample capacity default_gravity);
         try assumption; [reflexivity | exact default_gravity_fits]
        | reflexivity].
    + eexists; split;
        [apply (init_accepts n h rho mu k (GList []) sample capacity
                  default_gravity);
         try assumption; [reflexivity | exact default_gravity_fits]
        | reflexivity].
    + intros x l Hfit.
      eexists; split;
        [apply (init_accepts n h rho mu k (GList (x :: l)) sample capacity
                  (x :: l));
         try assumption; reflexivity
        | reflexivity].
    + intros x Hx Hfit.
      assert (Hone : gravity_or_default (GArray [x]) = Returned [x]).
      { unfold gravity_or_default; simpl.
        apply Reqb_false in Hx; rewrite Hx; reflexivity. }
      eexists; split;
        [apply (init_accepts n h rho mu k (GArray [x]) sample capacity [x]);
         try assumption; apply Forall_cons; [assumption | apply Forall_nil]
        | reflexivity].
    + eexists; split;
        [apply (init_accepts n h rho mu k (GArray [0]) sample capacity
                  default_gravity);
         try assumption; exact default_gravity_fits
        | reflexivity].
Qed.

Lemma init_gravity_array_witness :
  __init__ 1 0.1 1000 0.1 3 (GArray [0; -9.81; 0]) origin_sample 5000
  = Raised ValueError /\
  (exists s, __init__ 1 0.1 1000 0.1 3 GNone origin_sample 5000 = Returned s /\
             gravity s = default_gravity) /\
  (exists s, __init__ 1 0.1 1000 0.1 3 (GList [0; -9.81; 0]) origin_sample 5000
             = Returned s /\
             gravity s = [0; -9.81; 0]).
Proof.
  destruct (init_gravity_array 1 0.1 1000 0.1 3 origin_sample 5000)
    as [Harr Hok].
  assert (Hn : (0 <= 1 <= 5000)%Z) by lia.
  assert (Hh : 1e-70 <= Rabs 0.1 <= 1e70) by (rewrite Rabs_right by lra; lra).
  assert (Hrho : Rabs 1000 <= float32_max)
    by (unfold float32_max; apply Rabs_le; lra).
  assert (Hpc : Rabs (3 * 1000) <= float64_max)
    by (unfold float64_max; apply Rabs_le; lra).
  destruct (Hok Hn Hh Hrho Hpc) as (Hnone & _ & Hlist & _).
  split; [apply Harr | split; [exact Hnone | apply Hlist]].
  exact default_gravity_fits.
Defined.

(** C10, as the specification states its last clause, fails: it is not
    only [None] or a true value other than an array that is accepted.  A
    numpy array of one element constructs a system that uses it, and so
    does the empty list, which is false. *)
Lemma init_gravity_counterexample :
  truth_value (GList []) = Returned false /\
  __init__ 1 0.1 1000 0.1 3 (GList []) origin_sample 5000 = Returned demo /\
  (exists s, __init__ 1 0.1 1000 0.1 3 (GArray [5]) origin_sample 5000
             = Returned s /\
             gravity s = [5]).
Proof.
  assert (Hn : (0 <= 1 <= 5000)%Z) by lia.
  assert (Hh : 1e-70 <= Rabs 0.1 <= 1e70) by (rewrite Rabs_right by lra; lra).
  assert (Hrho : Rabs 1000 <= float32_max)
    by (unfold float32_max; apply Rabs_le; lra).
  assert (Hpc : Rabs (3 * 1000) <= float64_max)
    by (unfold float64_max; apply Rabs_le; lra).
  split; [reflexivity | split].
  - apply (init_accepts 1 0.1 1000 0.1 3 (GList []) origin_sample 5000
             default_gravity); try assumption;
      [reflexivity | exact default_gravity_fits].
  - assert (Hone : gravity_or_default (GArray [5]) = Returned [5]).
    { unfold gravity_or_default; simpl.
      assert (E : (5 =? 0) = false) by (apply Reqb_false; lra).
      rewrite E; reflexivity. }
    eexists; split;
      [apply (init_accepts 1 0.1 1000 0.1 3 (GArray [5]) origin_sample 5000
                [5]); try assumption
      | reflexivity].
    apply Forall_cons; [| apply Forall_nil].
    unfold float32_max; apply Rabs_le; lra.
Qed.

(** ** Gravity in the force pass *)

(** The pass reads [gravity] at index 1 only: two gravity vectors with the
    same second component give the same forces. *)
Lemma force_pass_reads_gravity_1 (pos vel : array vec3) (d p : array R)
    (f0 : array vec3) (h mu kc : R) (g g' : list R) (count : nat) :
  nth_error g 1 = nth_error g' 1 ->
  calculate_forces pos vel d p f0 h mu kc g count
  = calculate_forces pos vel d p f0 h mu kc g' count.
Proof.
  intros H; unfold calculate_forces, read; rewrite H; reflexivity.
Qed.

(** C6, as the code has it.  For every particle [i] the force pass takes
    the value already in [forces[i]] (zero in every state of a simulation),
    adds [gravity[1]] to its second component and nothing to the other
    two, and then adds the pressure and viscosity sums. *)
Theorem force_pass_gravity_y_only (pos vel : array vec3) (d p : array R)
    (f0 : array vec3) (h mu kc : R) (gravity : list R) (count : nat)
    (f' : array vec3) (i : nat) :
  calculate_forces pos vel d p f0 h mu kc gravity count = Returned f' ->
  (i < count)%nat ->
  exists g1 pf vf,
    nth_error gravity 1 = Some g1 /\
    pair_forces pos vel d p h mu count i = Returned (pf, vf) /\
    f' i = vadd (vadd (V3 (vx (f0 i)) (vy (f0 i) + g1) (vz (f0 i))) pf) vf.
Proof.
  intros H Hi.
  destruct (force_pass_spec _ _ _ _ _ _ _ _ _ _ f' i H Hi)
    as (g1 & pf & vf & Hg & Hpair & Hf).
  exists g1, pf, vf; repeat split; auto.
Qed.

Lemma slanted_forces_returned :
  calculate_forces origin_sample (fun _ => vzero) (fun _ => 1000)
    (fun _ => 0) (fun _ => vzero) 0.1 0.1 (8 / (PI * 0.1 ^ 4)) [1; 2; 3] 1
  = Returned slanted_forces.
Proof. reflexivity. Qed.

Lemma force_pass_gravity_y_only_witness :
  exists g1 pf vf,
    nth_error [1; 2; 3] 1 = Some g1 /\
    pair_forces origin_sample (fun _ => vzero) (fun _ => 1000) (fun _ => 0)
      0.1 0.1 1 0 = Returned (pf, vf) /\
    slanted_forces 0%nat
    = vadd (vadd (V3 (vx vzero) (vy vzero + g1) (vz vzero)) pf) vf.
Proof.
  apply (force_pass_gravity_y_only origin_sample (fun _ => vzero)
           (fun _ => 1000) (fun _ => 0) (fun _ => vzero) 0.1 0.1
           (8 / (PI * 0.1 ^ 4)) [1; 2; 3] 1 slanted_forces 0%nat
           slanted_forces_returned).
  lia.
Defined.

(** C6, as the specification states it, fails: with
    [gravity = [1, 2, 3]], one particle and an empty force buffer, the
    force pass leaves [(0, 2, 0)] in [forces[0]], not [(1, 2, 3)]. *)
Lemma force_pass_gravity_counterexample :
  calculate_forces origin_sample (fun _ => vzero) (fun _ => 1000)
    (fun _ => 0) (fun _ => vzero) 0.1 0.1 (8 / (PI * 0.1 ^ 4)) [1; 2; 3] 1
  = Returned slanted_forces /\
  slanted_forces 0%nat = V3 0 2 0 /\
  slanted_forces 0%nat <> V3 1 2 3.
Proof.
  assert (H : slanted_forces 0%nat = V3 0 2 0).
  { apply vec3_ext; intros a; destruct a; simpl; lra. }
  split; [reflexivity | split; [exact H|]].
  rewrite H; intros E.
  assert (E0 : vx (V3 0 2 0) = vx (V3 1 2 3)) by (rewrite E; reflexivity).
  simpl in E0; lra.
Qed.

(** ** The viscosity term *)

(** The iteration for a neighbour that passes the cutoff and the guard. *)
Lemma force_body_neighbour (pos vel : array vec3) (d p : array R)
    (h mu : R) (i j : nat) (pf vf : vec3) :
  i <> j ->
  dist_sq (pos i) (pos j) < h * h ->
  1e-8 < sqrt (dist_sq (pos i) (pos j)) ->
  d j <> 0 ->
  let r := sqrt (dist_sq (pos i) (pos j)) in
  let grad_kernel :=
    compute_kernel_gradient (vx (pos i) - vx (pos j)) (vy (pos i) - vy (pos j))
      (vz (pos i) - vz (pos j)) r h in
  force_body pos vel d p h mu i j (pf, vf)
  = Returned
      (vsub pf (vscale grad_kernel ((p i + p j) / (2 * d j))),
       vadd vf (vmul (smul mu (vsub (vel j) (vel i)))
                     (vdiv grad_kernel (d j)))).
Proof.
  intros Hij Hcut Hguard Hd; cbv zeta.
  unfold force_body.
  apply Nat.eqb_neq in Hij; rewrite Hij; cbv zeta.
  unfold dist_sq in *; cbv zeta in *.
  apply Rltb_true in Hcut; rewrite Hcut.
  apply Rgtb_true in Hguard; rewrite Hguard.
  rewrite ndiv_nonzero by lra; reflexivity.
Qed.

(** C5, as the code has it.  For a neighbour [j <> i] inside the cutoff,
    at a distance [r] above the guard and with a density that is not zero,
    one iteration of the inner loop adds to every component [a] of
    [viscosity_force] the product of the viscosity, of the velocity
    difference on that component, and of the component [a] of the kernel
    gradient divided by [densities[j]]; the component of the gradient is
    the coordinate difference on [a] divided by [r], times the scalar
    magnitude. *)
Theorem viscosity_contribution (pos vel : array vec3) (d p : array R)
    (h mu : R) (i j : nat) (pf vf : vec3) :
  i <> j ->
  dist_sq (pos i) (pos j) < h * h ->
  1e-8 < sqrt (dist_sq (pos i) (pos j)) ->
  d j <> 0 ->
  exists pf' vf',
    force_body pos vel d p h mu i j (pf, vf) = Returned (pf', vf') /\
    forall a,
      let r := sqrt (dist_sq (pos i) (pos j)) in
      get vf' a
      = get vf a
        + mu * (get (vel j) a - get (vel i) a)
          * ((get (pos i) a - get (pos j) a) / r * grad_mag h (r / h) / d j).
Proof.
  intros Hij Hcut Hguard Hd.
  rewrite force_body_neighbour by assumption.
  eexists; eexists; split; [reflexivity|].
  intros a; unfold compute_kernel_gradient; cbv zeta.
  apply Rgtb_true in Hguard; rewrite Hguard.
  destruct a; simpl; unfold Rdiv; ring.
Qed.

Lemma pair_distance : dist_sq (pair_pos 0%nat) (pair_pos 1%nat) = 1.
Proof. unfold dist_sq, pair_pos; simpl; ring. Qed.

Lemma viscosity_contribution_witness :
  exists pf' vf',
    force_body pair_pos pair_vel (fun _ => 1) (fun _ => 0) 2 1 0 1
      (vzero, vzero) = Returned (pf', vf') /\
    forall a,
      let r := sqrt (dist_sq (pair_pos 0%nat) (pair_pos 1%nat)) in
      get vf' a
      = get vzero a
        + 1 * (get (pair_vel 1%nat) a - get (pair_vel 0%nat) a)
          * ((get (pair_pos 0%nat) a - get (pair_pos 1%nat) a) / r
             * grad_mag 2 (r / 2) / 1).
Proof.
  apply (viscosity_contribution pair_pos pair_vel (fun _ => 1) (fun _ => 0)
           2 1 0 1 vzero vzero).
  - discriminate.
  - rewrite pair_distance; lra.
  - rewrite pair_distance, sqrt_1; lra.
  - lra.
Defined.

Lemma grad_mag_half_radius : grad_mag 2 (1 / 2) = - (3 / (16 * PI)).
Proof.
  unfold grad_mag.
  assert (H : (1 / 2 <=? 0.5) = true) by (apply Rleb_true; lra).
  rewrite H; field.
  apply Rgt_not_eq, PI_RGT_0.
Qed.

(** C5, as the specification states it, fails.  Take two particles one
    unit apart along the first axis, radius [2], unit viscosity and
    density, the neighbour moving along the second axis.  The pair is
    inside the cutoff and above the guard; the iteration adds [0] to the
    second component of [viscosity_force], whereas the velocity difference
    scaled by the gradient magnitude over the density has
    [- 3 / (16 * PI)] there. *)
Lemma viscosity_counterexample :
  dist_sq (pair_pos 0%nat) (pair_pos 1%nat) < 2 * 2 /\
  1e-8 < sqrt (dist_sq (pair_pos 0%nat) (pair_pos 1%nat)) /\
  (exists pf' vf',
     force_body pair_pos pair_vel (fun _ => 1) (fun _ => 0) 2 1 0 1
       (vzero, vzero) = Returned (pf', vf') /\
     vy vf' = 0) /\
  vy (viscosity_term_spec 1 (pair_vel 0%nat) (pair_vel 1%nat)
        (grad_mag 2 (sqrt (dist_sq (pair_pos 0%nat) (pair_pos 1%nat)) / 2)) 1)
  = - (3 / (16 * PI)) /\
  - (3 / (16 * PI)) <> 0.
Proof.
  assert (HPI : 0 < 3 / (16 * PI)).
  { apply Rdiv_lt_0_compat; [lra | generalize PI_RGT_0; lra]. }
  assert (Hcut : dist_sq (pair_pos 0%nat) (pair_pos 1%nat) < 2 * 2)
    by (rewrite pair_distance; lra).
  assert (Hguard : 1e-8 < sqrt (dist_sq (pair_pos 0%nat) (pair_pos 1%nat)))
    by (rewrite pair_distance, sqrt_1; lra).
  split; [exact Hcut | split; [exact Hguard|]].
  split; [| split; [| lra]].
  - eexists; eexists; split.
    + apply force_body_neighbour; [discriminate | exact Hcut | exact Hguard | lra].
    + unfold compute_kernel_gradient; cbv zeta.
      apply Rgtb_true in Hguard; rewrite Hguard.
      simpl; unfold Rdiv; ring.
  - rewrite pair_distance, sqrt_1, grad_mag_half_radius.
    unfold viscosity_term_spec; simpl; field.
    apply Rgt_not_eq, PI_RGT_0.
Qed.

(** * Further properties of the simulator *)

(** ** Pressure *)

(** X1.  After a call [update(dt)] that returns, the pressure of every
    particle is the equation of state applied to its density:
    [pressure_constant * (density / rest_density - 1)].  With a positive
    rest density and a pressure constant that is not negative it is never
    below [-0.9 * pressure_constant], and a particle with no neighbour
    under the cutoff has exactly that pressure. *)
Theorem pressure_equation_of_state (s s' : SPHSystem) (dt : R) (i : nat) :
  update s dt = Returned s' ->
  (i < particle_count s)%nat ->
  pressures s' i
  = pressure_constant s * (densities s' i / rest_density s - 1) /\
  (0 < rest_density s -> 0 <= pressure_constant s ->
   -0.9 * pressure_constant s <= pressures s' i) /\
  (0 < rest_density s ->
   (forall j, (j < particle_count s)%nat -> j <> i ->
      smoothing_radius s * smoothing_radius s
      <= dist_sq (positions s i) (positions s j)) ->
   pressures s' i = -0.9 * pressure_constant s).
Proof.
  intros H Hi.
  apply update_Returned in H.
  destruct H as (d' & p' & f' & Hd & _ & _ & -> & -> & _).
  destruct (density_pass_spec _ _ _ _ _ _ _ d' p' i Hd Hi) as (Hdi & Hpi & Hr).
  split; [exact Hpi | split].
  - intros Hrest Hpc; rewrite Hpi.
    assert (Hfloor : rest_density s * 0.1 <= d' i)
      by (rewrite Hdi; apply Rmax_r).
    assert (Hq : 0.1 <= d' i / rest_density s).
    { apply (Rmult_le_reg_r (rest_density s)); [exact Hrest|].
      replace (d' i / rest_density s * rest_density s) with (d' i)
        by (field; exact Hr).
      lra. }
    assert (0 <= pressure_constant s * (d' i / rest_density s - 0.1))
      by (apply Rmult_le_pos; lra).
    lra.
  - intros Hrest Hfar; rewrite Hpi, Hdi.
    rewrite density_sum_isolated by exact Hfar.
    rewrite Rmax_right by lra.
    replace (rest_density s * 0.1 / rest_density s) with 0.1; [lra|].
    apply (Rmult_eq_reg_r (rest_density s)); [| exact Hr].
    unfold Rdiv; rewrite Rmult_assoc, Rinv_l by exact Hr; lra.
Qed.

Lemma pressure_equation_of_state_witness :
  pressures (demo_step 0.01) 0%nat = -0.9 * pressure_constant demo.
Proof.
  destruct (pressure_equation_of_state demo (demo_step 0.01) 0.01 0%nat
              (demo_update 0.01)) as (_ & _ & Hiso).
  - simpl; lia.
  - apply Hiso; [simpl; lra|].
    intros j Hj Hne; simpl in Hj; lia.
Defined.

(** ** Shape of the density kernel *)

Lemma ratio_bounds (h r : R) : 0 < h -> 0 <= r < h -> 0 <= r / h < 1.
Proof.
  intros Hh [Hr0 Hrh].
  assert (E : r / h * h = r) by (field; apply Rgt_not_eq; exact Hh).
  split.
  - apply Rle_mult_inv_pos; assumption.
  - apply (Rmult_lt_reg_r h); [exact Hh | rewrite E; lra].
Qed.

Lemma W_inside (h r : R) :
  0 < h -> 0 <= r < h ->
  W r h = if r / h <=? 0.5 then spline_inner h (r / h)
          else spline_outer h (r / h).
Proof.
  intros Hh Hr; unfold W, density_term.
  assert (Hsq : r * r < h * h) by nra.
  apply Rltb_true in Hsq; rewrite Hsq; cbv zeta.
  rewrite sqrt_square by lra.
  destruct (ratio_bounds h r Hh Hr) as [_ Hq1].
  assert (Hle : (r / h <=? 1) = true) by (apply Rleb_true; lra).
  rewrite Hle; reflexivity.
Qed.

Lemma ratio_monotone (h r1 r2 : R) : 0 < h -> r1 <= r2 -> r1 / h <= r2 / h.
Proof.
  intros Hh Hr; unfold Rdiv.
  apply Rmult_le_compat_r; [| exact Hr].
  apply Rlt_le, Rinv_0_lt_compat; exact Hh.
Qed.

Lemma inner_polynomial_monotone (q1 q2 : R) :
  0 <= q1 -> q1 <= q2 -> q2 <= 1 / 2 ->
  1 - 6 * q2 * q2 + 6 * q2 * q2 * q2 <= 1 - 6 * q1 * q1 + 6 * q1 * q1 * q1.
Proof.
  intros H0 H12 H2.
  assert (F : (1 - 6 * q1 * q1 + 6 * q1 * q1 * q1)
              - (1 - 6 * q2 * q2 + 6 * q2 * q2 * q2)
              = 6 * ((q2 - q1) * ((q1 + q2) - (q1 * q1 + q1 * q2 + q2 * q2))))
    by ring.
  assert (B : 0 <= (q1 + q2) - (q1 * q1 + q1 * q2 + q2 * q2)) by nra.
  assert (P : 0 <= (q2 - q1) * ((q1 + q2) - (q1 * q1 + q1 * q2 + q2 * q2)))
    by (apply Rmult_le_pos; lra).
  lra.
Qed.

Lemma inner_polynomial_quarter (q : R) :
  0 <= q -> q <= 1 / 2 -> 1 / 4 <= 1 - 6 * q * q + 6 * q * q * q.
Proof.
  intros H0 H1.
  generalize (inner_polynomial_monotone q (1 / 2) H0 H1 (Rle_refl _)).
  lra.
Qed.

Lemma cube_monotone (a b : R) : 0 <= a -> a <= b -> a ^ 3 <= b ^ 3.
Proof. intros Ha Hab; apply pow_incr; split; assumption. Qed.

Lemma W_nonneg (h r : R) : 0 < h -> 0 <= r -> 0 <= W r h.
Proof.
  intros Hh Hr.
  destruct (Rlt_le_dec r h) as [Hlt|Hge].
  - rewrite W_inside by (try split; assumption).
    destruct (ratio_bounds h r Hh (conj Hr Hlt)) as [Hq0 Hq1].
    cmp_cases.
    + apply Rlt_le, spline_inner_pos; [exact Hh | lra].
    + apply Rlt_le, spline_outer_pos; [exact Hh | lra].
  - rewrite W_beyond by assumption; lra.
Qed.

Lemma W_decreasing (h r1 r2 : R) :
  0 < h -> 0 <= r1 -> r1 <= r2 -> W r2 h <= W r1 h.
Proof.
  intros Hh H1 H12.
  generalize (spline_constant_pos h Hh); intros HC.
  destruct (Rlt_le_dec r2 h) as [Hlt|Hge].
  - assert (Hr1 : 0 <= r1 < h) by lra.
    assert (Hr2 : 0 <= r2 < h) by lra.
    rewrite (W_inside h r1 Hh Hr1), (W_inside h r2 Hh Hr2).
    destruct (ratio_bounds h r1 Hh Hr1) as [Ha0 Ha1].
    destruct (ratio_bounds h r2 Hh Hr2) as [Hb0 Hb1].
    generalize (ratio_monotone h r1 r2 Hh H12).
    set (q1 := r1 / h) in *; set (q2 := r2 / h) in *; intros Hq.
    unfold spline_inner, spline_outer.
    set (C := 8 / (PI * h ^ 4)) in *.
    cmp_cases.
    + apply Rmult_le_compat_l; [lra|].
      apply inner_polynomial_monotone; lra.
    + lra.
    + assert (Hin : 1 / 4 <= 1 - 6 * q1 * q1 + 6 * q1 * q1 * q1)
        by (apply inner_polynomial_quarter; lra).
      assert (Hout : (1 - q2) ^ 3 <= (1 / 2) ^ 3)
        by (apply cube_monotone; lra).
      assert (E8 : (1 / 2) ^ 3 = 1 / 8) by (simpl; lra).
      rewrite E8 in Hout.
      apply Rle_trans with (C * (1 / 4)).
      * rewrite Rmult_assoc; apply Rmult_le_compat_l; lra.
      * apply Rmult_le_compat_l; lra.
    + rewrite !Rmult_assoc; apply Rmult_le_compat_l; [lra|].
      apply Rmult_le_compat_l; [lra|].
      apply cube_monotone; lra.
  - rewrite (W_beyond h r2 Hh Hge). apply W_nonneg; assumption.
Qed.

Lemma W_peak (h : R) : 0 < h -> W 0 h = 8 / (PI * h ^ 4).
Proof.
  intros Hh.
  rewrite W_inside by lra.
    assert (Hz : 0 / h = 0) by (unfold Rdiv; ring).
    rewrite Hz.
    assert (Hle : (0 <=? 0.5) = true) by (apply Rleb_true; lra).
    rewrite Hle; unfold spline_inner.
    set (C := 8 / (PI * h ^ 4)); lra.
Qed.

(** X2.  For a positive smoothing radius, what a neighbour adds to the
    running sum in the inner loop of the density pass is never negative,
    is at most [8 / (pi * h^4)], which a neighbour at distance zero adds,
    and never increases with the distance: of two neighbours [j] and [k]
    of particle [i], the closer one adds at least as much as the farther
    one. *)
Theorem kernel_monotone (positions : array vec3) (h : R) (i j k : nat)
    (density : R) :
  0 < h -> i <> j -> i <> k ->
  dist_sq (positions i) (positions j) <= dist_sq (positions i) (positions k) ->
  let near := density_body positions h i j density - density in
  let far := density_body positions h i k density - density in
  0 <= far /\ far <= near /\ near <= 8 / (PI * h ^ 4) /\
  (dist_sq (positions i) (positions j) = 0 -> near = 8 / (PI * h ^ 4)).
Proof.
  intros Hh Hij Hik Hd; cbv zeta.
  rewrite !density_body_adds_W by assumption.
  set (rj := sqrt (dist_sq (positions i) (positions j))).
  set (rk := sqrt (dist_sq (positions i) (positions k))).
  assert (Hrj : 0 <= rj) by apply sqrt_pos.
  assert (Hrk : rj <= rk) by (apply sqrt_le_1_alt; exact Hd).
  replace (density + W rj h - density) with (W rj h) by ring.
  replace (density + W rk h - density) with (W rk h) by ring.
  repeat split.
  - apply W_nonneg; lra.
  - apply W_decreasing; assumption.
  - rewrite <- (W_peak h Hh); apply W_decreasing; lra.
  - intros Hz; unfold rj; rewrite Hz, sqrt_0; apply W_peak; exact Hh.
Qed.

Lemma kernel_monotone_witness :
  0 <= density_body line_pos 3 0 2 7 - 7 /\
  density_body line_pos 3 0 2 7 - 7 <= density_body line_pos 3 0 1 7 - 7 /\
  density_body line_pos 3 0 1 7 - 7 <= 8 / (PI * 3 ^ 4).
Proof.
  destruct (kernel_monotone line_pos 3 0 1 2 7) as (H0 & H1 & H2 & _).
  - lra.
  - discriminate.
  - discriminate.
  - unfold dist_sq, line_pos; simpl; lra.
  - repeat split; assumption.
Defined.

(** ** Bounds on the density *)

Lemma others_step (m i : nat) :
  others (S m) i = if Nat.eqb m i then others m i else S (others m i).
Proof.
  unfold others.
  destruct (Nat.eqb_spec m i) as [->|Hne].
  - rewrite Nat.ltb_irrefl.
    assert (H : (i <? S i)%nat = true) by (apply Nat.ltb_lt; lia).
    rewrite H; lia.
  - destruct (i <? m)%nat eqn:E.
    + apply Nat.ltb_lt in E.
      assert (H : (i <? S m)%nat = true) by (apply Nat.ltb_lt; lia).
      rewrite H; lia.
    + apply Nat.ltb_ge in E.
      assert (H : (i <? S m)%nat = false) by (apply Nat.ltb_ge; lia).
      rewrite H; reflexivity.
Qed.

(** The sum of particle [i] lies between zero and one kernel peak per
    other particle. *)
Lemma density_sum_bounds (pos : array vec3) (h : R) (count i : nat) :
  0 < h ->
  0 <= density_sum pos h count i
  <= INR (others count i) * (8 / (PI * h ^ 4)).
Proof.
  intros Hh; unfold density_sum.
  apply (for_range_inv
           (fun m acc => 0 <= acc <= INR (others m i) * (8 / (PI * h ^ 4)))).
  - unfold others; simpl; lra.
  - intros j acc _ [Hlo Hhi].
    rewrite others_step.
    destruct (Nat.eqb_spec j i) as [->|Hne].
    + unfold density_body; rewrite Nat.eqb_refl; lra.
    + rewrite density_body_adds_W by auto.
      rewrite S_INR.
      assert (Hr : 0 <= sqrt (dist_sq (pos i) (pos j))) by apply sqrt_pos.
      generalize (W_nonneg h _ Hh Hr); intros HW0.
      generalize (W_decreasing h 0 _ Hh (Rle_refl 0) Hr).
      rewrite (W_peak h Hh); intros HW1.
      lra.
Qed.

(** X3.  After a call [update(dt)] that returns, with a positive
    smoothing radius, the density of a particle is at most the larger of
    the floor [rest_density * 0.1] and [particle_count - 1] kernel peaks
    [8 / (pi * h^4)]: every other particle adds at most one peak. *)
Theorem density_upper_bound (s s' : SPHSystem) (dt : R) (i : nat) :
  update s dt = Returned s' ->
  (i < particle_count s)%nat ->
  0 < smoothing_radius s ->
  densities s' i
  <= Rmax (INR (particle_count s - 1) * (8 / (PI * smoothing_radius s ^ 4)))
          (rest_density s * 0.1).
Proof.
  intros H Hi Hh.
  apply update_Returned in H.
  destruct H as (d' & p' & f' & Hd & _ & _ & -> & _).
  destruct (density_pass_spec _ _ _ _ _ _ _ d' p' i Hd Hi) as (Hdi & _ & _).
  rewrite Hdi.
  apply Rle_max_compat_r.
  destruct (density_sum_bounds (positions s) (smoothing_radius s)
              (particle_count s) i Hh) as [_ Hup].
  unfold others in Hup.
  apply Nat.ltb_lt in Hi; rewrite Hi in Hup; exact Hup.
Qed.

Lemma density_upper_bound_witness :
  densities (demo_step 0.01) 0%nat
  <= Rmax (INR (particle_count demo - 1)
           * (8 / (PI * smoothing_radius demo ^ 4)))
          (rest_density demo * 0.1).
Proof.
  apply (density_upper_bound demo (demo_step 0.01) 0.01 0%nat
           (demo_update 0.01)); simpl; [lia | lra].
Defined.

(** ** Action and reaction *)

Lemma dist_sq_sym (p q : vec3) : dist_sq p q = dist_sq q p.
Proof. unfold dist_sq; cbv zeta; ring. Qed.

(** What one iteration of the inner loop of the force pass returns: the
    accumulators unchanged for the particle itself, for a neighbour beyond
    the cutoff and for one within the guard; otherwise the two terms of
    the neighbour, whose density is then not zero. *)
Lemma force_body_cases (pos vel : array vec3) (d p : array R) (h mu : R)
    (i j : nat) (acc acc' : vec3 * vec3) :
  force_body pos vel d p h mu i j acc = Returned acc' ->
  (acc' = acc /\ (i = j \/ no_interaction pos h i j)) \/
  (i <> j /\ dist_sq (pos i) (pos j) < h * h /\
   1e-8 < sqrt (dist_sq (pos i) (pos j)) /\ d j <> 0).
Proof.
  destruct acc as [pf vf]; unfold force_body.
  destruct (Nat.eqb_spec i j) as [->|Hne].
  - intros H; inversion H; left; auto.
  - cbv zeta.
    change ((vx (pos i) - vx (pos j)) * (vx (pos i) - vx (pos j))
            + (vy (pos i) - vy (pos j)) * (vy (pos i) - vy (pos j))
            + (vz (pos i) - vz (pos j)) * (vz (pos i) - vz (pos j)))
      with (dist_sq (pos i) (pos j)).
    destruct (dist_sq (pos i) (pos j) <? h * h) eqn:Ecut;
      [apply Rltb_true in Ecut | apply Rltb_false in Ecut].
    + destruct (sqrt (dist_sq (pos i) (pos j)) >? 1e-8) eqn:Eg;
        [apply Rgtb_true in Eg | apply Rgtb_false in Eg].
      * intros H; apply bind_Returned in H; destruct H as (pt & Hdiv & _).
        apply ndiv_Returned in Hdiv; destruct Hdiv as [Hd _].
        right; repeat split; auto.
        intros Hz; apply Hd; rewrite Hz; ring.
      * intros H; inversion H; left; split; [reflexivity|].
        right; right; exact Eg.
    + intros H; inversion H; left; split; [reflexivity|].
      right; left; exact Ecut.
Qed.

Lemma compute_kernel_gradient_components (dx dy dz r h : R) :
  1e-8 < r ->
  compute_kernel_gradient dx dy dz r h
  = V3 (dx / r * grad_mag h (r / h)) (dy / r * grad_mag h (r / h))
       (dz / r * grad_mag h (r / h)).
Proof.
  intros Hr; unfold compute_kernel_gradient; cbv zeta.
  apply Rgtb_true in Hr; rewrite Hr; reflexivity.
Qed.

(** The terms of the pair [(i, j)] and of the pair [(j, i)] when the two
    densities are equal. *)
Lemma pair_terms_opposite (pos vel : array vec3) (d p : array R) (h mu : R)
    (i j : nat) (pf vf pf' vf' : vec3) :
  i <> j ->
  dist_sq (pos i) (pos j) < h * h ->
  1e-8 < sqrt (dist_sq (pos i) (pos j)) ->
  d i = d j -> d j <> 0 ->
  force_body pos vel d p h mu i j (vzero, vzero) = Returned (pf, vf) ->
  force_body pos vel d p h mu j i (vzero, vzero) = Returned (pf', vf') ->
  vadd pf pf' = vzero /\ vf' = vf.
Proof.
  intros Hij Hcut Hguard Hdd Hd H1 H2.
  rewrite force_body_neighbour in H1 by assumption.
  rewrite force_body_neighbour in H2
    by (rewrite 1?dist_sq_sym; try rewrite Hdd; auto).
  cbv zeta in H1, H2.
  rewrite (dist_sq_sym (pos j) (pos i)) in H2.
  rewrite compute_kernel_gradient_components in H1, H2 by exact Hguard.
  inversion H1; inversion H2; subst; clear H1 H2.
  rewrite Hdd.
  split; unfold vadd, vsub, vscale, vmul, smul, vdiv, vzero; simpl;
    f_equal; unfold Rdiv; ring.
Qed.

(** X4.  For two particles with the same density that interact (inside
    the cutoff and above the guard), the pressure term that [j] adds to
    [i] is the opposite of the one that [i] adds to [j], while the
    viscosity terms of the two are equal: they cancel only when they are
    zero.  On every component [a] the pressure term of [i] is minus the
    component of the kernel gradient times
    [(pressures[i] + pressures[j]) / (2 * densities[j])], and the
    viscosity term is the viscosity times the velocity difference times
    the component of the gradient over [densities[j]]. *)
Theorem pair_action_reaction (pos vel : array vec3) (d p : array R)
    (h mu : R) (i j : nat) :
  i <> j ->
  dist_sq (pos i) (pos j) < h * h ->
  1e-8 < sqrt (dist_sq (pos i) (pos j)) ->
  d i = d j -> d j <> 0 ->
  exists pf vf pf' vf',
    force_body pos vel d p h mu i j (vzero, vzero) = Returned (pf, vf) /\
    force_body pos vel d p h mu j i (vzero, vzero) = Returned (pf', vf') /\
    vadd pf pf' = vzero /\ vf' = vf /\
    (vadd vf vf' = vzero -> vf = vzero) /\
    (forall a,
       let r := sqrt (dist_sq (pos i) (pos j)) in
       let grad_a := (get (pos i) a - get (pos j) a) / r * grad_mag h (r / h) in
       get pf a = - (grad_a * ((p i + p j) / (2 * d j))) /\
       get vf a = mu * (get (vel j) a - get (vel i) a) * (grad_a / d j)).
Proof.
  intros Hij Hcut Hguard Hdd Hd.
  assert (Hji : j <> i) by auto.
  assert (Hcut' : dist_sq (pos j) (pos i) < h * h)
    by (rewrite dist_sq_sym; exact Hcut).
  assert (Hguard' : 1e-8 < sqrt (dist_sq (pos j) (pos i)))
    by (rewrite dist_sq_sym; exact Hguard).
  assert (Hdi : d i <> 0) by (rewrite Hdd; exact Hd).
  generalize (force_body_neighbour pos vel d p h mu i j vzero vzero
                Hij Hcut Hguard Hd).
  generalize (force_body_neighbour pos vel d p h mu j i vzero vzero
                Hji Hcut' Hguard' Hdi).
  cbv zeta; intros H2 H1.
  destruct (pair_terms_opposite pos vel d p h mu i j _ _ _ _
              Hij Hcut Hguard Hdd Hd H1 H2) as [Hopp Heq].
  do 4 eexists; split; [exact H1 | split; [exact H2|]].
  split; [exact Hopp | split; [exact Heq | split]].
  - rewrite Heq; intros Hz.
    match goal with |- ?v = vzero => destruct v as [x y z] end.
    unfold vadd, vzero in Hz; simpl in Hz; inversion Hz.
    unfold vzero; f_equal; lra.
  - intros a; cbv zeta.
    rewrite compute_kernel_gradient_components by exact Hguard.
    destruct a; simpl; split; unfold Rdiv; ring.
Qed.

Lemma pair_action_reaction_witness :
  exists pf vf pf' vf',
    force_body pair_pos closing_vel (fun _ => 1) (fun _ => 1) 2 1 0 1
      (vzero, vzero) = Returned (pf, vf) /\
    force_body pair_pos closing_vel (fun _ => 1) (fun _ => 1) 2 1 1 0
      (vzero, vzero) = Returned (pf', vf') /\
    vadd pf pf' = vzero /\ vf' = vf /\
    vx pf = 3 / (16 * PI) /\ vx vf = - (3 / (16 * PI)) /\
    3 / (16 * PI) <> 0.
Proof.
  destruct (pair_action_reaction pair_pos closing_vel (fun _ => 1)
              (fun _ => 1) 2 1 0 1)
    as (pf & vf & pf' & vf' & H1 & H2 & Hopp & Heq & _ & Hval).
  - discriminate.
  - rewrite pair_distance; lra.
  - rewrite pair_distance, sqrt_1; lra.
  - reflexivity.
  - lra.
  - exists pf, vf, pf', vf'.
    destruct (Hval A0) as [Hp Hv]; cbv zeta in Hp, Hv.
    rewrite pair_distance, sqrt_1, grad_mag_half_radius in Hp, Hv.
    assert (HPI : 0 < 3 / (16 * PI)).
    { apply Rdiv_lt_0_compat; [lra | generalize PI_RGT_0; lra]. }
    repeat split; auto.
    + simpl in Hp; rewrite Hp; simpl; lra.
    + simpl in Hv; rewrite Hv; simpl; lra.
    + lra.
Defined.

(** ** Two particles *)

Lemma bind_identity {A : Type} (c : outcome A) (k : A -> outcome A) :
  (forall a, k a = Returned a) -> bind c k = c.
Proof. intros Hk; destruct c; simpl; auto. Qed.

Lemma force_body_self (pos vel : array vec3) (d p : array R) (h mu : R)
    (i : nat) (acc : vec3 * vec3) :
  force_body pos vel d p h mu i i acc = Returned acc.
Proof. destruct acc; unfold force_body; rewrite Nat.eqb_refl; reflexivity. Qed.

Lemma density_body_self (pos : array vec3) (h : R) (i : nat) (acc : R) :
  density_body pos h i i acc = acc.
Proof. unfold density_body; rewrite Nat.eqb_refl; reflexivity. Qed.

Lemma density_sum_pair (pos : array vec3) (h : R) :
  density_sum pos h 2 0 = 0 + density_term h (dist_sq (pos 0%nat) (pos 1%nat)) /\
  density_sum pos h 2 1 = 0 + density_term h (dist_sq (pos 1%nat) (pos 0%nat)).
Proof.
  unfold density_sum, for_range; simpl seq; cbn [fold_left].
  rewrite !density_body_self.
  rewrite !density_body_term by discriminate; auto.
Qed.

Lemma pair_forces_pair (pos vel : array vec3) (d p : array R) (h mu : R) :
  pair_forces pos vel d p h mu 2 0
  = force_body pos vel d p h mu 0 1 (vzero, vzero) /\
  pair_forces pos vel d p h mu 2 1
  = force_body pos vel d p h mu 1 0 (vzero, vzero).
Proof.
  unfold pair_forces, for_rangeM; simpl seq; cbn [foldM].
  rewrite force_body_self; cbn [bind].
  split; apply bind_identity; intros a.
  - reflexivity.
  - rewrite force_body_self; reflexivity.
Qed.

(** X5.  In a system of two particles the density pass gives both the
    same density and the same pressure, and in the force pass that follows
    the pressure forces of the two are exactly opposite, whatever the
    positions, the velocities and the viscosity; the viscosity sums of the
    two are equal. *)
Theorem two_particle_balance (pos : array vec3) (d0 p0 : array R)
    (h rest pc : R) (d p : array R) :
  calculate_densities_and_pressures pos d0 p0 h rest pc 2 = Returned (d, p) ->
  d 0%nat = d 1%nat /\ p 0%nat = p 1%nat /\
  forall vel mu pf0 vf0 pf1 vf1,
    pair_forces pos vel d p h mu 2 0 = Returned (pf0, vf0) ->
    pair_forces pos vel d p h mu 2 1 = Returned (pf1, vf1) ->
    vadd pf0 pf1 = vzero /\ vf1 = vf0.
Proof.
  intros Hpass.
  assert (H0 : (0 < 2)%nat) by lia.
  assert (H1 : (1 < 2)%nat) by lia.
  destruct (density_pass_spec _ _ _ _ _ _ _ d p 0%nat Hpass H0)
    as (Hd0 & Hp0 & Hrest).
  destruct (density_pass_spec _ _ _ _ _ _ _ d p 1%nat Hpass H1)
    as (Hd1 & Hp1 & _).
  destruct (density_sum_pair pos h) as [S0 S1].
  assert (Hdd : d 0%nat = d 1%nat)
    by (rewrite Hd0, Hd1, S0, S1, (dist_sq_sym (pos 1%nat)); reflexivity).
  split; [exact Hdd | split; [rewrite Hp0, Hp1, Hdd; reflexivity|]].
  intros vel mu pf0 vf0 pf1 vf1 F0 F1.
  destruct (pair_forces_pair pos vel d p h mu) as [E0 E1].
  rewrite E0 in F0; rewrite E1 in F1.
  destruct (force_body_cases _ _ _ _ _ _ _ _ _ _ F0)
    as [[Eacc Hno] | (Hne & Hcut & Hguard & Hdj)].
  - inversion Eacc; subst pf0 vf0.
    destruct (force_body_cases _ _ _ _ _ _ _ _ _ _ F1)
      as [[Eacc' _] | (_ & Hcut' & Hguard' & _)].
    + inversion Eacc'; subst pf1 vf1.
      split; [unfold vadd, vzero; simpl; f_equal; lra | reflexivity].
    + exfalso. rewrite dist_sq_sym in Hcut', Hguard'.
      destruct Hno as [Heq | [Hfar | Hnear]]; [discriminate | lra | lra].
  - apply (pair_terms_opposite pos vel d p h mu 0 1 _ _ _ _
             Hne Hcut Hguard Hdd Hdj F0 F1).
Qed.

Lemma near_pass_returned : near_pass = Returned (near_densities, near_pressures).
Proof.
  unfold near_densities, near_pressures, near_pass.
  destruct (density_pass_returns near_pos (fun _ => 1000) (fun _ => 0)
              0.1 1000 3000 2) as (d & p & H); [lra|].
  rewrite H; reflexivity.
Qed.

Lemma near_densities_nonzero (j : nat) : (j < 2)%nat -> near_densities j <> 0.
Proof.
  intros Hj.
  destruct (density_pass_spec _ _ _ _ _ _ _ _ _ j near_pass_returned Hj)
    as (Hd & _ & _).
  rewrite Hd.
  generalize (Rmax_r (density_sum near_pos 0.1 2 j) (1000 * 0.1)); lra.
Qed.

Lemma near_pair_forces_returned (i : nat) :
  pair_forces near_pos (fun _ => vzero) near_densities near_pressures
    0.1 0.1 2 i
  = Returned (near_pair_forces i).
Proof.
  unfold near_pair_forces.
  destruct (pair_forces_returns near_pos (fun _ => vzero) near_densities
              near_pressures 0.1 0.1 2 i near_densities_nonzero)
    as (pf & vf & H).
  rewrite H; reflexivity.
Qed.

Lemma two_particle_balance_witness :
  near_densities 0%nat = near_densities 1%nat /\
  near_pressures 0%nat = near_pressures 1%nat /\
  vadd (fst (near_pair_forces 0)) (fst (near_pair_forces 1)) = vzero /\
  snd (near_pair_forces 1) = snd (near_pair_forces 0).
Proof.
  destruct (two_particle_balance near_pos (fun _ => 1000) (fun _ => 0)
              0.1 1000 3000 near_densities near_pressures near_pass_returned)
    as (Hd & Hp & Hf).
  split; [exact Hd | split; [exact Hp|]].
  apply (Hf (fun _ => vzero) 0.1).
  - rewrite near_pair_forces_returned; destruct (near_pair_forces 0); reflexivity.
  - rewrite near_pair_forces_returned; destruct (near_pair_forces 1); reflexivity.
Defined.

(** ** Sign of the kernel gradient and direction of the pressure force *)

Lemma gradient_constant_pos (h : R) : 0 < h -> 0 < 24 / (PI * h ^ 5).
Proof.
  intros Hh.
  assert (0 < h ^ 5) by (apply pow_lt; exact Hh).
  assert (0 < PI * h ^ 5)
    by (apply Rmult_lt_0_compat; [exact PI_RGT_0 | assumption]).
  apply Rdiv_lt_0_compat; [lra | assumption].
Qed.

Lemma grad_mag_nonpos (h q : R) : 0 < h -> 0 <= q <= 1 -> grad_mag h q <= 0.
Proof.
  intros Hh [Hq0 Hq1]; unfold grad_mag; cbv zeta.
  generalize (gradient_constant_pos h Hh).
  set (K := 24 / (PI * h ^ 5)); intros HK.
  cmp_cases; try lra.
  - assert (0 <= K * q) by (apply Rmult_le_pos; lra).
    assert (0 <= (K * q) * (2 - 3 * q)) by (apply Rmult_le_pos; lra).
    lra.
  - assert (0 <= (1 - q) ^ 2) by (apply pow_le; lra).
    assert (0 <= K * (1 - q) ^ 2) by (apply Rmult_le_pos; lra).
    lra.
Qed.

(** X6.  For a positive smoothing radius the scalar factor of the kernel
    gradient is zero at [q = 0] and at [q = 1], is never positive in
    between, and its first branch takes at [q = 0.5] the value of the
    second branch's formula. *)
Theorem grad_mag_profile (h : R) :
  0 < h ->
  grad_mag h 0 = 0 /\ grad_mag h 1 = 0 /\
  (forall q, 0 <= q <= 1 -> grad_mag h q <= 0) /\
  grad_mag h 0.5 = - (24 / (PI * h ^ 5) * (1 - 0.5) ^ 2).
Proof.
  intros Hh.
  split; [| split; [| split]].
  - unfold grad_mag.
    assert (H : (0 <=? 0.5) = true) by (apply Rleb_true; lra).
    rewrite H; ring.
  - unfold grad_mag; cbv zeta.
    assert (H : (1 <=? 0.5) = false) by (apply Rleb_false; lra).
    assert (G : (1 >? 1e-8) = true) by (apply Rgtb_true; lra).
    rewrite H, G; simpl; ring.
  - intros q Hq; apply grad_mag_nonpos; assumption.
  - unfold grad_mag.
    assert (H : (0.5 <=? 0.5) = true) by (apply Rleb_true; lra).
    rewrite H.
    set (K := 24 / (PI * h ^ 5)); simpl pow; lra.
Qed.

Lemma grad_mag_profile_witness :
  grad_mag 1 0 = 0 /\ grad_mag 1 1 = 0 /\
  grad_mag 1 (1 / 4) <= 0 /\
  grad_mag 1 0.5 = - (24 / (PI * 1 ^ 5) * (1 - 0.5) ^ 2).
Proof.
  destruct (grad_mag_profile 1 Rlt_0_1) as (H0 & H1 & Hle & Hmid).
  repeat split; [exact H0 | exact H1 | apply Hle; lra | exact Hmid].
Defined.

Lemma cutoff_distance (p q : vec3) (h : R) :
  0 < h -> dist_sq p q < h * h -> sqrt (dist_sq p q) < h.
Proof.
  intros Hh Hcut.
  rewrite <- (sqrt_square h) by lra.
  apply sqrt_lt_1_alt; split; [apply dist_sq_nonneg | exact Hcut].
Qed.

(** X7.  One iteration of the inner loop of the force pass never pulls
    particle [i] towards its neighbour [j] when the pressures add up to a
    value that is not negative: with a positive smoothing radius and a
    positive neighbour density, the change of [pressure_force] has a
    scalar product with [position[i] - position[j]] that is not
    negative. *)
Theorem pressure_pushes_apart (pos vel : array vec3) (d p : array R)
    (h mu : R) (i j : nat) (pf vf pf' vf' : vec3) :
  0 < h -> 0 < d j -> 0 <= p i + p j ->
  force_body pos vel d p h mu i j (pf, vf) = Returned (pf', vf') ->
  0 <= dot (vsub pf' pf) (vsub (pos i) (pos j)).
Proof.
  intros Hh Hd Hp H.
  destruct (force_body_cases _ _ _ _ _ _ _ _ _ _ H)
    as [[Eacc _] | (Hne & Hcut & Hguard & Hdj)].
  - inversion Eacc; subst.
    unfold dot, vsub; simpl.
    apply Req_le; ring.
  - rewrite force_body_neighbour in H by assumption.
    cbv zeta in H.
    rewrite compute_kernel_gradient_components in H by exact Hguard.
    inversion H; subst pf' vf'; clear H.
    generalize (cutoff_distance _ _ h Hh Hcut); intros Hrh.
    set (r := sqrt (dist_sq (pos i) (pos j))) in *.
    assert (Hr : 0 < r) by lra.
    assert (Hq : 0 <= r / h <= 1).
    { destruct (ratio_bounds h r Hh) as [Ha Hb]; lra. }
    generalize (grad_mag_nonpos h (r / h) Hh Hq).
    set (g := grad_mag h (r / h)); intros Hg.
    assert (Hpt : 0 <= (p i + p j) / (2 * d j))
      by (apply Rle_mult_inv_pos; lra).
    set (pt := (p i + p j) / (2 * d j)) in *.
    assert (E : dot (vsub
                       (vsub pf
                          (vscale
                             (V3 ((vx (pos i) - vx (pos j)) / r * g)
                                 ((vy (pos i) - vy (pos j)) / r * g)
                                 ((vz (pos i) - vz (pos j)) / r * g)) pt)) pf)
                    (vsub (pos i) (pos j))
                = (- g) * pt * (/ r) * dist_sq (pos i) (pos j)).
    { unfold dot, vsub, vscale, dist_sq; simpl; unfold Rdiv; ring. }
    rewrite E.
    assert (0 < / r) by (apply Rinv_0_lt_compat; exact Hr).
    generalize (dist_sq_nonneg (pos i) (pos j)); intros HD.
    apply Rmult_le_pos; [| exact HD].
    apply Rmult_le_pos; [| lra].
    apply Rmult_le_pos; [lra | exact Hpt].
Qed.

Lemma pressure_pushes_apart_witness :
  0 <= dot (vsub (fst (returned_or
                         (force_body pair_pos pair_vel (fun _ => 1)
                            (fun _ => 2) 2 1 0 1 (vzero, vzero))
                         (vzero, vzero))) vzero)
           (vsub (pair_pos 0%nat) (pair_pos 1%nat)).
Proof.
  assert (Hcut : dist_sq (pair_pos 0%nat) (pair_pos 1%nat) < 2 * 2)
    by (rewrite pair_distance; lra).
  assert (Hguard : 1e-8 < sqrt (dist_sq (pair_pos 0%nat) (pair_pos 1%nat)))
    by (rewrite pair_distance, sqrt_1; lra).
  assert (Hne : 0%nat <> 1%nat) by discriminate.
  assert (Hd : (fun _ : nat => 1) 1%nat <> 0) by lra.
  generalize (force_body_neighbour pair_pos pair_vel (fun _ => 1)
                (fun _ => 2) 2 1 0 1 vzero vzero Hne Hcut Hguard Hd).
  cbv zeta; intros Hret; rewrite Hret; cbn [returned_or fst].
  refine (pressure_pushes_apart pair_pos pair_vel (fun _ => 1) (fun _ => 2)
            2 1 0 1 vzero vzero _ _ _ _ _ Hret); lra.
Defined.

(** ** Particles that do not interact *)

Lemma force_body_idle (pos vel : array vec3) (d p : array R) (h mu : R)
    (i j : nat) (acc : vec3 * vec3) :
  i = j \/ no_interaction pos h i j ->
  force_body pos vel d p h mu i j acc = Returned acc.
Proof.
  intros [->|Hno]; [apply force_body_self|].
  destruct acc as [pf vf]; unfold force_body.
  destruct (Nat.eqb i j); [reflexivity|]; cbv zeta.
  change ((vx (pos i) - vx (pos j)) * (vx (pos i) - vx (pos j))
          + (vy (pos i) - vy (pos j)) * (vy (pos i) - vy (pos j))
          + (vz (pos i) - vz (pos j)) * (vz (pos i) - vz (pos j)))
    with (dist_sq (pos i) (pos j)).
  destruct Hno as [Hfar|Hnear].
  - apply Rltb_false in Hfar; rewrite Hfar; reflexivity.
  - apply Rgtb_false in Hnear; rewrite Hnear.
    destruct (dist_sq (pos i) (pos j) <? h * h); reflexivity.
Qed.

(** The inner loop of a particle that interacts with no other one returns
    two zero sums, and divides by no density. *)
Lemma pair_forces_idle (pos vel : array vec3) (d p : array R) (h mu : R)
    (count i : nat) :
  (forall j, (j < count)%nat -> j <> i -> no_interaction pos h i j) ->
  pair_forces pos vel d p h mu count i = Returned (vzero, vzero).
Proof.
  intros Hno; unfold pair_forces.
  destruct (for_rangeM_returns (fun _ acc => acc = (vzero, vzero))
              (force_body pos vel d p h mu i) count (vzero, vzero))
    as (acc & H & ->); [reflexivity | | exact H].
  intros j acc Hj ->.
  exists (vzero, vzero); split; [| reflexivity].
  apply force_body_idle.
  destruct (Nat.eq_dec i j) as [->|Hne]; [left; reflexivity | right].
  apply Hno; auto.
Qed.

(** X8.  When no two particles interact (every pair is beyond the cutoff
    or within the near-zero guard, for instance all particles at the same
    place), the force pass returns whatever the densities are, zero
    included, and adds to every force only [gravity[1]] on the second
    component. *)
Theorem force_pass_without_interaction (pos vel : array vec3) (d p : array R)
    (f0 : array vec3) (h mu kc g1 : R) (gravity : list R) (count : nat) :
  nth_error gravity 1 = Some g1 ->
  (forall i j, (i < count)%nat -> (j < count)%nat -> j <> i ->
               no_interaction pos h i j) ->
  exists f',
    calculate_forces pos vel d p f0 h mu kc gravity count = Returned f' /\
    forall i, (i < count)%nat ->
      f' i = vadd (f0 i) (V3 0 g1 0).
Proof.
  intros Hg Hno.
  assert (Hret : exists f',
             calculate_forces pos vel d p f0 h mu kc gravity count
             = Returned f').
  { unfold calculate_forces; cbv zeta.
    match goal with |- exists f', for_rangeM _ ?b _ = _ =>
      destruct (for_rangeM_returns (fun _ _ => True) b count f0)
        as (f' & H & _); [exact I | | eauto] end.
    intros i f Hi _; unfold read; rewrite Hg; cbn [bind].
    rewrite pair_forces_idle by (intros j Hj Hne; apply Hno; auto).
    cbn [bind]; eauto. }
  destruct Hret as (f' & Hf); exists f'; split; [exact Hf|].
  intros i Hi.
  destruct (force_pass_spec _ _ _ _ _ _ _ _ _ _ f' i Hf Hi)
    as (g & pf & vf & Hg' & Hpair & Hfi).
  rewrite Hg in Hg'; inversion Hg'; subst g.
  rewrite pair_forces_idle in Hpair by (intros j Hj Hne; apply Hno; auto).
  inversion Hpair; subst pf vf.
  rewrite Hfi; apply vec3_ext; intros a; destruct a; simpl; ring.
Qed.

Lemma force_pass_without_interaction_witness :
  exists f',
    calculate_forces origin_sample (fun _ => vzero) (fun _ => 0) (fun _ => 0)
      (fun _ => vzero) 0.1 0.1 0 default_gravity 3 = Returned f' /\
    forall i, (i < 3)%nat -> f' i = vadd vzero (V3 0 (-9.81) 0).
Proof.
  apply (force_pass_without_interaction origin_sample (fun _ => vzero)
           (fun _ => 0) (fun _ => 0) (fun _ => vzero) 0.1 0.1 0 (-9.81)
           default_gravity 3).
  - reflexivity.
  - intros i j _ _ _; right.
    unfold dist_sq, origin_sample; simpl.
    replace ((0 - 0) * (0 - 0) + (0 - 0) * (0 - 0) + (0 - 0) * (0 - 0))
      with 0 by ring.
    rewrite sqrt_0; lra.
Defined.

(** X9.  In every state of a simulation, a particle all of whose
    neighbours are beyond the cutoff or within the guard moves under
    [gravity[1]] alone during a call [update(dt)]: on each column the
    velocity takes that acceleration times [dt] (zero on the first and
    third column), the position takes the new velocity times [dt], as long
    as the new position stays inside the box. *)
Theorem isolated_particle_free_fall (s s' : SPHSystem) (dt : R) (i : nat) :
  reachable s ->
  update s dt = Returned s' ->
  (i < particle_count s)%nat ->
  (forall j, (j < particle_count s)%nat -> j <> i ->
             no_interaction (positions s) (smoothing_radius s) i j) ->
  exists g1,
    nth_error (gravity s) 1 = Some g1 /\
    forall a,
      let v1 := get (velocities s i) a + get (V3 0 g1 0) a * dt in
      let p1 := get (positions s i) a + v1 * dt in
      get (boundary_min s) a <= p1 <= get (boundary_max s) a ->
      get (positions s' i) a = p1 /\ get (velocities s' i) a = v1.
Proof.
  intros Hreach Hstep Hi Hno.
  apply reachable_inv in Hreach; destruct Hreach as (_ & _ & _ & Hzero).
  apply update_Returned in Hstep.
  destruct Hstep as (d' & p' & f' & _ & Hf & Hint & _).
  destruct (force_pass_spec _ _ _ _ _ _ _ _ _ _ f' i Hf Hi)
    as (g1 & pf & vf & Hg & Hpair & Hfi).
  rewrite pair_forces_idle in Hpair by exact Hno.
  inversion Hpair; subst pf vf; clear Hpair.
  rewrite Hzero in Hfi.
  exists g1; split; [exact Hg|].
  intros a v1 p1 Hin.
  destruct (integrate_motion_inv (positions s) (velocities s) f' dt
              (boundary_min s) (boundary_max s) (boundary_damping s)
              (particle_count s)) as [Hlo _].
  specialize (Hlo i a Hi); rewrite <- Hint in Hlo; simpl in Hlo.
  assert (Hfa : get (f' i) a = get (V3 0 g1 0) a)
    by (rewrite Hfi; destruct a; simpl; ring).
  unfold euler_axis in Hlo; cbv zeta in Hlo; rewrite Hfa in Hlo.
  fold v1 in Hlo; fold p1 in Hlo.
  rewrite clamp_axis_inside in Hlo by exact Hin.
  inversion Hlo; auto.
Qed.

Lemma isolated_particle_free_fall_witness :
  vy (positions (demo_step 0.01) 0%nat) = 0 + (0 + -9.81 * 0.01) * 0.01 /\
  vy (velocities (demo_step 0.01) 0%nat) = 0 + -9.81 * 0.01.
Proof.
  destruct (isolated_particle_free_fall demo (demo_step 0.01) 0.01 0%nat
              demo_reachable (demo_update 0.01)) as (g1 & Hg & Hax).
  - simpl; lia.
  - intros j Hj Hne; simpl in Hj; lia.
  - simpl in Hg; inversion Hg; subst g1.
    apply (Hax A1); simpl; lra.
Defined.

(** ** Many steps *)

Lemma same_config_refl (s : SPHSystem) : same_config s s.
Proof. unfold same_config; repeat split. Qed.

Lemma same_config_trans (s1 s2 s3 : SPHSystem) :
  same_config s1 s2 -> same_config s2 s3 -> same_config s1 s3.
Proof.
  unfold same_config.
  intros (A1' & A2' & A3 & A4 & A5 & A6 & A7 & A8 & A9 & A10 & A11)
         (B1 & B2 & B3 & B4 & B5 & B6 & B7 & B8 & B9 & B10 & B11).
  repeat split; congruence.
Qed.

Lemma steps_returns (dts : list R) (s : SPHSystem) (g1 : R) :
  0 < rest_density s ->
  nth_error (gravity s) 1 = Some g1 ->
  exists s', steps s dts = Returned s' /\ same_config s s'.
Proof.
  revert s; induction dts as [|dt dts IH]; intros s Hrest Hg.
  - exists s; split; [reflexivity | apply same_config_refl].
  - destruct (update_returns s dt g1 Hrest Hg) as (s1 & H1).
    generalize H1; intros Hcfg; apply update_Returned in Hcfg.
    destruct Hcfg as (_ & _ & _ & _ & _ & _ & _ & _ & _ & Hcfg).
    assert (Hrest1 : 0 < rest_density s1).
    { destruct Hcfg as (_ & _ & -> & _); exact Hrest. }
    assert (Hg1 : nth_error (gravity s1) 1 = Some g1).
    { destruct Hcfg as (_ & _ & _ & _ & _ & -> & _); exact Hg. }
    destruct (IH s1 Hrest1 Hg1) as (s' & Hs' & Hcfg').
    exists s'; split; [| eapply same_config_trans; eauto].
    simpl; rewrite H1; exact Hs'.
Qed.

(** X10.  A system constructed with a positive rest density and with
    [gravity] left to its default, or given as a list of at least two
    numbers, can be stepped for ever: every sequence of calls
    [update(dt)], whatever the values of [dt], returns, and leaves the
    configuration of the system as constructed. *)
Theorem simulation_keeps_running (n : Z) (h rho mu k : R) (g : gravity_arg)
    (sample : array vec3) (capacity : Z) (s : SPHSystem) (dts : list R) :
  __init__ n h rho mu k g sample capacity = Returned s ->
  0 < rho ->
  (g = GNone \/ exists x y l, g = GList (x :: y :: l)) ->
  exists s', steps s dts = Returned s' /\ same_config s s'.
Proof.
  intros Hinit Hrho Hg.
  apply init_Returned in Hinit.
  destruct Hinit as (gl & Hgl & _ & _ & ->).
  assert (Hsecond : exists g1, nth_error gl 1 = Some g1).
  { destruct Hg as [->|(x & y & l & ->)];
      unfold gravity_or_default in Hgl; simpl in Hgl;
      inversion Hgl; subst gl; simpl; eauto. }
  destruct Hsecond as (g1 & Hsecond).
  apply (steps_returns dts _ g1); simpl; assumption.
Qed.

Lemma simulation_keeps_running_witness :
  exists s', steps demo [0.01; -0.5; 0] = Returned s' /\ same_config demo s'.
Proof.
  apply (simulation_keeps_running 1 0.1 1000 0.1 3 GNone origin_sample 5000
           demo [0.01; -0.5; 0] demo_constructed); [lra | left; reflexivity].
Defined.

(** ** Contact with the box *)

(** X11.  A particle that is inside the box before [integrate_motion],
    stepped with a positive [dt] and a damping that is not positive, never
    leaves a face with a velocity pointing out of the box: if the Euler
    step takes it below [boundary_min] it ends on that face with a
    velocity component that is not negative, and symmetrically above
    [boundary_max]. *)
Theorem contact_velocity_points_inward (P V F : array vec3) (dt : R)
    (lo hi : vec3) (damping : R) (count i : nat) (a : axis) :
  (i < count)%nat ->
  get lo a <= get (P i) a <= get hi a ->
  0 < dt -> damping <= 0 ->
  let P' := fst (integrate_motion P V F dt lo hi damping count) in
  let V' := snd (integrate_motion P V F dt lo hi damping count) in
  let v1 := get (V i) a + get (F i) a * dt in
  let p1 := get (P i) a + v1 * dt in
  (p1 < get lo a -> get (P' i) a = get lo a /\ 0 <= get (V' i) a) /\
  (get hi a < p1 -> get (P' i) a = get hi a /\ get (V' i) a <= 0).
Proof.
  intros Hi Hin Hdt Hdamp P' V' v1 p1.
  destruct (integrate_motion_inv P V F dt lo hi damping count) as [Hlo _].
  specialize (Hlo i a Hi); fold P' V' in Hlo.
  unfold euler_axis in Hlo; cbv zeta in Hlo; fold v1 p1 in Hlo.
  unfold clamp_axis in Hlo.
  split; intros Hout; revert Hlo; cmp_cases; intros Hlo;
    inversion Hlo as [[HP HV]]; try lra.
  - split; [reflexivity|].
    assert (Hv : v1 * dt < 0) by (unfold p1 in Hout; lra).
    assert (Hneg : v1 < 0) by nra.
    nra.
  - split; [reflexivity|].
    assert (Hv : 0 < v1 * dt) by (unfold p1 in Hout; lra).
    assert (Hpos : 0 < v1) by nra.
    nra.
Qed.

Lemma contact_velocity_points_inward_witness :
  vy (fst (integrate_motion origin_sample (fun _ => vzero)
             (fun _ => V3 0 (-9.81) 0) 1 (V3 (-3) (-1) (-3)) (V3 3 5 3)
             (-0.5) 1) 0%nat) = -1 /\
  0 <= vy (snd (integrate_motion origin_sample (fun _ => vzero)
                  (fun _ => V3 0 (-9.81) 0) 1 (V3 (-3) (-1) (-3)) (V3 3 5 3)
                  (-0.5) 1) 0%nat).
Proof.
  destruct (contact_velocity_points_inward origin_sample (fun _ => vzero)
              (fun _ => V3 0 (-9.81) 0) 1 (V3 (-3) (-1) (-3)) (V3 3 5 3)
              (-0.5) 1 0 A1) as [Hbelow _];
    [lia | simpl; lra | lra | lra |].
  apply Hbelow; simpl; lra.
Defined.

(** ** Positions and velocities are read through differences *)

Lemma vsub_components (u v u' v' : vec3) :
  vsub u' v' = vsub u v ->
  vx u' - vx v' = vx u - vx v /\ vy u' - vy v' = vy u - vy v /\
  vz u' - vz v' = vz u - vz v.
Proof.
  unfold vsub; intros H; inversion H; auto.
Qed.

Lemma density_body_differences (pos pos' : array vec3) (h : R) (i j : nat)
    (acc : R) :
  vsub (pos' i) (pos' j) = vsub (pos i) (pos j) ->
  density_body pos' h i j acc = density_body pos h i j acc.
Proof.
  intros H; apply vsub_components in H; destruct H as (Ex & Ey & Ez).
  unfold density_body, dist_sq; cbv zeta; rewrite Ex, Ey, Ez; reflexivity.
Qed.

Lemma force_body_differences (pos pos' vel vel' : array vec3) (d p : array R)
    (h mu : R) (i j : nat) (acc : vec3 * vec3) :
  vsub (pos' i) (pos' j) = vsub (pos i) (pos j) ->
  vsub (vel' j) (vel' i) = vsub (vel j) (vel i) ->
  force_body pos' vel' d p h mu i j acc = force_body pos vel d p h mu i j acc.
Proof.
  intros H Ev; apply vsub_components in H; destruct H as (Ex & Ey & Ez).
  destruct acc as [pf vf]; unfold force_body.
  rewrite Ex, Ey, Ez, Ev; reflexivity.
Qed.

(** X12.  The density pass and the force pass read the positions and the
    velocities through differences of pairs only: two systems in which
    every pair of particles has the same position difference and the same
    velocity difference get the same densities, pressures and forces, and
    the passes return for the one exactly when they return for the
    other. *)
Theorem passes_read_differences (pos pos' vel vel' : array vec3)
    (d0 p0 d p : array R) (f0 : array vec3) (h rest pc mu kc : R)
    (gravity : list R) (count : nat) :
  (forall i j, (i < count)%nat -> (j < count)%nat ->
     vsub (pos' i) (pos' j) = vsub (pos i) (pos j)) ->
  (forall i j, (i < count)%nat -> (j < count)%nat ->
     vsub (vel' j) (vel' i) = vsub (vel j) (vel i)) ->
  calculate_densities_and_pressures pos' d0 p0 h rest pc count
  = calculate_densities_and_pressures pos d0 p0 h rest pc count /\
  calculate_forces pos' vel' d p f0 h mu kc gravity count
  = calculate_forces pos vel d p f0 h mu kc gravity count.
Proof.
  intros Hpos Hvel; split.
  - unfold calculate_densities_and_pressures; cbv zeta.
    apply for_rangeM_ext_below; intros i [dd pp] Hi.
    assert (E : density_sum pos' h count i = density_sum pos h count i).
    { unfold density_sum; apply for_range_ext_below; intros j acc Hj.
      apply density_body_differences, Hpos; assumption. }
    rewrite E; reflexivity.
  - unfold calculate_forces; cbv zeta.
    apply for_rangeM_ext_below; intros i f Hi.
    assert (E : pair_forces pos' vel' d p h mu count i
                = pair_forces pos vel d p h mu count i).
    { unfold pair_forces; apply for_rangeM_ext_below; intros j acc Hj.
      apply force_body_differences; [apply Hpos | apply Hvel]; assumption. }
    rewrite E; reflexivity.
Qed.

Lemma passes_read_differences_witness :
  calculate_densities_and_pressures moved_pos (fun _ => 1000) (fun _ => 0)
    2 1000 3000 2
  = calculate_densities_and_pressures pair_pos (fun _ => 1000) (fun _ => 0)
      2 1000 3000 2 /\
  calculate_forces moved_pos moved_vel (fun _ => 1) (fun _ => 1)
    (fun _ => vzero) 2 1 0 default_gravity 2
  = calculate_forces pair_pos pair_vel (fun _ => 1) (fun _ => 1)
      (fun _ => vzero) 2 1 0 default_gravity 2.
Proof.
  apply passes_read_differences.
  - intros [|[|i]] [|[|j]] Hi Hj; try lia;
      unfold vsub, moved_pos, pair_pos; simpl; f_equal; lra.
  - intros [|[|i]] [|[|j]] Hi Hj; try lia;
      unfold vsub, moved_vel, pair_vel; simpl; f_equal; lra.
Defined.

(** ** No state is carried in the densities and pressures *)

(** The force pass reads the densities and pressures below
    [particle_count] only. *)
Lemma force_pass_ext_below (pos vel : array vec3) (d p d' p' : array R)
    (f0 : array vec3) (h mu kc : R) (gravity : list R) (count : nat) :
  (forall j, (j < count)%nat -> d j = d' j /\ p j = p' j) ->
  calculate_forces pos vel d p f0 h mu kc gravity count
  = calculate_forces pos vel d' p' f0 h mu kc gravity count.
Proof.
  intros Hdp; unfold calculate_forces; cbv zeta.
  apply for_rangeM_ext_below; intros i f Hi.
  assert (E : pair_forces pos vel d p h mu count i
              = pair_forces pos vel d' p' h mu count i).
  { unfold pair_forces; apply for_rangeM_ext_below; intros j [pf vf] Hj.
    unfold force_body.
    destruct (Hdp i Hi) as [_ Hpi]; destruct (Hdp j Hj) as [Hdj Hpj].
    rewrite Hpi, Hpj, Hdj; reflexivity. }
  rewrite E; reflexivity.
Qed.

(** X13.  Densities and pressures are recomputed from scratch: a call
    [update(dt)] on a system whose density and pressure arrays hold any
    other values returns as well, with the same positions and velocities,
    and the same densities and pressures for every particle. *)
Theorem step_forgets_densities (s s' : SPHSystem) (dt : R) (d0 p0 : array R) :
  update s dt = Returned s' ->
  exists s2,
    update (with_densities s d0 p0) dt = Returned s2 /\
    positions s2 = positions s' /\
    velocities s2 = velocities s' /\
    forall i, (i < particle_count s)%nat ->
      densities s2 i = densities s' i /\ pressures s2 i = pressures s' i.
Proof.
  intros H; apply update_Returned in H.
  destruct H as (d1 & p1 & f1 & Hd & Hf & Hint & Hd' & Hp' & _).
  assert (Hrest : particle_count s = 0%nat \/ rest_density s <> 0).
  { destruct (particle_count s) as [|n] eqn:En; [left; reflexivity | right].
    assert (Hn : (0 < S n)%nat) by lia.
    destruct (density_pass_spec _ _ _ _ _ _ _ d1 p1 0%nat Hd Hn)
      as (_ & _ & Hr); exact Hr. }
  assert (Hpass : exists d2 p2,
             calculate_densities_and_pressures (positions s) d0 p0
               (smoothing_radius s) (rest_density s) (pressure_constant s)
               (particle_count s) = Returned (d2, p2)).
  { destruct Hrest as [Hz|Hr].
    - rewrite Hz; exists d0, p0; reflexivity.
    - apply density_pass_returns; exact Hr. }
  destruct Hpass as (d2 & p2 & Hd2).
  assert (Hagree : forall j, (j < particle_count s)%nat ->
                             d2 j = d1 j /\ p2 j = p1 j).
  { intros j Hj.
    destruct (density_pass_spec _ _ _ _ _ _ _ d1 p1 j Hd Hj) as (A & B & _).
    destruct (density_pass_spec _ _ _ _ _ _ _ d2 p2 j Hd2 Hj) as (A' & B' & _).
    split; [congruence | rewrite B, B', A, A'; reflexivity]. }
  unfold update; simpl.
  rewrite Hd2; cbn [bind].
  rewrite (force_pass_ext_below _ _ d2 p2 d1 p1 _ _ _ _ _ _ Hagree), Hf.
  cbn [bind]; rewrite <- Hint.
  eexists; split; [reflexivity|]; simpl.
  repeat split; try reflexivity; subst d1 p1; apply Hagree; assumption.
Qed.

Lemma step_forgets_densities_witness :
  exists s2,
    update (with_densities demo (fun _ => 7) (fun _ => -1)) 0.01 = Returned s2 /\
    positions s2 = positions (demo_step 0.01) /\
    velocities s2 = velocities (demo_step 0.01) /\
    forall i, (i < particle_count demo)%nat ->
      densities s2 i = densities (demo_step 0.01) i /\
      pressures s2 i = pressures (demo_step 0.01) i.
Proof.
  exact (step_forgets_densities demo (demo_step 0.01) 0.01 (fun _ => 7)
           (fun _ => -1) (demo_update 0.01)).
Defined.

(** * Components and fracture *)

(** ** Construction of a transform *)

Lemma value_or_Returned (g : gravity_arg) (dflt l : list R) :
  value_or g dflt = Returned l -> exists b, truth_value g = Returned b.
Proof.
  unfold value_or; intros H.
  apply bind_Returned in H; destruct H as (b & Hb & _); eauto.
Qed.

Lemma value_or_truth (g : gravity_arg) (dflt : list R) (b : bool) :
  truth_value g = Returned b -> exists l, value_or g dflt = Returned l.
Proof. intros H; unfold value_or; rewrite H; simpl; eauto. Qed.

(** X14.  [Transform(position, rotation, scale)] returns exactly when
    each of the three arguments has a truth value.  Given a numpy array of
    two or more elements as [position] it raises [ValueError] whatever the
    other two are; with no argument it holds position [(0, 0, 0)],
    rotation [(0, 0, 0)] and scale [(1, 1, 1)]; a non-empty list is stored
    as given. *)
Theorem Transform_init_outcome (position rotation scale : gravity_arg) :
  ((exists t, Transform_init position rotation scale = Returned t) <->
   (exists b1 b2 b3,
      truth_value position = Returned b1 /\
      truth_value rotation = Returned b2 /\
      truth_value scale = Returned b3)) /\
  (forall x y l,
     Transform_init (GArray (x :: y :: l)) rotation scale
     = Raised ValueError) /\
  Transform_init GNone GNone GNone
  = Returned (mkTransform [0; 0; 0] [0; 0; 0] [1; 1; 1]) /\
  (forall x l,
     Transform_init (GList (x :: l)) GNone GNone
     = Returned (mkTransform (x :: l) [0; 0; 0] [1; 1; 1])).
Proof.
  split; [split | split; [| split]].
  - intros (t & H); unfold Transform_init in H.
    apply bind_Returned in H; destruct H as (p & Hp & H).
    apply bind_Returned in H; destruct H as (r & Hr & H).
    apply bind_Returned in H; destruct H as (s & Hs & _).
    apply value_or_Returned in Hp; destruct Hp as (b1 & Hp).
    apply value_or_Returned in Hr; destruct Hr as (b2 & Hr).
    apply value_or_Returned in Hs; destruct Hs as (b3 & Hs).
    eauto 7.
  - intros (b1 & b2 & b3 & H1 & H2 & H3).
    destruct (value_or_truth position [0; 0; 0] b1 H1) as (p & Hp).
    destruct (value_or_truth rotation [0; 0; 0] b2 H2) as (r & Hr).
    destruct (value_or_truth scale [1; 1; 1] b3 H3) as (s & Hs).
    unfold Transform_init; rewrite Hp; cbn [bind]; rewrite Hr; cbn [bind].
    rewrite Hs; cbn [bind]; eauto.
  - reflexivity.
  - reflexivity.
  - reflexivity.
Qed.

Lemma Transform_init_outcome_witness :
  exists t, Transform_init (GList [1; 2; 3]) GNone (GArray [2]) = Returned t.
Proof.
  apply (proj2 (proj1 (Transform_init_outcome (GList [1; 2; 3]) GNone
                         (GArray [2])))).
  exists true, false, (negb (2 =? 0)); repeat split.
Defined.

(** ** The pieces that break off *)

Lemma calculate_pieces_dichotomy (pieces : list piece) (strength : R)
    (factor : nat -> R) (kick : nat -> vec3) (k : nat) (acc : list fragment) :
  ((forall j p, nth_error pieces j = Some p ->
                breaks_off (piece_volume p) (factor (k + j)%nat) = false) /\
   calculate_pieces_from k pieces strength factor kick acc = Returned acc) \/
  ((exists j p, nth_error pieces j = Some p /\
                breaks_off (piece_volume p) (factor (k + j)%nat) = true) /\
   calculate_pieces_from k pieces strength factor kick acc
   = Raised ValueError).
Proof.
  revert k acc; induction pieces as [|p pieces IH]; intros k acc.
  - left; split; [| reflexivity].
    intros j q Hq; destruct j; discriminate.
  - cbn [calculate_pieces_from]; cbv zeta.
    destruct (breaks_off (piece_volume p) (factor k)) eqn:Eb.
    + right; split; [| reflexivity].
      exists 0%nat, p; split; [reflexivity|].
      rewrite Nat.add_0_r; exact Eb.
    + destruct (IH (S k) acc) as [[Hall Hret] | [(j & q & Hq & Hb) Hret]].
      * left; split; [| exact Hret].
        intros [|j] q Hq.
        -- inversion Hq; subst q; rewrite Nat.add_0_r; exact Eb.
        -- replace (k + S j)%nat with (S k + j)%nat by lia.
           apply Hall; exact Hq.
      * right; split; [| exact Hret].
        exists (S j), q; split; [exact Hq|].
        replace (k + S j)%nat with (S k + j)%nat by lia; exact Hb.
Qed.

Lemma calculate_pieces_strength (pieces : list piece) (s1 s2 : R)
    (factor : nat -> R) (kick : nat -> vec3) (k : nat) (acc : list fragment) :
  calculate_pieces_from k pieces s1 factor kick acc
  = calculate_pieces_from k pieces s2 factor kick acc.
Proof.
  revert k acc; induction pieces as [|p pieces IH]; intros k acc;
    [reflexivity|].
  cbn [calculate_pieces_from]; cbv zeta.
  destruct (breaks_off (piece_volume p) (factor k)); [| apply IH].
  destruct (Transform_init (as_array (piece_position p)) GNone GNone);
    cbn [bind]; auto.
Qed.

(** X15.  [_calculate_fracture_pieces] never returns a fragment.  When no
    piece breaks off (none has a volume below 0.1, or below 0.5 with a
    draw below 1) it returns the empty list; as soon as one piece breaks
    off it raises [ValueError], because the piece's position, an array of
    three numbers, is handed to [Transform].  The argument
    [material_strength] has no influence on the outcome. *)
Theorem fracture_pieces_all_or_nothing (pieces : list piece) (strength : R)
    (factor : nat -> R) (kick : nat -> vec3) :
  ((forall j p, nth_error pieces j = Some p ->
                breaks_off (piece_volume p) (factor j) = false) ->
   _calculate_fracture_pieces pieces strength factor kick = Returned []) /\
  ((exists j p, nth_error pieces j = Some p /\
                breaks_off (piece_volume p) (factor j) = true) ->
   _calculate_fracture_pieces pieces strength factor kick
   = Raised ValueError) /\
  (forall result,
     _calculate_fracture_pieces pieces strength factor kick = Returned result ->
     result = []) /\
  (forall strength',
     _calculate_fracture_pieces pieces strength' factor kick
     = _calculate_fracture_pieces pieces strength factor kick).
Proof.
  unfold _calculate_fracture_pieces.
  destruct (calculate_pieces_dichotomy pieces strength factor kick 0 [])
    as [[Hall Hret] | [(j & p & Hp & Hb) Hret]]; simpl in *.
  - repeat split.
    + intros _; exact Hret.
    + intros (j & p & Hp & Hb); rewrite (Hall j p Hp) in Hb; discriminate.
    + intros result H; rewrite Hret in H; inversion H; reflexivity.
    + intros s'; apply calculate_pieces_strength.
  - repeat split.
    + intros Hall; rewrite (Hall j p Hp) in Hb; discriminate.
    + intros _; exact Hret.
    + intros result H; rewrite Hret in H; discriminate.
    + intros s'; apply calculate_pieces_strength.
Qed.

Lemma fracture_pieces_all_or_nothing_witness :
  _calculate_fracture_pieces [mkPiece vzero (V3 1 1 1) 1] 100 (fun _ => 1)
    (fun _ => vzero) = Returned [] /\
  _calculate_fracture_pieces [mkPiece vzero (V3 1 1 1) 1; mkPiece vzero vzero 0]
    100 (fun _ => 1) (fun _ => vzero) = Raised ValueError.
Proof.
  assert (Hbig : breaks_off 1 1 = false).
  { unfold breaks_off.
    assert (A : (1 <? 0.1) = false) by (apply Rltb_false; lra).
    assert (B : (1 <? 0.5) = false) by (apply Rltb_false; lra).
    rewrite A, B; reflexivity. }
  assert (Hsmall : breaks_off 0 1 = true).
  { unfold breaks_off.
    assert (A : (0 <? 0.1) = true) by (apply Rltb_true; lra).
    rewrite A; reflexivity. }
  split.
  - apply (proj1 (fracture_pieces_all_or_nothing
                    [mkPiece vzero (V3 1 1 1) 1] 100 (fun _ => 1)
                    (fun _ => vzero))).
    intros [|[|j]] p Hp; inversion Hp; exact Hbig.
  - apply (proj1 (proj2 (fracture_pieces_all_or_nothing
                           [mkPiece vzero (V3 1 1 1) 1; mkPiece vzero vzero 0]
                           100 (fun _ => 1) (fun _ => vzero)))).
    exists 1%nat, (mkPiece vzero vzero 0); split; [reflexivity | exact Hsmall].
Defined.

(** ** The pieces of the Voronoi pattern *)

Lemma column_min_le (l : list R) (x : R) : column_min x l <= x.
Proof.
  unfold column_min; revert x; induction l as [|a l IH]; intros x; simpl;
    [lra|].
  apply Rle_trans with (Rmin x a); [apply IH | apply Rmin_l].
Qed.

Lemma column_max_ge (l : list R) (x : R) : x <= column_max x l.
Proof.
  unfold column_max; revert x; induction l as [|a l IH]; intros x; simpl;
    [lra|].
  apply Rle_trans with (Rmax x a); [apply Rmax_l | apply IH].
Qed.

Lemma region_piece_spec (position size : vec3) (vertices : list (R * R))
    (region_idx : list Z) (pieces pieces' : list piece) :
  region_piece (vsub position (vdiv size 2)) (vadd position (vdiv size 2))
    vertices region_idx pieces = Returned pieces' ->
  Forall (extruded_piece position size) pieces ->
  Forall (extruded_piece position size) pieces' /\
  (List.length pieces' <= S (List.length pieces))%nat.
Proof.
  unfold region_piece; intros H Hall.
  destruct (Nat.eqb (List.length region_idx) 0 || existsb (Z.eqb (-1)) region_idx)%bool.
  - inversion H; subst; split; [exact Hall | lia].
  - apply bind_Returned in H; destruct H as (rows & _ & H).
    destruct rows as [|[x z] rows'].
    + inversion H; subst; split; [exact Hall | lia].
    + cbv zeta in H; inversion H; subst pieces'; clear H.
      split; [| rewrite length_app; simpl; lia].
      apply Forall_app; split; [exact Hall|].
      constructor; [| constructor].
      generalize (column_min_le (map fst rows') x),
        (column_max_ge (map fst rows') x),
        (column_min_le (map snd rows') z),
        (column_max_ge (map snd rows') z); intros A B C D.
      unfold extruded_piece; simpl; repeat split; lra.
Qed.

Lemma region_pieces_spec (position size : vec3) (vertices : list (R * R))
    (regions : list (list Z)) (pieces pieces' : list piece) :
  region_pieces (vsub position (vdiv size 2)) (vadd position (vdiv size 2))
    vertices regions pieces = Returned pieces' ->
  Forall (extruded_piece position size) pieces ->
  Forall (extruded_piece position size) pieces' /\
  (List.length pieces' <= List.length pieces + List.length regions)%nat.
Proof.
  revert pieces; induction regions as [|region_idx regions IH];
    intros pieces H Hall; simpl in H.
  - inversion H; subst; split; [exact Hall | lia].
  - apply bind_Returned in H; destruct H as (mid & Hmid & H).
    destruct (region_piece_spec _ _ _ _ _ _ Hmid Hall) as [Hall' Hlen].
    destruct (IH mid H Hall') as [Hall'' Hlen''].
    split; [exact Hall'' | simpl; lia].
Qed.

(** X16.  Every piece returned by [_generate_voronoi_fracture] spans the
    whole height of the object (its centre has the object's second
    coordinate and its size the object's height), has a footprint that is
    not negative, and a volume equal to the product of its extents; there
    is at most one piece per Voronoi region, and the diagram is computed
    from the fracture points followed by five random points. *)
Theorem voronoi_pieces_are_extruded
    (Voronoi : list (R * R) -> outcome voronoi) (jitter : nat -> vec3)
    (position size : vec3) (fracture_points : list vec3)
    (pieces : list piece) :
  _generate_voronoi_fracture Voronoi jitter position size fracture_points
  = Returned pieces ->
  Forall (extruded_piece position size) pieces /\
  exists points vor,
    Voronoi points = Returned vor /\
    List.length points = (List.length fracture_points + 5)%nat /\
    firstn (List.length fracture_points) points
    = map (fun p => (vx p, vz p)) fracture_points /\
    (List.length pieces <= List.length (regions vor))%nat.
Proof.
  unfold _generate_voronoi_fracture; cbv zeta; intros H.
  apply bind_Returned in H; destruct H as (vor & Hvor & H).
  destruct (region_pieces_spec _ _ _ _ _ _ H (Forall_nil _)) as [Hall Hlen].
  split; [exact Hall|].
  eexists; exists vor; split; [exact Hvor | split; [| split]].
  - rewrite length_map, length_app, length_map, length_seq; reflexivity.
  - rewrite map_app, firstn_app.
    rewrite <- (length_map (fun p => (vx p, vz p)) fracture_points) at 1 2.
    rewrite firstn_all, Nat.sub_diag; simpl; apply app_nil_r.
  - simpl in Hlen; exact Hlen.
Qed.

Lemma voronoi_pieces_are_extruded_witness :
  Forall (extruded_piece (V3 0 2 0) (V3 1 1 1))
    (returned_or
       (_generate_voronoi_fracture unit_cell (fun _ => vzero) (V3 0 2 0)
          (V3 1 1 1) [V3 0 2 0]) []).
Proof.
  assert (H : exists pieces,
             _generate_voronoi_fracture unit_cell (fun _ => vzero) (V3 0 2 0)
               (V3 1 1 1) [V3 0 2 0] = Returned pieces)
    by (eexists; reflexivity).
  destruct H as (pieces & H); rewrite H; cbn [returned_or].
  apply (voronoi_pieces_are_extruded unit_cell (fun _ => vzero) (V3 0 2 0)
           (V3 1 1 1) [V3 0 2 0] pieces H).
Defined.

(** ** The destructible cube *)

Lemma calculate_fracture_pieces_empty (pieces : list piece) (strength : R)
    (factor : nat -> R) (kick : nat -> vec3) (result : list fragment) :
  _calculate_fracture_pieces pieces strength factor kick = Returned result ->
  result = [].
Proof.
  unfold _calculate_fracture_pieces; intros H.
  destruct (calculate_pieces_dichotomy pieces strength factor kick 0 [])
    as [[_ Hret] | [_ Hret]]; rewrite Hret in H; inversion H; reflexivity.
Qed.

Lemma fracture_object_empty (Voronoi : list (R * R) -> outcome voronoi)
    (dr : draws) (position size : vec3) (fracture_points : list vec3)
    (strength : R) (frags : list fragment) :
  fracture_object Voronoi dr position size fracture_points strength
  = Returned frags ->
  frags = [].
Proof.
  unfold fracture_object; intros H.
  apply bind_Returned in H; destruct H as (pieces & _ & H).
  eapply calculate_fracture_pieces_empty; exact H.
Qed.

(** What one call [apply_damage] does to the cube, by cases. *)
Lemma apply_damage_cases (Voronoi : list (R * R) -> outcome voronoi)
    (dr : draws) (cube : DestructibleCube) (damage : R) (impact : vec3) :
  let cube' := fst (apply_damage Voronoi dr cube damage impact) in
  let status := snd (apply_damage Voronoi dr cube damage impact) in
  cube_position cube' = cube_position cube /\
  cube_size cube' = cube_size cube /\
  health cube' = health cube - damage /\
  ((intact cube = true /\ health cube - damage <= 0 /\
    ((status = Returned tt /\ intact cube' = false /\ fragments cube' = []) \/
     (status <> Returned tt /\ intact cube' = true /\
      fragments cube' = fragments cube))) \/
   ((intact cube = false \/ 0 < health cube - damage) /\
    status = Returned tt /\ intact cube' = intact cube /\
    fragments cube' = fragments cube)).
Proof.
  unfold apply_damage; cbv zeta; cbn [health intact].
  destruct (health cube - damage <=? 0) eqn:Eh;
    [apply Rleb_true in Eh | apply Rleb_false in Eh].
  - destruct (intact cube) eqn:Ei; cbn [andb].
    + unfold _fracture; cbv zeta; cbn [cube_position cube_size health].
      destruct (fracture_object Voronoi dr (cube_position cube)
                  (cube_size cube) _ 100) as [frags|e|] eqn:Ef; simpl.
      * apply fracture_object_empty in Ef; subst frags.
        repeat split; left; repeat split; auto.
      * repeat split; left; repeat split; auto.
        right; repeat split; auto; discriminate.
      * repeat split; left; repeat split; auto.
        right; repeat split; auto; discriminate.
    + simpl; repeat split; right; repeat split; auto.
  - rewrite andb_false_l; simpl; repeat split; right; repeat split; auto.
Qed.

(** X17.  Whatever the Voronoi diagrams and the random draws, a cube
    never shows a fragment: after any sequence of calls [apply_damage] on
    a new cube, failed calls included, its fragment list is empty and
    [get_fragments()] returns the empty list. *)
Theorem cube_never_has_fragments
    (Voronoi : list (R * R) -> outcome voronoi) (position size : vec3)
    (calls : list (R * vec3 * draws)) :
  fragments (damage_sequence Voronoi (DestructibleCube_init position size) calls)
  = [] /\
  get_fragments
    (damage_sequence Voronoi (DestructibleCube_init position size) calls)
  = [].
Proof.
  assert (G : forall calls cube,
             fragments cube = [] ->
             fragments (damage_sequence Voronoi cube calls) = []).
  { clear calls; induction calls as [|[[damage impact] dr] calls IH];
      intros cube Hc; simpl; [exact Hc|].
    apply IH.
    destruct (apply_damage_cases Voronoi dr cube damage impact)
      as (_ & _ & _ & [(_ & _ & [(_ & _ & F) | (_ & _ & F)])
                      | (_ & _ & _ & F)]);
      congruence. }
  assert (F := G calls (DestructibleCube_init position size) eq_refl).
  split; [exact F|].
  unfold get_fragments; rewrite F; destruct (negb _); reflexivity.
Qed.

(** X18.  One call [apply_damage(damage, impact)] always lowers the
    health by [damage].  On a cube that is already broken, or that keeps a
    positive health, it returns and changes nothing else.  On an intact
    cube whose health falls to zero or below, either it returns with the
    cube broken and no fragment, or it fails and leaves the cube intact,
    with the damage recorded. *)
Theorem apply_damage_outcome (Voronoi : list (R * R) -> outcome voronoi)
    (dr : draws) (cube : DestructibleCube) (damage : R) (impact : vec3) :
  let cube' := fst (apply_damage Voronoi dr cube damage impact) in
  let status := snd (apply_damage Voronoi dr cube damage impact) in
  health cube' = health cube - damage /\
  (intact cube = false \/ 0 < health cube - damage ->
   status = Returned tt /\ intact cube' = intact cube /\
   fragments cube' = fragments cube) /\
  (intact cube = true -> health cube - damage <= 0 ->
   (status = Returned tt /\ is_broken cube' = true /\ get_fragments cube' = [])
   \/
   (status <> Returned tt /\ is_broken cube' = false /\
    fragments cube' = fragments cube)).
Proof.
  intros cube' status.
  destruct (apply_damage_cases Voronoi dr cube damage impact)
    as (_ & _ & Hh & Hcases).
  fold cube' in Hh, Hcases; fold status in Hcases.
  split; [exact Hh | split].
  - intros Hsafe.
    destruct Hcases as [(Hi & Hle & _) | (_ & Hrest)]; [| exact Hrest].
    destruct Hsafe as [Hb | Hpos]; [congruence | lra].
  - intros Hi Hle.
    destruct Hcases as [(_ & _ & [(Hs & Hb & Hf) | (Hs & Hb & Hf)])
                       | ([Hb | Hpos] & _)]; try congruence; try lra.
    + left; split; [exact Hs | split].
      * unfold is_broken; rewrite Hb; reflexivity.
      * unfold get_fragments; rewrite Hb; simpl; exact Hf.
    + right; split; [exact Hs | split; [| exact Hf]].
      unfold is_broken; rewrite Hb; reflexivity.
Qed.

Lemma apply_damage_outcome_witness :
  let cube := DestructibleCube_init (V3 0 2 0) (V3 1 1 1) in
  let cube' := fst (apply_damage unit_cell still_draws cube 30 (V3 0 2 0)) in
  let status := snd (apply_damage unit_cell still_draws cube 30 (V3 0 2 0)) in
  status = Returned tt /\ intact cube' = intact cube /\
  fragments cube' = fragments cube.
Proof.
  intros cube cube' status.
  destruct (apply_damage_outcome unit_cell still_draws cube 30 (V3 0 2 0))
    as (_ & Hsafe & _).
  apply Hsafe; right; simpl; lra.
Defined.

Lemma damage_sequence_app (Voronoi : list (R * R) -> outcome voronoi)
    (cube : DestructibleCube) (c1 c2 : list (R * vec3 * draws)) :
  damage_sequence Voronoi cube (c1 ++ c2)
  = damage_sequence Voronoi (damage_sequence Voronoi cube c1) c2.
Proof.
  revert cube; induction c1 as [|[[d i] dr] c1 IH]; intros cube; simpl;
    [reflexivity | apply IH].
Qed.

(** X19.  Over any sequence of calls [apply_damage], failed calls
    included, the health of a cube is its initial health minus the sum of
    the damages; a cube that is broken stays broken and keeps its fragment
    list; and a new cube is still intact as long as every prefix of the
    sequence sums to less than 100. *)
Theorem cube_damage_bookkeeping (Voronoi : list (R * R) -> outcome voronoi)
    (cube : DestructibleCube) (calls : list (R * vec3 * draws)) :
  health (damage_sequence Voronoi cube calls)
  = health cube - total_damage calls /\
  (intact cube = false ->
   intact (damage_sequence Voronoi cube calls) = false /\
   fragments (damage_sequence Voronoi cube calls) = fragments cube) /\
  (intact cube = true ->
   (forall n, (n <= List.length calls)%nat ->
              total_damage (firstn n calls) < health cube) ->
   intact (damage_sequence Voronoi cube calls) = true).
Proof.
  revert cube; induction calls as [|[[damage impact] dr] calls IH];
    intros cube.
  - simpl; unfold total_damage; simpl; repeat split; auto; lra.
  - destruct (apply_damage_cases Voronoi dr cube damage impact)
      as (_ & _ & Hh & Hcases).
    destruct (IH (fst (apply_damage Voronoi dr cube damage impact)))
      as (IHh & IHb & IHi).
    cbn [damage_sequence].
    split; [| split].
    + rewrite IHh, Hh; unfold total_damage; simpl; lra.
    + intros Hb.
      destruct Hcases as [(Hi & _) | (_ & _ & Hi' & Hf')]; [congruence|].
      destruct IHb as [A B]; [congruence|].
      split; [exact A | congruence].
    + intros Hi Hpre.
      assert (H1 : total_damage (firstn 1 ((damage, impact, dr) :: calls))
                   < health cube) by (apply Hpre; simpl; lia).
      unfold total_damage in H1; simpl in H1.
      destruct Hcases as [(_ & Hle & _) | (_ & _ & Hi' & _)]; [lra|].
      apply IHi; [congruence|].
      intros n Hn; rewrite Hh.
      assert (Hn' : total_damage (firstn (S n) ((damage, impact, dr) :: calls))
                    < health cube) by (apply Hpre; simpl; lia).
      unfold total_damage in *; simpl in Hn'; lra.
Qed.

Lemma cube_damage_bookkeeping_witness :
  let calls := [(30, V3 0 2 0, still_draws); (40, V3 0 2 0, still_draws)] in
  let cube := DestructibleCube_init (V3 0 2 0) (V3 1 1 1) in
  health (damage_sequence unit_cell cube calls) = 100 - (30 + (40 + 0)) /\
  intact (damage_sequence unit_cell cube calls) = true.
Proof.
  intros calls cube.
  destruct (cube_damage_bookkeeping unit_cell cube calls) as (Hh & _ & Hi).
  split; [exact Hh|].
  apply Hi; [reflexivity|].
  intros [|[|[|n]]] Hn; unfold total_damage; simpl; lra.
Defined.

(** * Entities and scenes *)

(** ** Dictionaries *)

Section DictFacts.
Context {K V : Type} (eqb : K -> K -> bool).
Hypothesis eqb_eq : forall a b, eqb a b = true <-> a = b.

Lemma eqb_refl_true (k : K) : eqb k k = true.
Proof. apply eqb_eq; reflexivity. Qed.

Lemma eqb_neq_false (a b : K) : a <> b -> eqb a b = false.
Proof.
  intros H; destruct (eqb a b) eqn:E; [| reflexivity].
  apply eqb_eq in E; contradiction.
Qed.

Lemma dict_get_None_keys (k : K) (d : list (K * V)) :
  dict_get eqb k d = None <-> ~ In k (map fst d).
Proof.
  induction d as [|[k' v'] d IH]; simpl; [tauto|].
  destruct (eqb k k') eqn:E.
  - apply eqb_eq in E; subst k'; split; [discriminate | tauto].
  - rewrite IH; split.
    + intros H [Hk|Hk]; [| tauto].
      subst k'; rewrite eqb_refl_true in E; discriminate.
    + tauto.
Qed.

Lemma dict_get_set_same (k : K) (v : V) (d : list (K * V)) :
  dict_get eqb k (dict_set eqb k v d) = Some v.
Proof.
  induction d as [|[k' v'] d IH]; simpl.
  - rewrite eqb_refl_true; reflexivity.
  - destruct (eqb k k') eqn:E; simpl; rewrite E; auto.
Qed.

Lemma dict_get_set_other (k k' : K) (v : V) (d : list (K * V)) :
  k' <> k -> dict_get eqb k' (dict_set eqb k v d) = dict_get eqb k' d.
Proof.
  intros Hne; induction d as [|[k2 v2] d IH]; simpl.
  - rewrite eqb_neq_false by exact Hne; reflexivity.
  - destruct (eqb k k2) eqn:E; simpl.
    + apply eqb_eq in E; subst k2.
      rewrite eqb_neq_false by exact Hne; reflexivity.
    + rewrite IH; reflexivity.
Qed.

Lemma dict_set_keys (k : K) (v : V) (d : list (K * V)) :
  map fst (dict_set eqb k v d)
  = if dict_mem eqb k d then map fst d else map fst d ++ [k].
Proof.
  unfold dict_mem; induction d as [|[k' v'] d IH]; simpl; [reflexivity|].
  destruct (eqb k k') eqn:E; simpl; [reflexivity|].
  rewrite IH; destruct (dict_get eqb k d); reflexivity.
Qed.

Lemma dict_set_NoDup (k : K) (v : V) (d : list (K * V)) :
  NoDup (map fst d) -> NoDup (map fst (dict_set eqb k v d)).
Proof.
  intros H; rewrite dict_set_keys; unfold dict_mem.
  destruct (dict_get eqb k d) eqn:E; [exact H|].
  apply dict_get_None_keys in E.
  apply NoDup_app; repeat split; auto.
  - constructor; [intros [] | constructor].
  - intros x Hx [Hk|[]]; subst x; contradiction.
Qed.

Lemma dict_del_keys_subset (k x : K) (d : list (K * V)) :
  In x (map fst (dict_del eqb k d)) -> In x (map fst d).
Proof.
  induction d as [|[k' v'] d IH]; simpl; [tauto|].
  destruct (eqb k k'); simpl; tauto.
Qed.

Lemma dict_del_NoDup (k : K) (d : list (K * V)) :
  NoDup (map fst d) -> NoDup (map fst (dict_del eqb k d)).
Proof.
  induction d as [|[k' v'] d IH]; simpl; intros H; [constructor|].
  inversion H as [|? ? Hnot Hd]; subst.
  destruct (eqb k k'); simpl; [exact Hd|].
  constructor; [| apply IH; exact Hd].
  intros Hin; apply Hnot; eapply dict_del_keys_subset; exact Hin.
Qed.

Lemma dict_get_del_same (k : K) (d : list (K * V)) :
  NoDup (map fst d) -> dict_get eqb k (dict_del eqb k d) = None.
Proof.
  induction d as [|[k' v'] d IH]; simpl; intros H; [reflexivity|].
  inversion H as [|? ? Hnot Hd]; subst.
  destruct (eqb k k') eqn:E; simpl.
  - apply eqb_eq in E; subst k'; apply dict_get_None_keys; exact Hnot.
  - rewrite E; apply IH; exact Hd.
Qed.

Lemma dict_get_del_other (k k' : K) (d : list (K * V)) :
  k' <> k -> dict_get eqb k' (dict_del eqb k d) = dict_get eqb k' d.
Proof.
  intros Hne; induction d as [|[k2 v2] d IH]; simpl; [reflexivity|].
  destruct (eqb k k2) eqn:E; simpl.
  - apply eqb_eq in E; subst k2.
    rewrite eqb_neq_false by exact Hne; reflexivity.
  - rewrite IH; reflexivity.
Qed.

Lemma dict_del_set_absent (k : K) (v : V) (d : list (K * V)) :
  dict_get eqb k d = None -> dict_del eqb k (dict_set eqb k v d) = d.
Proof.
  induction d as [|[k' v'] d IH]; simpl; intros H.
  - rewrite eqb_refl_true; reflexivity.
  - destruct (eqb k k') eqn:E; [discriminate|]; simpl.
    rewrite E, IH by exact H; reflexivity.
Qed.
End DictFacts.

(** ** Components of an entity *)

(** X20.  An entity holds one component per class name (its dictionary
    of components has each key once).  After [add_component(c)],
    [get_component] finds [c] under the name of its class, replacing any
    component of that class, and every other name is unaffected; after
    [remove_component(name)], [get_component(name)] is [None]; removing a
    name that is absent changes nothing; and adding a component of a new
    class and removing it again gives the entity back. *)
Theorem entity_component_store (e : Entity) (c : component)
    (ty : String.string) :
  NoDup (map fst (components e)) ->
  get_component (add_component e c) (type_name c) = Some c /\
  (ty <> type_name c ->
   get_component (add_component e c) ty = get_component e ty) /\
  get_component (remove_component e ty) ty = None /\
  (get_component e ty = None -> remove_component e ty = e) /\
  (get_component e (type_name c) = None ->
   remove_component (add_component e c) (type_name c) = e) /\
  NoDup (map fst (components (add_component e c))) /\
  NoDup (map fst (components (remove_component e ty))).
Proof.
  intros Hnd; unfold get_component, add_component, remove_component.
  repeat split.
  - simpl; apply dict_get_set_same, String.eqb_eq.
  - intros Hne; simpl; apply dict_get_set_other; [apply String.eqb_eq | exact Hne].
  - unfold dict_mem.
    destruct (dict_get String.eqb ty (components e)) eqn:E; simpl; [| exact E].
    apply dict_get_del_same; [apply String.eqb_eq | exact Hnd].
  - intros H; unfold dict_mem; rewrite H; reflexivity.
  - intros H; simpl; unfold dict_mem.
    rewrite (dict_get_set_same String.eqb String.eqb_eq).
    rewrite (dict_del_set_absent String.eqb String.eqb_eq) by exact H.
    destruct e; reflexivity.
  - simpl; apply dict_set_NoDup; [apply String.eqb_eq | exact Hnd].
  - destruct (dict_mem String.eqb ty (components e)); simpl; [| exact Hnd].
    apply dict_del_NoDup; exact Hnd.
Qed.

Lemma entity_component_store_witness :
  let e := mkEntity "DestructibleCube"%string 7 [] true
             (mkTransform [0; 2; 0] [0; 0; 0] [1; 1; 1]) in
  let c := CPhysicsBody (PhysicsBody_init 10 false) in
  get_component (add_component e c) "PhysicsBody"%string = Some c /\
  remove_component (add_component e c) "PhysicsBody"%string = e.
Proof.
  intros e c.
  destruct (entity_component_store e c "Renderable"%string (NoDup_nil _))
    as (Hget & _ & _ & _ & Hback & _).
  split; [exact Hget | apply Hback; reflexivity].
Defined.

(** ** Entities of a scene *)

Lemma existsb_eqb_In (x : nat) (l : list nat) :
  existsb (Nat.eqb x) l = true <-> In x l.
Proof.
  rewrite existsb_exists; split.
  - intros (y & Hy & E); apply Nat.eqb_eq in E; subst y; exact Hy.
  - intros H; exists x; split; [exact H | apply Nat.eqb_refl].
Qed.

Lemma remove_first_app_new (x : nat) (l : list nat) :
  ~ In x l -> remove_first x (l ++ [x]) = l.
Proof.
  induction l as [|y l IH]; simpl; intros H.
  - rewrite Nat.eqb_refl; reflexivity.
  - destruct (Nat.eqb_spec x y) as [->|Hne]; [tauto|].
    rewrite IH by tauto; reflexivity.
Qed.

Lemma remove_first_In (x y : nat) (l : list nat) :
  In y (remove_first x l) -> In y l.
Proof.
  induction l as [|z l IH]; simpl; [tauto|].
  destruct (Nat.eqb x z); simpl; tauto.
Qed.

Lemma remove_first_other (x y : nat) (l : list nat) :
  y <> x -> In y l -> In y (remove_first x l).
Proof.
  intros Hne; induction l as [|z l IH]; simpl; [tauto|].
  destruct (Nat.eqb_spec x z) as [->|Hxz]; simpl; intuition congruence.
Qed.

Lemma remove_first_NoDup (x : nat) (l : list nat) :
  NoDup l -> ~ In x (remove_first x l).
Proof.
  induction l as [|z l IH]; simpl; intros H; [tauto|].
  inversion H as [|? ? Hnot Hl]; subst.
  destruct (Nat.eqb_spec x z) as [->|Hxz]; simpl; [exact Hnot|].
  intros [Hz|Hin]; [congruence | apply IH; assumption].
Qed.

Lemma dict_mem_true_keys (k : nat) (d : list (nat * nat)) :
  dict_mem Nat.eqb k d = true <-> In k (map fst d).
Proof.
  unfold dict_mem.
  destruct (dict_get Nat.eqb k d) eqn:E.
  - split; [intros _ | reflexivity].
    destruct (in_dec Nat.eq_dec k (map fst d)) as [Hin|Hout]; [exact Hin|].
    apply (dict_get_None_keys Nat.eqb Nat.eqb_eq) in Hout; congruence.
  - split; [discriminate|].
    intros Hin; apply (dict_get_None_keys Nat.eqb Nat.eqb_eq) in E; contradiction.
Qed.

(** X21.  [remove_entity] of an entity that is not in the scene changes
    nothing; adding an entity that is not yet in a consistent scene and
    removing it again gives the scene back; [add_entity] keeps the list of
    entities and the keys of [entity_map] in agreement, and so does
    [remove_entity] when the list holds no entity twice. *)
Theorem scene_add_remove (sc : Scene) (e : nat) :
  (~ In e (entities sc) -> remove_entity sc e = sc) /\
  (scene_consistent sc -> ~ In e (entities sc) ->
   remove_entity (add_entity sc e) e = sc) /\
  (scene_consistent sc -> scene_consistent (add_entity sc e)) /\
  (scene_consistent sc -> NoDup (entities sc) ->
   NoDup (map fst (entity_map sc)) ->
   scene_consistent (remove_entity sc e)).
Proof.
  split; [| split; [| split]].
  - intros Hout; unfold remove_entity.
    destruct (existsb (Nat.eqb e) (entities sc)) eqn:E; [| reflexivity].
    apply existsb_eqb_In in E; contradiction.
  - intros Hc Hout; unfold remove_entity, add_entity; simpl.
    assert (E : existsb (Nat.eqb e) (entities sc ++ [e]) = true)
      by (apply existsb_eqb_In, in_or_app; right; left; reflexivity).
    rewrite E, (remove_first_app_new e _ Hout).
    assert (Habs : dict_get Nat.eqb e (entity_map sc) = None).
    { destruct (dict_get Nat.eqb e (entity_map sc)) eqn:G; [| reflexivity].
      exfalso; apply Hout, Hc; unfold dict_mem; rewrite G; reflexivity. }
    unfold dict_mem; rewrite (dict_get_set_same Nat.eqb Nat.eqb_eq).
    rewrite (dict_del_set_absent Nat.eqb Nat.eqb_eq) by exact Habs.
    destruct sc; reflexivity.
  - intros Hc x; unfold add_entity; simpl.
    rewrite in_app_iff, dict_mem_true_keys, dict_set_keys.
    specialize (Hc x); rewrite dict_mem_true_keys in Hc.
    destruct (dict_mem Nat.eqb e (entity_map sc)) eqn:M.
    + apply dict_mem_true_keys in M.
      split; [intros [Hx|[<-|[]]]; tauto | tauto].
    + rewrite in_app_iff; simpl; tauto.
  - intros Hc Hnd Hndm x; unfold remove_entity.
    destruct (existsb (Nat.eqb e) (entities sc)) eqn:E; [| apply Hc].
    apply existsb_eqb_In in E; simpl.
    assert (M : dict_mem Nat.eqb e (entity_map sc) = true) by (apply Hc; exact E).
    rewrite M.
    destruct (Nat.eq_dec x e) as [->|Hne].
    + split.
      * intros Hin; exfalso; revert Hin; apply remove_first_NoDup; exact Hnd.
      * unfold dict_mem.
        rewrite (dict_get_del_same Nat.eqb Nat.eqb_eq) by exact Hndm.
        discriminate.
    + unfold dict_mem.
      rewrite (dict_get_del_other Nat.eqb Nat.eqb_eq) by exact Hne.
      fold (dict_mem Nat.eqb x (entity_map sc)); rewrite <- (Hc x).
      split; [apply remove_first_In | apply remove_first_other; exact Hne].
Qed.

Lemma scene_init_consistent : scene_consistent Scene_init.
Proof. intros e; simpl; split; [tauto | discriminate]. Qed.

Lemma scene_add_remove_witness :
  remove_entity (add_entity Scene_init 7) 7 = Scene_init /\
  scene_consistent (add_entity Scene_init 7) /\
  scene_consistent (remove_entity Scene_init 7).
Proof.
  destruct (scene_add_remove Scene_init 7) as (_ & Hback & Hadd & Hrem).
  split; [apply Hback; [exact scene_init_consistent | simpl; tauto] |].
  split; [apply Hadd; exact scene_init_consistent |].
  apply Hrem; [exact scene_init_consistent | constructor | constructor].
Defined.

(** X22.  A scene does not protect itself against adding an entity twice:
    after two [add_entity] and one [remove_entity] of the same entity, it
    is still in the list of entities but no longer in [entity_map]. *)
Theorem scene_double_add (sc : Scene) (e : nat) :
  NoDup (map fst (entity_map sc)) ->
  let sc' := remove_entity (add_entity (add_entity sc e) e) e in
  In e (entities sc') /\ dict_get Nat.eqb e (entity_map sc') = None.
Proof.
  intros Hnd sc'; unfold sc', remove_entity, add_entity; simpl.
  assert (E : existsb (Nat.eqb e) ((entities sc ++ [e]) ++ [e]) = true)
    by (apply existsb_eqb_In, in_or_app; right; left; reflexivity).
  rewrite E; simpl; split.
  - destruct (in_dec Nat.eq_dec e (entities sc ++ [e])) as [Hin|Hout].
    + clear E; induction (entities sc ++ [e]) as [|y l IH]; simpl in *;
        [tauto|].
      destruct (Nat.eqb_spec e y) as [->|Hne].
      * apply in_or_app; right; left; reflexivity.
      * right; apply IH; destruct Hin; [congruence | assumption].
    + exfalso; apply Hout, in_or_app; right; left; reflexivity.
  - unfold dict_mem.
    rewrite (dict_get_set_same Nat.eqb Nat.eqb_eq).
    apply (dict_get_del_same Nat.eqb Nat.eqb_eq).
    do 2 apply (dict_set_NoDup Nat.eqb Nat.eqb_eq); exact Hnd.
Qed.

Lemma scene_double_add_witness :
  In 7%nat (entities (remove_entity (add_entity (add_entity Scene_init 7) 7) 7))
  /\ dict_get Nat.eqb 7%nat
       (entity_map (remove_entity (add_entity (add_entity Scene_init 7) 7) 7))
     = None.
Proof.
  apply (scene_double_add Scene_init 7); constructor.
Defined.

(** X23.  [find_entity_by_name] returns the first entity of the scene, in
    the order of insertion, that carries the name, and [None] exactly when
    no entity of the scene carries it; an entity added later is found only
    if none before it has the name. *)
Theorem find_entity_first_match (name_of : nat -> String.string) (sc : Scene)
    (n : String.string) :
  (forall e, find_entity_by_name name_of sc n = Some e ->
             In e (entities sc) /\ name_of e = n) /\
  (find_entity_by_name name_of sc n = None <->
   forall e, In e (entities sc) -> name_of e <> n) /\
  (forall e,
     find_entity_by_name name_of (add_entity sc e) n
     = match find_entity_by_name name_of sc n with
       | Some x => Some x
       | None => if String.eqb (name_of e) n then Some e else None
       end).
Proof.
  unfold find_entity_by_name; split; [| split].
  - intros e H; apply find_some in H; destruct H as [Hin Hn].
    apply String.eqb_eq in Hn; auto.
  - split.
    + intros H e Hin Hn.
      generalize (find_none _ _ H e Hin); simpl; intros Hf.
      apply String.eqb_neq in Hf; contradiction.
    + intros H.
      destruct (find _ (entities sc)) as [e|] eqn:F; [| reflexivity].
      apply find_some in F; destruct F as [Hin Hn].
      apply String.eqb_eq in Hn; exfalso; apply (H e Hin Hn).
  - intros e; unfold add_entity; simpl.
    induction (entities sc) as [|y l IH]; simpl.
    + destruct (String.eqb (name_of e) n); reflexivity.
    + destruct (String.eqb (name_of y) n); [reflexivity | exact IH].
Qed.

(** ** A lethal hit, on two diagrams *)

(** The click of the demo applies a damage of 150.  With a diagram that
    has no bounded cell the cube breaks and has no fragment. *)
Example lethal_hit_without_cell :
  let hit := apply_damage open_cells still_draws
               (DestructibleCube_init (V3 0 2 0) (V3 1 1 1)) 150 (V3 0 2 0) in
  snd hit = Returned tt /\ is_broken (fst hit) = true /\
  get_fragments (fst hit) = [] /\ health (fst hit) = 100 - 150.
Proof.
  unfold apply_damage, DestructibleCube_init; cbv zeta; cbn [health intact].
  assert (H : (100 - 150 <=? 0) = true) by (apply Rleb_true; lra).
  rewrite H; cbn [andb]; repeat split.
Qed.

Lemma unit_cell_pieces :
  exists p,
    _generate_voronoi_fracture unit_cell (jitter still_draws) (V3 0 2 0)
      (V3 1 1 1)
      (V3 0 2 0
       :: map (fun k => vadd (V3 0 2 0) (vmul (offset still_draws k) (V3 1 1 1)))
            (seq 0 3))
    = Returned [p] /\
    piece_volume p = 0.2 * 1 * 0.2.
Proof.
  eexists; split; [reflexivity|]; simpl.
  unfold column_max, column_min; simpl.
  rewrite (Rmax_left 0 0), (Rmin_left 0 0) by lra.
  rewrite !(Rmax_right 0 0.2), !(Rmin_left 0 0.2) by lra.
  rewrite (Rmax_left 0.2 0), (Rmin_left 0 0) by lra.
  lra.
Qed.

(** With a diagram that has one small bounded cell the call fails with
    [ValueError]; the cube stays intact, its health is lowered. *)
Example lethal_hit_on_cell :
  let hit := apply_damage unit_cell still_draws
               (DestructibleCube_init (V3 0 2 0) (V3 1 1 1)) 150 (V3 0 2 0) in
  snd hit = Raised ValueError /\ is_broken (fst hit) = false /\
  health (fst hit) = 100 - 150.
Proof.
  unfold apply_damage, DestructibleCube_init; cbv zeta; cbn [health intact].
  assert (H : (100 - 150 <=? 0) = true) by (apply Rleb_true; lra).
  rewrite H; cbn [andb].
  unfold _fracture; cbv zeta; cbn [cube_position cube_size].
  unfold fracture_object.
  destruct unit_cell_pieces as (p & Hp & Hv); rewrite Hp; cbn [bind].
  unfold _calculate_fracture_pieces.
  destruct (calculate_pieces_dichotomy [p] 100 (random_factor still_draws)
              (kick still_draws) 0 []) as [[Hall _] | [_ Hret]].
  - exfalso.
    generalize (Hall 0%nat p eq_refl); unfold breaks_off; rewrite Hv.
    assert (A : (0.2 * 1 * 0.2 <? 0.1) = true) by (apply Rltb_true; lra).
    rewrite A; discriminate.
  - rewrite Hret; repeat split.
Qed.
(** * Properties of the step on float32 arrays *)

(** ** Floats *)

Lemma store_in_range (x : R) :
  - Float32.overflow_threshold < x < Float32.overflow_threshold ->
  Float32.store (Float32.Fin x) = Float32.Fin x.
Proof.
  intros [Hlo Hhi]; unfold Float32.store.
  assert (H1 : (Float32.overflow_threshold <=? x) = false)
    by (apply Rleb_false; exact Hhi).
  assert (H2 : (x <=? - Float32.overflow_threshold) = false)
    by (apply Rleb_false; exact Hlo).
  rewrite H1, H2; reflexivity.
Qed.





Lemma float32_in_range (x : R) :
  Rabs x <= float32_max -> Float32.float32 x = Returned x.
Proof.
  intros H; unfold Float32.float32.
  rewrite (proj2 (fits_true float32_max x) H); reflexivity.
Qed.

(** ** Rows *)

Lemma fget_fset_same (v : Float32.fvec3) (a : axis) (r : Float32.float) :
  Float32.fget (Float32.fset v a r) a = r.
Proof. destruct a; reflexivity. Qed.

Lemma fget_fset_other (v : Float32.fvec3) (a b : axis) (r : Float32.float) :
  a <> b -> Float32.fget (Float32.fset v b r) a = Float32.fget v a.
Proof. destruct a, b; intros H; try reflexivity; contradiction. Qed.

Lemma fget_add3 (u v : Float32.fvec3) (a : axis) :
  Float32.fget (Float32.add3 u v) a
  = Float32.add (Float32.fget u a) (Float32.fget v a).
Proof. destruct a; reflexivity. Qed.

Lemma fget_scale3 (u : Float32.fvec3) (k : Float32.float) (a : axis) :
  Float32.fget (Float32.scale3 u k) a = Float32.mul (Float32.fget u a) k.
Proof. destruct a; reflexivity. Qed.

Lemma fget_store3 (u : Float32.fvec3) (a : axis) :
  Float32.fget (Float32.store3 u) a = Float32.store (Float32.fget u a).
Proof. destruct a; reflexivity. Qed.

Lemma fget_fin3 (u : vec3) (a : axis) :
  Float32.fget (Float32.fin3 u) a = Float32.Fin (get u a).
Proof. destruct a; reflexivity. Qed.

(** ** Integration and boundary handling *)

Section Boundary32.
Variables (lo hi : Float32.fvec3) (damping : Float32.float) (i : nat).

Lemma f32_boundary_body_spec (j : axis) (P V : array Float32.fvec3) :
  let st' := Float32.boundary_body lo hi damping i j (P, V) in
  (forall k, k <> i -> fst st' k = P k /\ snd st' k = V k) /\
  (forall a, a <> j ->
     Float32.fget (fst st' i) a = Float32.fget (P i) a /\
     Float32.fget (snd st' i) a = Float32.fget (V i) a) /\
  (Float32.fget (fst st' i) j, Float32.fget (snd st' i) j)
  = Float32.clamp_axis (Float32.fget (P i) j) (Float32.fget (V i) j)
      (Float32.fget lo j) (Float32.fget hi j) damping.
Proof.
  unfold Float32.boundary_body, Float32.clamp_axis.
  destruct (Float32.ltb (Float32.fget (P i) j) (Float32.fget lo j));
    [| destruct (Float32.gtb (Float32.fget (P i) j) (Float32.fget hi j))];
    cbv zeta; simpl;
    repeat split; intros;
    rewrite ?upd_same, ?upd_other, ?fget_fset_same, ?fget_fset_other
      by assumption;
    reflexivity.
Qed.

Lemma f32_for_axes_boundary_spec (P V : array Float32.fvec3) :
  let st' := for_axes (Float32.boundary_body lo hi damping i) (P, V) in
  (forall k, k <> i -> fst st' k = P k /\ snd st' k = V k) /\
  (forall a,
     (Float32.fget (fst st' i) a, Float32.fget (snd st' i) a)
     = Float32.clamp_axis (Float32.fget (P i) a) (Float32.fget (V i) a)
         (Float32.fget lo a) (Float32.fget hi a) damping).
Proof.
  unfold for_axes, fold_left.
  destruct (Float32.boundary_body lo hi damping i A0 (P, V)) as [P1 V1] eqn:E1.
  destruct (Float32.boundary_body lo hi damping i A1 (P1, V1)) as [P2 V2] eqn:E2.
  destruct (Float32.boundary_body lo hi damping i A2 (P2, V2)) as [P3 V3] eqn:E3.
  generalize (f32_boundary_body_spec A0 P V); rewrite E1; simpl.
  intros (O1 & K1 & C1).
  generalize (f32_boundary_body_spec A1 P1 V1); rewrite E2; simpl.
  intros (O2 & K2 & C2).
  generalize (f32_boundary_body_spec A2 P2 V2); rewrite E3; simpl.
  intros (O3 & K3 & C3).
  split.
  - intros k Hk.
    destruct (O3 k Hk) as [E3a E3b], (O2 k Hk) as [E2a E2b],
      (O1 k Hk) as [E1a E1b].
    split; congruence.
  - assert (N01 : A0 <> A1) by discriminate.
    assert (N02 : A0 <> A2) by discriminate.
    assert (N10 : A1 <> A0) by discriminate.
    assert (N12 : A1 <> A2) by discriminate.
    assert (N20 : A2 <> A0) by discriminate.
    assert (N21 : A2 <> A1) by discriminate.
    intros [| |].
    + destruct (K3 A0 N02) as [Ea Eb], (K2 A0 N01) as [Ec Ed].
      rewrite Ea, Eb, Ec, Ed; exact C1.
    + destruct (K3 A1 N12) as [Ea Eb], (K1 A1 N10) as [Ec Ed].
      rewrite Ea, Eb, <- Ec, <- Ed; exact C2.
    + destruct (K1 A2 N20) as [Ea Eb], (K2 A2 N21) as [Ec Ed].
      rewrite <- Ea, <- Eb, <- Ec, <- Ed; exact C3.
Qed.
End Boundary32.

Section Integration32.
Variables (P0 V0 F : array Float32.fvec3) (dt : Float32.float).
Variables (lo hi : Float32.fvec3) (damping : Float32.float) (count : nat).

Lemma f32_integrate_motion_inv :
  Float32.integrate_inv P0 V0 F dt lo hi damping count
    (Float32.integrate_motion P0 V0 F dt lo hi damping count).
Proof.
  unfold Float32.integrate_motion.
  apply (for_range_inv (Float32.integrate_inv P0 V0 F dt lo hi damping)).
  - split; [intros i a Hi; lia | intros i _; auto].
  - intros i [P V] Hi [Hlo Hhi]; simpl in Hlo, Hhi; cbv zeta.
    set (V1 := upd V i (Float32.store3
                          (Float32.add3 (V i) (Float32.scale3 (F i) dt)))).
    set (P1 := upd P i (Float32.store3
                          (Float32.add3 (P i) (Float32.scale3 (V1 i) dt)))).
    generalize (f32_for_axes_boundary_spec lo hi damping i P1 V1).
    destruct (for_axes (Float32.boundary_body lo hi damping i) (P1, V1))
      as [P2 V2].
    simpl; intros [Hoth Hcl].
    destruct (Hhi i (Nat.le_refl i)) as [HP HV].
    split; simpl.
    + intros k a Hk.
      destruct (Nat.eq_dec k i) as [->|Hne].
      * rewrite Hcl; unfold Float32.euler_axis; cbv zeta.
        unfold P1, V1; rewrite !upd_same, !fget_store3, !fget_add3,
          !fget_scale3, !fget_store3, !fget_add3, !fget_scale3, HP, HV;
          reflexivity.
      * destruct (Hoth k Hne) as [-> ->].
        unfold P1, V1; rewrite !upd_other by exact Hne.
        apply Hlo; lia.
    + intros k Hk.
      destruct (Hoth k) as [-> ->]; [lia|].
      unfold P1, V1; rewrite !upd_other by lia.
      apply Hhi; lia.
Qed.
End Integration32.



(** ** The step *)

Lemma f32_update_Returned (s s' : Float32.SPHSystem) (dt : Float32.float) :
  Float32.update s dt = Returned s' ->
  exists d' p' f',
    Float32.calculate_forces (Float32.positions s) (Float32.velocities s)
      d' p' (Float32.forces s) (Float32.smoothing_radius s)
      (Float32.viscosity s) (Float32.kernel_constant s) (Float32.gravity s)
      (Float32.particle_count s) = Returned f' /\
    (Float32.positions s', Float32.velocities s')
    = Float32.integrate_motion (Float32.positions s) (Float32.velocities s)
        (fun i => Float32.fin3 (f' i)) dt
        (Float32.fin3 (Float32.boundary_min s))
        (Float32.fin3 (Float32.boundary_max s))
        (Float32.Fin (Float32.boundary_damping s))
        (Float32.particle_count s) /\
    Float32.particle_count s' = Float32.particle_count s /\
    Float32.boundary_min s' = Float32.boundary_min s /\
    Float32.boundary_max s' = Float32.boundary_max s /\
    Float32.boundary_damping s' = Float32.boundary_damping s.
Proof.
  unfold Float32.update; intros H.
  apply bind_Returned in H; destruct H as ([d' p'] & Hd & H).
  apply bind_Returned in H; destruct H as (f' & Hf & H).
  exists d', p', f'.
  destruct (Float32.integrate_motion _ _ _ dt _ _ _ _) as [P' V'].
  inversion H; subst s'; clear H; simpl.
  repeat split; auto.
Qed.



(** ** Invariants of the reachable states *)



(** ** One particle *)

Lemma f32_single_density_sum (pos : array Float32.fvec3) (h : R) :
  for_rangeM 1 (Float32.density_body pos h 0) 0 = Returned 0.
Proof. reflexivity. Qed.

Lemma f32_single_pair_forces (pos vel : array Float32.fvec3) (d p : array R)
    (h mu : R) :
  Float32.pair_forces pos vel d p h mu 1 0 = Returned (vzero, vzero).
Proof. reflexivity. Qed.

Lemma for_rangeM_one {S : Type} (body : nat -> S -> outcome S) (s : S) :
  for_rangeM 1 body s = body 0%nat s.
Proof.
  unfold for_rangeM; simpl; destruct (body 0%nat s); reflexivity.
Qed.

Lemma f32_single_density_pass (pos : array Float32.fvec3) (d0 p0 : array R)
    (h : R) :
  exists d' p',
    Float32.calculate_densities_and_pressures pos d0 p0 h 1000 (3 * 1000) 1
    = Returned (d', p').
Proof.
  unfold Float32.calculate_densities_and_pressures; cbv zeta.
  rewrite for_rangeM_one, f32_single_density_sum; cbn [bind].
  assert (E : Rmax 0 (1000 * 0.1) = 100) by (rewrite Rmax_right by lra; lra).
  rewrite E.
  rewrite float32_in_range by (unfold float32_max; apply Rabs_le; lra).
  cbn [bind]; rewrite upd_same.
  rewrite ndiv_nonzero by lra; cbn [bind].
  rewrite float32_in_range by (unfold float32_max; apply Rabs_le; lra).
  cbn [bind]; eauto.
Qed.

Lemma float32_3_in_range (v : vec3) :
  (forall a, Rabs (get v a) <= float32_max) ->
  Float32.float32_3 v = Returned v.
Proof.
  intros H; destruct v as [x y z]; unfold Float32.float32_3; simpl.
  rewrite (float32_in_range x (H A0)), (float32_in_range y (H A1)),
    (float32_in_range z (H A2)); reflexivity.
Qed.

Lemma f32_single_force_pass (pos vel : array Float32.fvec3) (d p : array R)
    (f0 : array vec3) (h mu kc : R) :
  f0 0%nat = vzero ->
  exists f',
    Float32.calculate_forces pos vel d p f0 h mu kc default_gravity 1
    = Returned f' /\
    f' 0%nat = V3 0 (-9.81) 0.
Proof.
  intros Hf0.
  unfold Float32.calculate_forces; cbv zeta.
  rewrite for_rangeM_one; unfold read; simpl nth_error; cbn [bind].
  rewrite Hf0; simpl vy.
  rewrite float32_in_range by (unfold float32_max; apply Rabs_le; lra).
  cbn [bind]; rewrite f32_single_pair_forces; cbn [bind].
  rewrite !upd_same.
  rewrite float32_3_in_range
    by (intros a; unfold float32_max; apply Rabs_le; destruct a; simpl; lra).
  cbn [bind]; rewrite !upd_same.
  rewrite float32_3_in_range
    by (intros a; unfold float32_max; apply Rabs_le; destruct a; simpl; lra).
  cbn [bind]; eexists; split; [reflexivity|].
  rewrite upd_same; apply vec3_ext; intros a; destruct a; simpl; lra.
Qed.

(** A step of a system with one particle and the configuration of [demo]
    returns, whatever the float [dt] and whatever the position and the
    velocity hold, and performs the Euler step with the force
    [(0, -9.81, 0)] on each coordinate. *)
Lemma f32_single_update (s : Float32.SPHSystem) (dt : Float32.float) :
  Float32.single s ->
  exists s',
    Float32.update s dt = Returned s' /\ Float32.single s' /\
    forall a,
      (Float32.fget (Float32.positions s' 0%nat) a,
       Float32.fget (Float32.velocities s' 0%nat) a)
      = Float32.euler_axis (Float32.fget (Float32.positions s 0%nat) a)
          (Float32.fget (Float32.velocities s 0%nat) a)
          (Float32.Fin (get (V3 0 (-9.81) 0) a)) dt
          (Float32.Fin (get (V3 (-3) (-1) (-3)) a))
          (Float32.Fin (get (V3 3 5 3) a)) (Float32.Fin (-0.5)).
Proof.
  intros (Hn & Hh & Hrho & Hmu & Hg & Hf & Hmin & Hmax & Hdamp & Hpc).
  destruct (f32_single_density_pass (Float32.positions s)
              (Float32.densities s) (Float32.pressures s)
              (Float32.smoothing_radius s)) as (d' & p' & Hd).
  destruct (f32_single_force_pass (Float32.positions s)
              (Float32.velocities s) d' p' (Float32.forces s)
              (Float32.smoothing_radius s) (Float32.viscosity s)
              (Float32.kernel_constant s) (Hf 0%nat)) as (f' & Hfp & Hf').
  assert (Hup : exists s', Float32.update s dt = Returned s').
  { unfold Float32.update; rewrite Hn, Hrho, Hpc, Hg, Hd; cbn [bind].
    rewrite Hfp; cbn [bind].
    destruct (Float32.integrate_motion _ _ _ dt _ _ _ _) as [P' V']; eauto. }
  destruct Hup as (s' & Hup); exists s'; split; [exact Hup | split].
  - unfold Float32.update in Hup; rewrite Hn, Hrho, Hpc, Hg, Hd in Hup;
      cbn [bind] in Hup.
    rewrite Hfp in Hup; cbn [bind] in Hup.
    destruct (Float32.integrate_motion _ _ _ dt _ _ _ _) as [P' V'].
    inversion Hup; subst s'; unfold Float32.single; simpl.
    repeat split; auto.
  - intros a.
    assert (Hi : (0 < Float32.particle_count s)%nat) by (rewrite Hn; lia).
    generalize Hup; intros Hret; apply f32_update_Returned in Hret.
    destruct Hret as (d2 & p2 & f2 & Hf2 & Hint & _).
    destruct (f32_integrate_motion_inv (Float32.positions s)
                (Float32.velocities s) (fun i => Float32.fin3 (f2 i)) dt
                (Float32.fin3 (Float32.boundary_min s))
                (Float32.fin3 (Float32.boundary_max s))
                (Float32.Fin (Float32.boundary_damping s))
                (Float32.particle_count s)) as [Hlo _].
    rewrite <- Hint in Hlo; specialize (Hlo 0%nat a Hi); simpl in Hlo.
    rewrite !fget_fin3, Hmin, Hmax, Hdamp in Hlo.
    assert (Ef : f2 0%nat = V3 0 (-9.81) 0).
    { rewrite Hn, Hg in Hf2.
      destruct (f32_single_force_pass (Float32.positions s)
                  (Float32.velocities s) d2 p2 (Float32.forces s)
                  (Float32.smoothing_radius s) (Float32.viscosity s)
                  (Float32.kernel_constant s) (Hf 0%nat)) as (f3 & H3 & E3).
      rewrite Hf2 in H3; inversion H3; subst f3; exact E3. }
    rewrite Ef in Hlo; exact Hlo.
Qed.

Lemma f32_demo_single : Float32.single Float32.demo.
Proof. unfold Float32.single; simpl; repeat split. Qed.

Lemma f32_demo_update (dt : Float32.float) :
  Float32.update Float32.demo dt = Returned (Float32.demo_step dt).
Proof.
  apply returned_or_eq.
  destruct (f32_single_update Float32.demo dt f32_demo_single) as (s' & H & _).
  eauto.
Qed.

Lemma f32_demo_step_single (dt : Float32.float) :
  Float32.single (Float32.demo_step dt).
Proof.
  destruct (f32_single_update Float32.demo dt f32_demo_single)
    as (s' & H & Hs & _).
  generalize (f32_demo_update dt); rewrite H; intros E; inversion E as [E'].
  rewrite <- E'; exact Hs.
Qed.

Lemma f32_demo_update2 (dt dt' : Float32.float) :
  Float32.update (Float32.demo_step dt) dt'
  = Returned (Float32.demo_step2 dt dt').
Proof.
  apply returned_or_eq.
  destruct (f32_single_update (Float32.demo_step dt) dt'
              (f32_demo_step_single dt)) as (s' & H & _).
  eauto.
Qed.

Lemma f32_demo_constructed :
  Float32.__init__ 1 0.1 1000 0.1 3 GNone origin_sample 5000
  = Returned Float32.demo.
Proof.
  unfold Float32.__init__; rewrite demo_constructed; reflexivity.
Qed.

Lemma f32_demo_reachable : Float32.reachable Float32.demo.
Proof.
  exact (Float32.reach_init 1 0.1 1000 0.1 3 GNone origin_sample 5000
           Float32.demo origin_in_cube f32_demo_constructed).
Qed.

Lemma f32_demo_step_reachable (dt : Float32.float) :
  Float32.reachable (Float32.demo_step dt).
Proof.
  exact (Float32.reach_step Float32.demo dt _ f32_demo_reachable
           (f32_demo_update dt)).
Qed.

Lemma f32_demo_step2_reachable (dt dt' : Float32.float) :
  Float32.reachable (Float32.demo_step2 dt dt').
Proof.
  exact (Float32.reach_step (Float32.demo_step dt) dt' _
           (f32_demo_step_reachable dt) (f32_demo_update2 dt dt')).
Qed.



(** ** A step that overflows *)





(** ** Agreement of the two models *)

(** As long as no result leaves the range of float32, the Euler step on
    floats is the Euler step of the exact model. *)
Lemma f32_euler_axis_exact (p v f t lo hi d : R) :
  Rabs (v + f * t) < Float32.overflow_threshold ->
  Rabs (p + (v + f * t) * t) < Float32.overflow_threshold ->
  Rabs ((v + f * t) * d) < Float32.overflow_threshold ->
  Float32.euler_axis (Float32.Fin p) (Float32.Fin v) (Float32.Fin f)
    (Float32.Fin t) (Float32.Fin lo) (Float32.Fin hi) (Float32.Fin d)
  = (Float32.Fin (fst (euler_axis p v f t lo hi d)),
     Float32.Fin (snd (euler_axis p v f t lo hi d))).
Proof.
  intros Hv Hp Hd.
  apply Rabs_def2 in Hv; apply Rabs_def2 in Hp; apply Rabs_def2 in Hd.
  unfold Float32.euler_axis, euler_axis; cbv zeta.
  cbn [Float32.mul Float32.add].
  rewrite (store_in_range (v + f * t)) by lra.
  cbn [Float32.mul Float32.add].
  rewrite (store_in_range (p + (v + f * t) * t)) by lra.
  unfold Float32.clamp_axis, clamp_axis, Float32.gtb, Rgtb.
  cbn [Float32.ltb Float32.mul].
  rewrite (store_in_range ((v + f * t) * d)) by lra.
  destruct (p + (v + f * t) * t <? lo); [reflexivity|].
  destruct (hi <? p + (v + f * t) * t); reflexivity.
Qed.

(** Hence [integrate_motion] on finite arrays is the [integrate_motion]
    of the exact model, as long as, for every particle and every column,
    the new velocity, the new position and the damped velocity are in the
    range of float32. *)
Lemma f32_integrate_motion_exact (P V F : array vec3) (dt : R) (lo hi : vec3)
    (damping : R) (count : nat) :
  (forall i a, (i < count)%nat ->
     let v1 := get (V i) a + get (F i) a * dt in
     Rabs v1 < Float32.overflow_threshold /\
     Rabs (get (P i) a + v1 * dt) < Float32.overflow_threshold /\
     Rabs (v1 * damping) < Float32.overflow_threshold) ->
  forall i a,
    let st := Float32.integrate_motion (fun k => Float32.fin3 (P k))
                (fun k => Float32.fin3 (V k)) (fun k => Float32.fin3 (F k))
                (Float32.Fin dt) (Float32.fin3 lo) (Float32.fin3 hi)
                (Float32.Fin damping) count in
    let st' := integrate_motion P V F dt lo hi damping count in
    Float32.fget (fst st i) a = Float32.Fin (get (fst st' i) a) /\
    Float32.fget (snd st i) a = Float32.Fin (get (snd st' i) a).
Proof.
  intros Hrange i a; cbv zeta.
  destruct (f32_integrate_motion_inv (fun k => Float32.fin3 (P k))
              (fun k => Float32.fin3 (V k)) (fun k => Float32.fin3 (F k))
              (Float32.Fin dt) (Float32.fin3 lo) (Float32.fin3 hi)
              (Float32.Fin damping) count) as [Hlo Hhi].
  destruct (integrate_motion_inv P V F dt lo hi damping count) as [Elo Ehi].
  destruct (Nat.lt_ge_cases i count) as [Hi|Hi].
  - specialize (Hlo i a Hi); specialize (Elo i a Hi).
    rewrite !fget_fin3 in Hlo.
    destruct (Hrange i a Hi) as (Hv & Hp & Hd).
    rewrite (f32_euler_axis_exact _ _ _ _ _ _ _ Hv Hp Hd), <- Elo in Hlo.
    inversion Hlo; auto.
  - destruct (Hhi i Hi) as [-> ->], (Ehi i Hi) as [-> ->].
    rewrite !fget_fin3; auto.
Qed.

(** ** Boundary containment *)







(** ** A step of length zero *)




